(** * Coin Collector: a shallow embedding of [coin-collecting.py]

    The simulation core of the game (entities, collisions, score and level,
    power-up effects, the high-score file) is modelled as monadic programs
    over an explicit world: the [Game] object, a store of the entity objects
    it refers to, and the environment it reads (random source, clock, disk).
    Rendering and pygame's event queue are left out. *)

From Stdlib Require Import ZArith List Bool String Ascii Lia SpecFloat.

From Stdlib Require Import DecimalString DecimalPos.

Import ListNotations.

Local Open Scope Z_scope.

(** ** Python numbers

    A Python number is an [int] (unbounded) or a [float] (IEEE 754 binary64,
    here the specification floats of the standard library).  Arithmetic
    between an [int] and a [float] converts the [int]; comparisons between
    the two are exact, as in CPython. *)

Module Py.

Definition prec : Z := 53.
Definition emax : Z := 1024.

Definition float := spec_float.

(** [float(z)], rounded to nearest even. *)
Definition float_of_Z (z : Z) : float := binary_normalize prec emax z 0 false.

(** The decimal literal [a/b] (such as [0.3], written [3/10]): the float
    nearest to the quotient. *)
Definition literal (a b : Z) : float :=
  SFdiv prec emax (float_of_Z a) (float_of_Z b).

Inductive num : Type :=
| Int (z : Z)
| Flt (f : float).

Definition to_float (a : num) : float :=
  match a with
  | Int z => float_of_Z z
  | Flt f => f
  end.

Definition add (a b : num) : num :=
  match a, b with
  | Int x, Int y => Int (x + y)
  | _, _ => Flt (SFadd prec emax (to_float a) (to_float b))
  end.

Definition sub (a b : num) : num :=
  match a, b with
  | Int x, Int y => Int (x - y)
  | _, _ => Flt (SFsub prec emax (to_float a) (to_float b))
  end.

Definition mul (a b : num) : num :=
  match a, b with
  | Int x, Int y => Int (x * y)
  | _, _ => Flt (SFmul prec emax (to_float a) (to_float b))
  end.

(** Exact comparison of an integer with a float: the finite float
    [(-1)^s * m * 2^e] is compared after scaling both sides by [2^(-e)]
    when [e] is negative. *)
Definition compare_Z_float (z : Z) (f : float) : option comparison :=
  match f with
  | S754_nan => None
  | S754_infinity s => Some (if s then Gt else Lt)
  | S754_zero _ => Some (z ?= 0)
  | S754_finite s m e =>
      let v := cond_Zopp s (Zpos m) in
      if 0 <=? e then Some (z ?= v * 2 ^ e)
      else Some (z * 2 ^ (- e) ?= v)
  end.

Definition compare (a b : num) : option comparison :=
  match a, b with
  | Int x, Int y => Some (x ?= y)
  | Int x, Flt g => compare_Z_float x g
  | Flt f, Int y => option_map CompOpp (compare_Z_float y f)
  | Flt f, Flt g => SFcompare f g
  end.

(** [a < b] and [a > b]; both are false when a NaN is involved. *)
Definition lt (a b : num) : bool :=
  match compare a b with
  | Some Lt => true
  | _ => false
  end.

Definition gt (a b : num) : bool := lt b a.

Definition le (a b : num) : bool :=
  match compare a b with
  | Some (Lt | Eq) => true
  | _ => false
  end.

(** [max(a, b)]: the first argument unless the second is greater. *)
Definition max (a b : num) : num := if gt b a then b else a.

(** [int(a)]: truncation toward zero; [None] where Python raises
    (NaN and the infinities). *)
Definition trunc (a : num) : option Z :=
  match a with
  | Int z => Some z
  | Flt S754_nan => None
  | Flt (S754_infinity _) => None
  | Flt (S754_zero _) => Some 0
  | Flt (S754_finite s m e) =>
      Some (cond_Zopp s (if 0 <=? e then Zpos m * 2 ^ e
                         else Zpos m / 2 ^ (- e)))
  end.

(** The exact value of a number as a fraction [n / 2^k], when finite. *)
Definition exact (a : num) : option (Z * Z) :=
  match a with
  | Int z => Some (z, 0)
  | Flt S754_nan => None
  | Flt (S754_infinity _) => None
  | Flt (S754_zero _) => Some (0, 0)
  | Flt (S754_finite s m e) =>
      if 0 <=? e then Some (cond_Zopp s (Zpos m) * 2 ^ e, 0)
      else Some (cond_Zopp s (Zpos m), - e)
  end.

End Py.

(** ** Constants of the module *)

Definition SCREEN_WIDTH : Z := 800.

Definition SCREEN_HEIGHT : Z := 800.

Definition Color : Type := (Z * Z * Z)%type.

Definition BLACK : Color := (0, 0, 0).

Definition WHITE : Color := (255, 255, 255).

Definition RED : Color := (255, 0, 0).

Definition GOLD : Color := (255, 215, 0).

Definition GREEN : Color := (0, 255, 0).

Definition BLUE : Color := (0, 0, 255).

Definition PURPLE : Color := (128, 0, 128).

Definition ORANGE : Color := (255, 165, 0).

Definition CYAN : Color := (0, 255, 255).

(** Game states *)
Definition MENU : Z := 0.

Definition PLAYING : Z := 1.

Definition GAME_OVER : Z := 2.

Definition SETTINGS : Z := 3.

(** ** Objects

    One record per class, with the attributes the class assigns.  Objects
    of the four entity classes live in a store and are referred to by
    [ref]; the lists of the [Game] object hold references, so that a
    mutation through one alias is seen through every other. *)

Definition ref : Type := nat.

Record Player : Type := {
  Player_width : Z;
  Player_height : Z;
  Player_x : Z;
  Player_y : Z;
  Player_speed : Z;
  Player_color : Color;
  Player_shield : bool;
  Player_shield_time : Z;
  Player_speed_boost : bool;
  Player_speed_boost_time : Z
}.

Record Obstacle : Type := {
  Obstacle_width : Z;
  Obstacle_height : Z;
  Obstacle_x : Z;
  Obstacle_y : Py.num;
  Obstacle_speed : Py.num;
  Obstacle_color : Color
}.

Record Coin : Type := {
  Coin_radius : Z;
  Coin_x : Z;
  Coin_y : Py.num;
  Coin_speed : Py.num;
  Coin_color : Color;
  Coin_collected : bool;
  Coin_animation_frame : Z;
  Coin_value : Z
}.

Record PowerUp : Type := {
  PowerUp_width : Z;
  PowerUp_height : Z;
  PowerUp_x : Z;
  PowerUp_y : Z;
  PowerUp_speed : Z;
  PowerUp_type : string;
  PowerUp_collected : bool;
  PowerUp_color : Color
}.

Record Particle : Type := {
  Particle_x : Py.num;
  Particle_y : Py.num;
  Particle_color : Color;
  Particle_size : Py.num;
  Particle_speed_x : Py.num;
  Particle_speed_y : Py.num;
  Particle_lifetime : Z
}.

Record Game : Type := {
  Game_state : Z;
  Game_player : Player;
  Game_obstacles : list ref;
  Game_coins : list ref;
  Game_power_ups : list ref;
  Game_particles : list ref;
  Game_score : Z;
  Game_high_score : Z;
  Game_level : Z;
  Game_lives : Z;
  Game_dark_mode : bool
}.

(** Attribute assignment, one function per attribute that is assigned
    after construction. *)
Section Assign.

Definition set_Player_x (v : Z) (p : Player) : Player :=
  {| Player_width := Player_width p; Player_height := Player_height p;
     Player_x := v; Player_y := Player_y p;
     Player_speed := Player_speed p; Player_color := Player_color p;
     Player_shield := Player_shield p;
     Player_shield_time := Player_shield_time p;
     Player_speed_boost := Player_speed_boost p;
     Player_speed_boost_time := Player_speed_boost_time p |}.

Definition set_Player_y (v : Z) (p : Player) : Player :=
  {| Player_width := Player_width p; Player_height := Player_height p;
     Player_x := Player_x p; Player_y := v;
     Player_speed := Player_speed p; Player_color := Player_color p;
     Player_shield := Player_shield p;
     Player_shield_time := Player_shield_time p;
     Player_speed_boost := Player_speed_boost p;
     Player_speed_boost_time := Player_speed_boost_time p |}.

Definition set_Player_shield (v : bool) (p : Player) : Player :=
  {| Player_width := Player_width p; Player_height := Player_height p;
     Player_x := Player_x p; Player_y := Player_y p;
     Player_speed := Player_speed p; Player_color := Player_color p;
     Player_shield := v;
     Player_shield_time := Player_shield_time p;
     Player_speed_boost := Player_speed_boost p;
     Player_speed_boost_time := Player_speed_boost_time p |}.

Definition set_Player_shield_time (v : Z) (p : Player) : Player :=
  {| Player_width := Player_width p; Player_height := Player_height p;
     Player_x := Player_x p; Player_y := Player_y p;
     Player_speed := Player_speed p; Player_color := Player_color p;
     Player_shield := Player_shield p;
     Player_shield_time := v;
     Player_speed_boost := Player_speed_boost p;
     Player_speed_boost_time := Player_speed_boost_time p |}.

Definition set_Player_speed_boost (v : bool) (p : Player) : Player :=
  {| Player_width := Player_width p; Player_height := Player_height p;
     Player_x := Player_x p; Player_y := Player_y p;
     Player_speed := Player_speed p; Player_color := Player_color p;
     Player_shield := Player_shield p;
     Player_shield_time := Player_shield_time p;
     Player_speed_boost := v;
     Player_speed_boost_time := Player_speed_boost_time p |}.

Definition set_Player_speed_boost_time (v : Z) (p : Player) : Player :=
  {| Player_width := Player_width p; Player_height := Player_height p;
     Player_x := Player_x p; Player_y := Player_y p;
     Player_speed := Player_speed p; Player_color := Player_color p;
     Player_shield := Player_shield p;
     Player_shield_time := Player_shield_time p;
     Player_speed_boost := Player_speed_boost p;
     Player_speed_boost_time := v |}.

Definition set_Obstacle_width (v : Z) (o : Obstacle) : Obstacle :=
  {| Obstacle_width := v; Obstacle_height := Obstacle_height o;
     Obstacle_x := Obstacle_x o; Obstacle_y := Obstacle_y o;
     Obstacle_speed := Obstacle_speed o; Obstacle_color := Obstacle_color o |}.

Definition set_Obstacle_x (v : Z) (o : Obstacle) : Obstacle :=
  {| Obstacle_width := Obstacle_width o; Obstacle_height := Obstacle_height o;
     Obstacle_x := v; Obstacle_y := Obstacle_y o;
     Obstacle_speed := Obstacle_speed o; Obstacle_color := Obstacle_color o |}.

Definition set_Obstacle_y (v : Py.num) (o : Obstacle) : Obstacle :=
  {| Obstacle_width := Obstacle_width o; Obstacle_height := Obstacle_height o;
     Obstacle_x := Obstacle_x o; Obstacle_y := v;
     Obstacle_speed := Obstacle_speed o; Obstacle_color := Obstacle_color o |}.

Definition set_Obstacle_speed (v : Py.num) (o : Obstacle) : Obstacle :=
  {| Obstacle_width := Obstacle_width o; Obstacle_height := Obstacle_height o;
     Obstacle_x := Obstacle_x o; Obstacle_y := Obstacle_y o;
     Obstacle_speed := v; Obstacle_color := Obstacle_color o |}.

Definition set_Coin_x (v : Z) (c : Coin) : Coin :=
  {| Coin_radius := Coin_radius c; Coin_x := v; Coin_y := Coin_y c;
     Coin_speed := Coin_speed c; Coin_color := Coin_color c;
     Coin_collected := Coin_collected c;
     Coin_animation_frame := Coin_animation_frame c;
     Coin_value := Coin_value c |}.

Definition set_Coin_y (v : Py.num) (c : Coin) : Coin :=
  {| Coin_radius := Coin_radius c; Coin_x := Coin_x c; Coin_y := v;
     Coin_speed := Coin_speed c; Coin_color := Coin_color c;
     Coin_collected := Coin_collected c;
     Coin_animation_frame := Coin_animation_frame c;
     Coin_value := Coin_value c |}.

Definition set_Coin_speed (v : Py.num) (c : Coin) : Coin :=
  {| Coin_radius := Coin_radius c; Coin_x := Coin_x c; Coin_y := Coin_y c;
     Coin_speed := v; Coin_color := Coin_color c;
     Coin_collected := Coin_collected c;
     Coin_animation_frame := Coin_animation_frame c;
     Coin_value := Coin_value c |}.

Definition set_Coin_color (v : Color) (c : Coin) : Coin :=
  {| Coin_radius := Coin_radius c; Coin_x := Coin_x c; Coin_y := Coin_y c;
     Coin_speed := Coin_speed c; Coin_color := v;
     Coin_collected := Coin_collected c;
     Coin_animation_frame := Coin_animation_frame c;
     Coin_value := Coin_value c |}.

Definition set_Coin_collected (v : bool) (c : Coin) : Coin :=
  {| Coin_radius := Coin_radius c; Coin_x := Coin_x c; Coin_y := Coin_y c;
     Coin_speed := Coin_speed c; Coin_color := Coin_color c;
     Coin_collected := v;
     Coin_animation_frame := Coin_animation_frame c;
     Coin_value := Coin_value c |}.

Definition set_Coin_animation_frame (v : Z) (c : Coin) : Coin :=
  {| Coin_radius := Coin_radius c; Coin_x := Coin_x c; Coin_y := Coin_y c;
     Coin_speed := Coin_speed c; Coin_color := Coin_color c;
     Coin_collected := Coin_collected c;
     Coin_animation_frame := v;
     Coin_value := Coin_value c |}.

Definition set_Coin_value (v : Z) (c : Coin) : Coin :=
  {| Coin_radius := Coin_radius c; Coin_x := Coin_x c; Coin_y := Coin_y c;
     Coin_speed := Coin_speed c; Coin_color := Coin_color c;
     Coin_collected := Coin_collected c;
     Coin_animation_frame := Coin_animation_frame c;
     Coin_value := v |}.

Definition set_PowerUp_x (v : Z) (u : PowerUp) : PowerUp :=
  {| PowerUp_width := PowerUp_width u; PowerUp_height := PowerUp_height u;
     PowerUp_x := v; PowerUp_y := PowerUp_y u;
     PowerUp_speed := PowerUp_speed u; PowerUp_type := PowerUp_type u;
     PowerUp_collected := PowerUp_collected u;
     PowerUp_color := PowerUp_color u |}.

Definition set_PowerUp_y (v : Z) (u : PowerUp) : PowerUp :=
  {| PowerUp_width := PowerUp_width u; PowerUp_height := PowerUp_height u;
     PowerUp_x := PowerUp_x u; PowerUp_y := v;
     PowerUp_speed := PowerUp_speed u; PowerUp_type := PowerUp_type u;
     PowerUp_collected := PowerUp_collected u;
     PowerUp_color := PowerUp_color u |}.

Definition set_PowerUp_type (v : string) (u : PowerUp) : PowerUp :=
  {| PowerUp_width := PowerUp_width u; PowerUp_height := PowerUp_height u;
     PowerUp_x := PowerUp_x u; PowerUp_y := PowerUp_y u;
     PowerUp_speed := PowerUp_speed u; PowerUp_type := v;
     PowerUp_collected := PowerUp_collected u;
     PowerUp_color := PowerUp_color u |}.

Definition set_PowerUp_collected (v : bool) (u : PowerUp) : PowerUp :=
  {| PowerUp_width := PowerUp_width u; PowerUp_height := PowerUp_height u;
     PowerUp_x := PowerUp_x u; PowerUp_y := PowerUp_y u;
     PowerUp_speed := PowerUp_speed u; PowerUp_type := PowerUp_type u;
     PowerUp_collected := v;
     PowerUp_color := PowerUp_color u |}.

Definition set_PowerUp_color (v : Color) (u : PowerUp) : PowerUp :=
  {| PowerUp_width := PowerUp_width u; PowerUp_height := PowerUp_height u;
     PowerUp_x := PowerUp_x u; PowerUp_y := PowerUp_y u;
     PowerUp_speed := PowerUp_speed u; PowerUp_type := PowerUp_type u;
     PowerUp_collected := PowerUp_collected u;
     PowerUp_color := v |}.

Definition set_Game_state (v : Z) (g : Game) : Game :=
  {| Game_state := v; Game_player := Game_player g;
     Game_obstacles := Game_obstacles g; Game_coins := Game_coins g;
     Game_power_ups := Game_power_ups g; Game_particles := Game_particles g;
     Game_score := Game_score g; Game_high_score := Game_high_score g;
     Game_level := Game_level g; Game_lives := Game_lives g;
     Game_dark_mode := Game_dark_mode g |}.

Definition set_Game_player (v : Player) (g : Game) : Game :=
  {| Game_state := Game_state g; Game_player := v;
     Game_obstacles := Game_obstacles g; Game_coins := Game_coins g;
     Game_power_ups := Game_power_ups g; Game_particles := Game_particles g;
     Game_score := Game_score g; Game_high_score := Game_high_score g;
     Game_level := Game_level g; Game_lives := Game_lives g;
     Game_dark_mode := Game_dark_mode g |}.

Definition set_Game_obstacles (v : list ref) (g : Game) : Game :=
  {| Game_state := Game_state g; Game_player := Game_player g;
     Game_obstacles := v; Game_coins := Game_coins g;
     Game_power_ups := Game_power_ups g; Game_particles := Game_particles g;
     Game_score := Game_score g; Game_high_score := Game_high_score g;
     Game_level := Game_level g; Game_lives := Game_lives g;
     Game_dark_mode := Game_dark_mode g |}.

Definition set_Game_coins (v : list ref) (g : Game) : Game :=
  {| Game_state := Game_state g; Game_player := Game_player g;
     Game_obstacles := Game_obstacles g; Game_coins := v;
     Game_power_ups := Game_power_ups g; Game_particles := Game_particles g;
     Game_score := Game_score g; Game_high_score := Game_high_score g;
     Game_level := Game_level g; Game_lives := Game_lives g;
     Game_dark_mode := Game_dark_mode g |}.

Definition set_Game_power_ups (v : list ref) (g : Game) : Game :=
  {| Game_state := Game_state g; Game_player := Game_player g;
     Game_obstacles := Game_obstacles g; Game_coins := Game_coins g;
     Game_power_ups := v; Game_particles := Game_particles g;
     Game_score := Game_score g; Game_high_score := Game_high_score g;
     Game_level := Game_level g; Game_lives := Game_lives g;
     Game_dark_mode := Game_dark_mode g |}.

Definition set_Game_particles (v : list ref) (g : Game) : Game :=
  {| Game_state := Game_state g; Game_player := Game_player g;
     Game_obstacles := Game_obstacles g; Game_coins := Game_coins g;
     Game_power_ups := Game_power_ups g; Game_particles := v;
     Game_score := Game_score g; Game_high_score := Game_high_score g;
     Game_level := Game_level g; Game_lives := Game_lives g;
     Game_dark_mode := Game_dark_mode g |}.

Definition set_Game_score (v : Z) (g : Game) : Game :=
  {| Game_state := Game_state g; Game_player := Game_player g;
     Game_obstacles := Game_obstacles g; Game_coins := Game_coins g;
     Game_power_ups := Game_power_ups g; Game_particles := Game_particles g;
     Game_score := v; Game_high_score := Game_high_score g;
     Game_level := Game_level g; Game_lives := Game_lives g;
     Game_dark_mode := Game_dark_mode g |}.

Definition set_Game_high_score (v : Z) (g : Game) : Game :=
  {| Game_state := Game_state g; Game_player := Game_player g;
     Game_obstacles := Game_obstacles g; Game_coins := Game_coins g;
     Game_power_ups := Game_power_ups g; Game_particles := Game_particles g;
     Game_score := Game_score g; Game_high_score := v;
     Game_level := Game_level g; Game_lives := Game_lives g;
     Game_dark_mode := Game_dark_mode g |}.

Definition set_Game_level (v : Z) (g : Game) : Game :=
  {| Game_state := Game_state g; Game_player := Game_player g;
     Game_obstacles := Game_obstacles g; Game_coins := Game_coins g;
     Game_power_ups := Game_power_ups g; Game_particles := Game_particles g;
     Game_score := Game_score g; Game_high_score := Game_high_score g;
     Game_level := v; Game_lives := Game_lives g;
     Game_dark_mode := Game_dark_mode g |}.

Definition set_Game_lives (v : Z) (g : Game) : Game :=
  {| Game_state := Game_state g; Game_player := Game_player g;
     Game_obstacles := Game_obstacles g; Game_coins := Game_coins g;
     Game_power_ups := Game_power_ups g; Game_particles := Game_particles g;
     Game_score := Game_score g; Game_high_score := Game_high_score g;
     Game_level := Game_level g; Game_lives := v;
     Game_dark_mode := Game_dark_mode g |}.

Definition set_Game_dark_mode (v : bool) (g : Game) : Game :=
  {| Game_state := Game_state g; Game_player := Game_player g;
     Game_obstacles := Game_obstacles g; Game_coins := Game_coins g;
     Game_power_ups := Game_power_ups g; Game_particles := Game_particles g;
     Game_score := Game_score g; Game_high_score := Game_high_score g;
     Game_level := Game_level g; Game_lives := Game_lives g;
     Game_dark_mode := v |}.

End Assign.

(** ** The world

    [Heap] is the store of entity objects, one total map per class
    (objects are never freed; [Heap_next] is the next unused reference).
    [Env] is what the program reads from outside: the successive draws of
    the random source, the successive readings of pygame's millisecond
    clock, and the file [highscore.txt] with the fault, if any, that the
    next attempt to write it meets. *)

Record Heap : Type := {
  Heap_obstacles : ref -> Obstacle;
  Heap_coins : ref -> Coin;
  Heap_power_ups : ref -> PowerUp;
  Heap_particles : ref -> Particle;
  Heap_next : ref
}.

(** [NoFault]: the write succeeds.  [OpenFault]: [open(..., "w")] raises,
    the file is left as it was.  [WriteFault]: the file is opened and
    truncated, then [f.write] raises. *)
Inductive fault : Type :=
| NoFault
| OpenFault
| WriteFault.

Record Env : Type := {
  Env_random : nat -> Z;
  Env_random_pos : nat;
  Env_ticks : nat -> Z;
  Env_ticks_pos : nat;
  Env_highscore_txt : option string;
  Env_fault : fault
}.

Record World : Type := {
  self : Game;
  heap : Heap;
  env : Env
}.

Definition upd {A : Type} (r : ref) (v : A) (h : ref -> A) : ref -> A :=
  fun r' => if Nat.eqb r' r then v else h r'.

Definition set_self (g : Game) (w : World) : World :=
  {| self := g; heap := heap w; env := env w |}.

Definition set_heap (h : Heap) (w : World) : World :=
  {| self := self w; heap := h; env := env w |}.

Definition set_env (e : Env) (w : World) : World :=
  {| self := self w; heap := heap w; env := e |}.

Definition set_Heap_obstacles (v : ref -> Obstacle) (h : Heap) : Heap :=
  {| Heap_obstacles := v; Heap_coins := Heap_coins h;
     Heap_power_ups := Heap_power_ups h; Heap_particles := Heap_particles h;
     Heap_next := Heap_next h |}.

Definition set_Heap_coins (v : ref -> Coin) (h : Heap) : Heap :=
  {| Heap_obstacles := Heap_obstacles h; Heap_coins := v;
     Heap_power_ups := Heap_power_ups h; Heap_particles := Heap_particles h;
     Heap_next := Heap_next h |}.

Definition set_Heap_power_ups (v : ref -> PowerUp) (h : Heap) : Heap :=
  {| Heap_obstacles := Heap_obstacles h; Heap_coins := Heap_coins h;
     Heap_power_ups := v; Heap_particles := Heap_particles h;
     Heap_next := Heap_next h |}.

Definition set_Heap_particles (v : ref -> Particle) (h : Heap) : Heap :=
  {| Heap_obstacles := Heap_obstacles h; Heap_coins := Heap_coins h;
     Heap_power_ups := Heap_power_ups h; Heap_particles := v;
     Heap_next := Heap_next h |}.

Definition set_Heap_next (v : ref) (h : Heap) : Heap :=
  {| Heap_obstacles := Heap_obstacles h; Heap_coins := Heap_coins h;
     Heap_power_ups := Heap_power_ups h; Heap_particles := Heap_particles h;
     Heap_next := v |}.

Definition set_Env_random_pos (v : nat) (e : Env) : Env :=
  {| Env_random := Env_random e; Env_random_pos := v;
     Env_ticks := Env_ticks e; Env_ticks_pos := Env_ticks_pos e;
     Env_highscore_txt := Env_highscore_txt e; Env_fault := Env_fault e |}.

Definition set_Env_ticks_pos (v : nat) (e : Env) : Env :=
  {| Env_random := Env_random e; Env_random_pos := Env_random_pos e;
     Env_ticks := Env_ticks e; Env_ticks_pos := v;
     Env_highscore_txt := Env_highscore_txt e; Env_fault := Env_fault e |}.

Definition set_Env_highscore_txt (v : option string) (e : Env) : Env :=
  {| Env_random := Env_random e; Env_random_pos := Env_random_pos e;
     Env_ticks := Env_ticks e; Env_ticks_pos := Env_ticks_pos e;
     Env_highscore_txt := v; Env_fault := Env_fault e |}.

(** ** The monad: state and exceptions

    A program takes a world and gives a result, normal or exceptional, and
    the world it leaves; what was mutated before an exception stays
    mutated. *)

Inductive exn : Type :=
| OSError | FileNotFoundError | ValueError | OverflowError | IndexError | KeyError.

Inductive result (A : Type) : Type :=
| Ok (a : A)
| Raise (e : exn).

Arguments Ok {A} a.
Arguments Raise {A} e.

Definition M (A : Type) : Type := World -> result A * World.

Definition ret {A : Type} (a : A) : M A := fun w => (Ok a, w).

Definition bind {A B : Type} (m : M A) (k : A -> M B) : M B :=
  fun w =>
    match m w with
    | (Ok a, w') => k a w'
    | (Raise e, w') => (Raise e, w')
    end.

Definition raise {A : Type} (e : exn) : M A := fun w => (Raise e, w).

Definition gets {A : Type} (f : World -> A) : M A := fun w => (Ok (f w), w).

Definition modify (f : World -> World) : M unit := fun w => (Ok tt, f w).

Notation "x <- m ;; k" := (bind m (fun x => k))
  (at level 61, m at next level, right associativity).

Notation "m ;; k" := (bind m (fun _ => k))
  (at level 61, right associativity).

(** [try: m except (classes): h] *)
Definition try_except {A : Type} (m : M A) (caught : exn -> bool) (h : M A) : M A :=
  fun w =>
    match m w with
    | (Ok a, w') => (Ok a, w')
    | (Raise e, w') => if caught e then h w' else (Raise e, w')
    end.

Definition when (b : bool) (m : M unit) : M unit := if b then m else ret tt.

(** [for a in l: body(a)], over the list as it is when the loop starts. *)
Fixpoint for_each {A : Type} (l : list A) (body : A -> M unit) : M unit :=
  match l with
  | [] => ret tt
  | a :: l' => body a ;; for_each l' body
  end.

(** [for _ in range(n): body] *)
Fixpoint for_range (n : nat) (body : M unit) : M unit :=
  match n with
  | O => ret tt
  | S n' => body ;; for_range n' body
  end.

(** [[f() for _ in range(n)]] *)
Fixpoint list_of_range {A : Type} (n : nat) (f : M A) : M (list A) :=
  match n with
  | O => ret []
  | S n' => a <- f ;; l <- list_of_range n' f ;; ret (a :: l)
  end.

(** Access to the [Game] object and to the store. *)
Definition get_self : M Game := gets self.

Definition modify_self (f : Game -> Game) : M unit :=
  modify (fun w => set_self (f (self w)) w).

Definition modify_player (f : Player -> Player) : M unit :=
  modify_self (fun g => set_Game_player (f (Game_player g)) g).

Definition get_obstacle (r : ref) : M Obstacle := gets (fun w => Heap_obstacles (heap w) r).

Definition get_coin (r : ref) : M Coin := gets (fun w => Heap_coins (heap w) r).

Definition get_power_up (r : ref) : M PowerUp := gets (fun w => Heap_power_ups (heap w) r).

Definition get_particle (r : ref) : M Particle := gets (fun w => Heap_particles (heap w) r).

Definition put_obstacle (r : ref) (o : Obstacle) : M unit :=
  modify (fun w => set_heap (set_Heap_obstacles (upd r o (Heap_obstacles (heap w))) (heap w)) w).

Definition put_coin (r : ref) (c : Coin) : M unit :=
  modify (fun w => set_heap (set_Heap_coins (upd r c (Heap_coins (heap w))) (heap w)) w).

Definition put_power_up (r : ref) (u : PowerUp) : M unit :=
  modify (fun w => set_heap (set_Heap_power_ups (upd r u (Heap_power_ups (heap w))) (heap w)) w).

Definition put_particle (r : ref) (q : Particle) : M unit :=
  modify (fun w => set_heap (set_Heap_particles (upd r q (Heap_particles (heap w))) (heap w)) w).

(** A fresh reference for a newly constructed object. *)
Definition fresh : M ref :=
  r <- gets (fun w => Heap_next (heap w)) ;;
  modify (fun w => set_heap (set_Heap_next (S (Heap_next (heap w))) (heap w)) w) ;;
  ret r.

(** ** The environment: [random], [pygame.time], the file *)

Definition next_random : M Z :=
  r <- gets (fun w => Env_random (env w) (Env_random_pos (env w))) ;;
  modify (fun w => set_env (set_Env_random_pos (S (Env_random_pos (env w))) (env w)) w) ;;
  ret r.

(** [random.randint(a, b)]: uniform over [a..b], both included. *)
Definition randint (a b : Z) : M Z :=
  if b <? a then raise ValueError
  else r <- next_random ;; ret (a + r mod (b - a + 1)).

(** [random.random()]: 53 random bits scaled into [0, 1). *)
Definition random : M Py.num :=
  r <- next_random ;;
  ret (Py.Flt (binary_normalize Py.prec Py.emax (r mod 2 ^ 53) (-53) false)).

(** [random.uniform(a, b)] is [a + (b - a) * random()]. *)
Definition uniform (a b : Z) : M Py.num :=
  u <- random ;;
  ret (Py.add (Py.Int a) (Py.mul (Py.Int (b - a)) u)).

(** [random.choice(l)] *)
Definition choice {A : Type} (l : list A) : M A :=
  match l with
  | [] => raise IndexError
  | d :: _ => r <- next_random ;;
              ret (nth (Z.to_nat (r mod Z.of_nat (List.length l))) l d)
  end.

(** [pygame.time.get_ticks()] *)
Definition get_ticks : M Z :=
  t <- gets (fun w => Env_ticks (env w) (Env_ticks_pos (env w))) ;;
  modify (fun w => set_env (set_Env_ticks_pos (S (Env_ticks_pos (env w))) (env w)) w) ;;
  ret t.

(** [with open("highscore.txt", "r") as f: f.read()] *)
Definition read_highscore_txt : M string :=
  e <- gets env ;;
  match Env_highscore_txt e with
  | None => raise FileNotFoundError
  | Some s => ret s
  end.

(** [with open("highscore.txt", "w") as f: f.write(s)] *)
Definition write_highscore_txt (s : string) : M unit :=
  e <- gets env ;;
  match Env_fault e with
  | OpenFault => raise OSError
  | WriteFault =>
      modify (fun w => set_env (set_Env_highscore_txt (Some EmptyString) (env w)) w) ;;
      raise OSError
  | NoFault =>
      modify (fun w => set_env (set_Env_highscore_txt (Some s) (env w)) w)
  end.

(** [int(a)] on a number *)
Definition int_of_num (a : Py.num) : M Z :=
  match Py.trunc a with
  | Some z => ret z
  | None => match a with
            | Py.Flt S754_nan => raise ValueError
            | _ => raise OverflowError
            end
  end.

(** ** Text and integers: [str(n)] and [int(s)]

    [int] on ASCII text follows CPython: blanks are skipped on both sides,
    one sign is allowed, then decimal digits, where single underscores may
    separate digits.  (The interpreter's optional limit on the number of
    digits is not modelled.) *)

Definition str (n : Z) : string := NilZero.string_of_int (Z.to_int n).

Definition code (c : ascii) : Z := Z.of_N (N_of_ascii c).

Definition is_space (c : ascii) : bool :=
  let n := code c in (n =? 32) || ((9 <=? n) && (n <=? 13)).

Definition digit_value (c : ascii) : option Z :=
  let n := code c in
  if (48 <=? n) && (n <=? 57) then Some (n - 48) else None.

Definition is_underscore (c : ascii) : bool := code c =? 95.

Fixpoint skip_spaces (s : string) : string :=
  match s with
  | String c s' => if is_space c then skip_spaces s' else s
  | EmptyString => s
  end.

(** The digits: [prev] tells that the last character read was an
    underscore, [seen] that a digit has been read; the result is the value
    and the text that follows, or [None] for a misplaced underscore or no
    digit at all. *)
Fixpoint scan_digits (s : string) (prev seen : bool) (acc : Z) : option (Z * string) :=
  let stop := if prev || negb seen then None else Some (acc, s) in
  match s with
  | EmptyString => stop
  | String c s' =>
      match digit_value c with
      | Some d => scan_digits s' false true (10 * acc + d)
      | None =>
          if is_underscore c
          then (if prev then None else scan_digits s' true seen acc)
          else stop
      end
  end.

Definition int_of_ascii (s : string) : option Z :=
  let s1 := skip_spaces s in
  let '(negative, s2) :=
    match s1 with
    | String c s' =>
        if code c =? 43 then (false, s')
        else if code c =? 45 then (true, s')
        else (false, s1)
    | EmptyString => (false, s1)
    end in
  match s2 with
  | String c _ =>
      if is_underscore c then None
      else match scan_digits s2 false false 0 with
           | Some (v, rest) =>
               match skip_spaces rest with
               | EmptyString => Some (if negative then - v else v)
               | String _ _ => None
               end
           | None => None
           end
  | EmptyString => None
  end.

Fixpoint is_ascii (s : string) : bool :=
  match s with
  | EmptyString => true
  | String c s' => (code c <? 128) && is_ascii s'
  end.

Section TextInt.

(** What [int(f.read())] gives for a file that holds a byte above 127:
    the text may fail to decode (a [UnicodeDecodeError] is a [ValueError]),
    or decode to digits and blanks of other scripts, which [int] accepts.
    [None] stands for the [ValueError]. *)
Variable int_of_unicode : string -> option Z.

Definition int_of_text (s : string) : option Z :=
  if is_ascii s then int_of_ascii s else int_of_unicode s.

End TextInt.

(** ** Input of a frame *)

Record Keys : Type := { K_LEFT : bool; K_RIGHT : bool }.

Inductive key : Type := K_1 | K_2 | K_3 | K_RETURN | K_ESCAPE | K_other.

Inductive event : Type :=
| QUIT
| KEYDOWN (k : key)
| other_event.

(** ** class Player *)

Module Player.

Definition reset_position (p : Player) : Player :=
  let p := set_Player_x (SCREEN_WIDTH / 2 - Player_width p / 2) p in
  set_Player_y (SCREEN_HEIGHT - Player_height p - 10) p.

Definition __init__ : Player :=
  reset_position
    {| Player_width := 50; Player_height := 50;
       Player_x := 0; Player_y := 0;
       Player_speed := 10; Player_color := BLUE;
       Player_shield := false; Player_shield_time := 0;
       Player_speed_boost := false; Player_speed_boost_time := 0 |}.

(** The player is the object [self.player] of the game. *)
Definition this : M Player := gets (fun w => Game_player (self w)).

Definition update (keys : Keys) : M unit :=
  p <- this ;;
  let speed_multiplier :=
    if Player_speed_boost p then Py.Flt (Py.literal 3 2) else Py.Int 1 in
  (p <- this ;;
   if K_LEFT keys && (0 <? Player_x p) then
     d <- int_of_num (Py.mul (Py.Int (Player_speed p)) speed_multiplier) ;;
     modify_player (fun p => set_Player_x (Player_x p - d) p)
   else ret tt) ;;
  (p <- this ;;
   if K_RIGHT keys && (Player_x p <? SCREEN_WIDTH - Player_width p) then
     d <- int_of_num (Py.mul (Py.Int (Player_speed p)) speed_multiplier) ;;
     modify_player (fun p => set_Player_x (Player_x p + d) p)
   else ret tt) ;;
  current_time <- get_ticks ;;
  (p <- this ;;
   when (Player_shield p && (5000 <? current_time - Player_shield_time p))
     (modify_player (set_Player_shield false))) ;;
  (p <- this ;;
   when (Player_speed_boost p && (5000 <? current_time - Player_speed_boost_time p))
     (modify_player (set_Player_speed_boost false))).

End Player.

(** ** class Obstacle

    A method that only mutates its object is a function on the object; one
    that draws random numbers is a program returning the mutated object,
    which [call_obstacle] runs on the object behind a reference. *)

Module Obstacle.

Definition reset_position (o : Obstacle) : M Obstacle :=
  x <- randint 0 (SCREEN_WIDTH - Obstacle_width o) ;;
  let o := set_Obstacle_x x o in
  ret (set_Obstacle_y (Py.Int (- Obstacle_height o)) o).

Definition __init__ : M ref :=
  width <- randint 100 200 ;;
  o <- reset_position
         {| Obstacle_width := width; Obstacle_height := 20;
            Obstacle_x := 0; Obstacle_y := Py.Int 0;
            Obstacle_speed := Py.Int 5; Obstacle_color := RED |} ;;
  r <- fresh ;;
  put_obstacle r o ;;
  ret r.

Definition update (o : Obstacle) : Obstacle :=
  set_Obstacle_y (Py.add (Obstacle_y o) (Obstacle_speed o)) o.

Definition is_off_screen (o : Obstacle) : bool :=
  Py.gt (Obstacle_y o) (Py.Int SCREEN_HEIGHT).

Definition respawn (o : Obstacle) : M Obstacle :=
  width <- randint 100 200 ;;
  let o := set_Obstacle_width width o in
  o <- reset_position o ;;
  ret (set_Obstacle_speed (Py.add (Obstacle_speed o) (Py.Flt (Py.literal 3 10))) o).

End Obstacle.

Definition call_obstacle (r : ref) (method : Obstacle -> M Obstacle) : M unit :=
  o <- get_obstacle r ;; o' <- method o ;; put_obstacle r o'.

(** ** class Coin *)

Module Coin.

Definition reset_position (c : Coin) : M Coin :=
  x <- randint (Coin_radius c) (SCREEN_WIDTH - Coin_radius c) ;;
  let c := set_Coin_x x c in
  ret (set_Coin_y (Py.Int (- Coin_radius c)) c).

Definition __init__ : M ref :=
  c <- reset_position
         {| Coin_radius := 15; Coin_x := 0; Coin_y := Py.Int 0;
            Coin_speed := Py.Int 4; Coin_color := GOLD;
            Coin_collected := false; Coin_animation_frame := 0;
            Coin_value := 1 |} ;;
  r <- fresh ;;
  put_coin r c ;;
  ret r.

Definition update (c : Coin) : Coin :=
  let c := set_Coin_y (Py.add (Coin_y c) (Coin_speed c)) c in
  set_Coin_animation_frame (Coin_animation_frame c + 1) c.

Definition is_off_screen (c : Coin) : bool :=
  Py.gt (Coin_y c) (Py.Int SCREEN_HEIGHT).

Definition respawn (c : Coin) : M Coin :=
  c <- reset_position c ;;
  let c := set_Coin_speed (Py.add (Coin_speed c) (Py.Flt (Py.literal 2 10))) c in
  let c := set_Coin_collected false c in
  u <- random ;;
  if Py.lt u (Py.Flt (Py.literal 1 10)) then
    ret (set_Coin_value 5 (set_Coin_color PURPLE c))
  else
    ret (set_Coin_value 1 (set_Coin_color GOLD c)).

End Coin.

Definition call_coin (r : ref) (method : Coin -> M Coin) : M unit :=
  c <- get_coin r ;; c' <- method c ;; put_coin r c'.

(** ** class PowerUp *)

Module PowerUp.

Definition types : list string := ["shield"; "speed_boost"; "extra_life"]%string.

Definition reset_position (u : PowerUp) : M PowerUp :=
  x <- randint 0 (SCREEN_WIDTH - PowerUp_width u) ;;
  let u := set_PowerUp_x x u in
  ret (set_PowerUp_y (- PowerUp_height u) u).

(** The dictionary of [set_color]; a missing key would be a [KeyError]. *)
Definition color_of (type : string) : option Color :=
  if String.eqb type "shield" then Some CYAN
  else if String.eqb type "speed_boost" then Some ORANGE
  else if String.eqb type "extra_life" then Some GREEN
  else None.

Definition set_color (u : PowerUp) : M PowerUp :=
  match color_of (PowerUp_type u) with
  | Some c => ret (set_PowerUp_color c u)
  | None => raise KeyError
  end.

Definition __init__ : M ref :=
  u <- reset_position
         {| PowerUp_width := 30; PowerUp_height := 30;
            PowerUp_x := 0; PowerUp_y := 0; PowerUp_speed := 3;
            PowerUp_type := ""; PowerUp_collected := false;
            PowerUp_color := BLACK |} ;;
  type <- choice types ;;
  let u := set_PowerUp_collected false (set_PowerUp_type type u) in
  u <- set_color u ;;
  r <- fresh ;;
  put_power_up r u ;;
  ret r.

Definition update (u : PowerUp) : PowerUp :=
  set_PowerUp_y (PowerUp_y u + PowerUp_speed u) u.

Definition is_off_screen (u : PowerUp) : bool :=
  SCREEN_HEIGHT <? PowerUp_y u.

Definition respawn (u : PowerUp) : M PowerUp :=
  u <- reset_position u ;;
  type <- choice types ;;
  let u := set_PowerUp_collected false (set_PowerUp_type type u) in
  set_color u.

End PowerUp.

(** ** class Particle *)

Module Particle.

Definition __init__ (x y : Py.num) (color : Color) : M ref :=
  size <- randint 2 5 ;;
  speed_x <- uniform (-2) 2 ;;
  speed_y <- uniform (-5) (-1) ;;
  lifetime <- randint 20 40 ;;
  r <- fresh ;;
  put_particle r
    {| Particle_x := x; Particle_y := y; Particle_color := color;
       Particle_size := Py.Int size;
       Particle_speed_x := speed_x; Particle_speed_y := speed_y;
       Particle_lifetime := lifetime |} ;;
  ret r.

Definition update (q : Particle) : Particle :=
  {| Particle_x := Py.add (Particle_x q) (Particle_speed_x q);
     Particle_y := Py.add (Particle_y q) (Particle_speed_y q);
     Particle_color := Particle_color q;
     Particle_size :=
       Py.max (Py.Int 0) (Py.sub (Particle_size q) (Py.Flt (Py.literal 1 10)));
     Particle_speed_x := Particle_speed_x q;
     Particle_speed_y := Particle_speed_y q;
     Particle_lifetime := Particle_lifetime q - 1 |}.

Definition is_dead (q : Particle) : bool := Particle_lifetime q <=? 0.

End Particle.

(** [l.remove(r)]: the first occurrence goes; [None] (a [ValueError]) when
    there is none.  References are compared, as Python compares objects of
    a class without [__eq__] by identity. *)
Fixpoint list_remove (r : ref) (l : list ref) : option (list ref) :=
  match l with
  | [] => None
  | a :: l' =>
      if Nat.eqb a r then Some l'
      else option_map (cons a) (list_remove r l')
  end.

(** ** class Game *)

Module Game.

Section HighScore.

Variable int_of_unicode : string -> option Z.

Definition load_high_score : M Z :=
  try_except
    (s <- read_highscore_txt ;;
     match int_of_text int_of_unicode s with
     | Some n => ret n
     | None => raise ValueError
     end)
    (fun e => match e with
              | FileNotFoundError | ValueError => true
              | _ => false
              end)
    (ret 0).

End HighScore.

Definition save_high_score : M unit :=
  g <- get_self ;;
  write_highscore_txt (str (Game_high_score g)).

Definition reset_game_objects : M unit :=
  g <- get_self ;;
  obstacles <- list_of_range (Z.to_nat (Z.min (3 + Game_level g / 2) 5)) Obstacle.__init__ ;;
  modify_self (set_Game_obstacles obstacles) ;;
  g <- get_self ;;
  coins <- list_of_range (Z.to_nat (Z.min (2 + Game_level g / 3) 5)) Coin.__init__ ;;
  modify_self (set_Game_coins coins) ;;
  modify_self (set_Game_power_ups []) ;;
  modify_self (set_Game_particles []).

Definition __init__ (int_of_unicode : string -> option Z) : M unit :=
  modify_self (fun g =>
    set_Game_score 0
      (set_Game_particles [] (set_Game_power_ups [] (set_Game_coins []
        (set_Game_obstacles [] (set_Game_player Player.__init__
          (set_Game_state MENU g))))))) ;;
  high_score <- load_high_score int_of_unicode ;;
  modify_self (fun g =>
    set_Game_dark_mode true (set_Game_lives 1 (set_Game_level 1
      (set_Game_high_score high_score g)))) ;;
  reset_game_objects.

Definition spawn_power_up : M unit :=
  u <- random ;;
  g <- get_self ;;
  when (Py.lt u (Py.Flt (Py.literal 5 100))
        && (Z.of_nat (List.length (Game_power_ups g)) <? 2))
    (r <- PowerUp.__init__ ;;
     modify_self (fun g => set_Game_power_ups (Game_power_ups g ++ [r]) g)).

(** [self.particles.append(Particle(x, y, color))] *)
Definition append_particle (x y : Py.num) (color : Color) : M unit :=
  q <- Particle.__init__ x y color ;;
  modify_self (fun g => set_Game_particles (Game_particles g ++ [q]) g).

(** [self.power_ups.remove(power_up)] *)
Definition remove_power_up (power_up : ref) : M unit :=
  g <- get_self ;;
  match list_remove power_up (Game_power_ups g) with
  | Some l => modify_self (set_Game_power_ups l)
  | None => raise ValueError
  end.

(** [self.particles.remove(particle)] *)
Definition remove_particle (particle : ref) : M unit :=
  g <- get_self ;;
  match list_remove particle (Game_particles g) with
  | Some l => modify_self (set_Game_particles l)
  | None => raise ValueError
  end.

Definition level_up : M unit :=
  modify_self (fun g => set_Game_level (Game_level g + 1) g) ;;
  reset_game_objects.

Definition game_over : M unit :=
  modify_self (set_Game_state GAME_OVER) ;;
  g <- get_self ;;
  when (Game_high_score g <? Game_score g)
    (modify_self (fun g => set_Game_high_score (Game_score g) g) ;;
     save_high_score).

(** The 20 particles of a collected coin, where the coin is. *)
Definition scatter (coin : ref) : M unit :=
  for_range 20
    (c <- get_coin coin ;;
     append_particle (Py.Int (Coin_x c)) (Coin_y c) (Coin_color c)).

Definition handle_coin_collection (coin : ref) : M unit :=
  (c <- get_coin coin ;; put_coin coin (set_Coin_collected true c)) ;;
  (c <- get_coin coin ;;
   modify_self (fun g => set_Game_score (Game_score g + Coin_value c) g)) ;;
  scatter coin ;;
  call_coin coin Coin.respawn ;;
  g <- get_self ;;
  when (Game_level g - 1 <? Game_score g / 10) level_up.

Definition handle_powerup_collection (power_up : ref) : M unit :=
  (u <- get_power_up power_up ;;
   put_power_up power_up (set_PowerUp_collected true u)) ;;
  u <- get_power_up power_up ;;
  (if String.eqb (PowerUp_type u) "shield" then
     modify_player (set_Player_shield true) ;;
     now <- get_ticks ;;
     modify_player (set_Player_shield_time now)
   else if String.eqb (PowerUp_type u) "speed_boost" then
     modify_player (set_Player_speed_boost true) ;;
     now <- get_ticks ;;
     modify_player (set_Player_speed_boost_time now)
   else if String.eqb (PowerUp_type u) "extra_life" then
     modify_self (fun g => set_Game_lives (Game_lives g + 1) g)
   else ret tt) ;;
  remove_power_up power_up.

(** The 30 particles of a hit, at the centre of the player. *)
Definition burst (color : Color) : M unit :=
  for_range 30
    (p <- Player.this ;;
     append_particle
       (Py.Int (Player_x p + Player_width p / 2))
       (Py.Int (Player_y p + Player_height p / 2))
       color).

Definition handle_obstacle_collision (obstacle : ref) : M unit :=
  p <- Player.this ;;
  if Player_shield p then
    modify_player (set_Player_shield false) ;;
    call_obstacle obstacle Obstacle.respawn ;;
    burst CYAN
  else
    modify_self (fun g => set_Game_lives (Game_lives g - 1) g) ;;
    call_obstacle obstacle Obstacle.respawn ;;
    g <- get_self ;;
    if Game_lives g <=? 0 then game_over
    else burst RED.

Definition check_collisions : M unit :=
  (* Check coin collisions *)
  (g <- get_self ;;
   for_each (Game_coins g) (fun coin =>
     p <- Player.this ;;
     c <- get_coin coin ;;
     when ((Player_x p <? Coin_x c + Coin_radius c)
           && (Coin_x c - Coin_radius c <? Player_x p + Player_width p)
           && Py.lt (Py.Int (Player_y p)) (Py.add (Coin_y c) (Py.Int (Coin_radius c)))
           && Py.gt (Py.Int (Player_y p + Player_height p))
                    (Py.sub (Coin_y c) (Py.Int (Coin_radius c)))
           && negb (Coin_collected c))
       (handle_coin_collection coin))) ;;
  (* Check power-up collisions *)
  (g <- get_self ;;
   for_each (Game_power_ups g) (fun power_up =>
     p <- Player.this ;;
     u <- get_power_up power_up ;;
     when ((Player_x p <? PowerUp_x u + PowerUp_width u)
           && (PowerUp_x u <? Player_x p + Player_width p)
           && (Player_y p <? PowerUp_y u + PowerUp_height u)
           && (PowerUp_y u <? Player_y p + Player_height p)
           && negb (PowerUp_collected u))
       (handle_powerup_collection power_up))) ;;
  (* Check obstacle collisions *)
  (g <- get_self ;;
   for_each (Game_obstacles g) (fun obstacle =>
     p <- Player.this ;;
     o <- get_obstacle obstacle ;;
     when ((Player_x p <? Obstacle_x o + Obstacle_width o)
           && (Obstacle_x o <? Player_x p + Player_width p)
           && Py.lt (Py.Int (Player_y p)) (Py.add (Obstacle_y o) (Py.Int (Obstacle_height o)))
           && Py.gt (Py.Int (Player_y p + Player_height p)) (Obstacle_y o))
       (handle_obstacle_collision obstacle))).

Definition reset_game : M unit :=
  modify_self (set_Game_player Player.__init__) ;;
  modify_self (set_Game_score 0) ;;
  modify_self (set_Game_level 1) ;;
  modify_self (set_Game_lives 1) ;;
  reset_game_objects.

(** The four passes over the entities that [update] makes. *)
Definition update_obstacles : M unit :=
  g <- get_self ;;
  for_each (Game_obstacles g) (fun obstacle =>
    (o <- get_obstacle obstacle ;; put_obstacle obstacle (Obstacle.update o)) ;;
    o <- get_obstacle obstacle ;;
    when (Obstacle.is_off_screen o) (call_obstacle obstacle Obstacle.respawn)).

Definition update_coins : M unit :=
  g <- get_self ;;
  for_each (Game_coins g) (fun coin =>
    (c <- get_coin coin ;; put_coin coin (Coin.update c)) ;;
    c <- get_coin coin ;;
    when (Coin.is_off_screen c) (call_coin coin Coin.respawn)).

Definition update_power_ups : M unit :=
  g <- get_self ;;
  for_each (Game_power_ups g) (fun power_up =>
    (u <- get_power_up power_up ;; put_power_up power_up (PowerUp.update u)) ;;
    u <- get_power_up power_up ;;
    when (PowerUp.is_off_screen u) (remove_power_up power_up)).

Definition update_particles : M unit :=
  g <- get_self ;;
  for_each (Game_particles g) (fun particle =>
    (q <- get_particle particle ;; put_particle particle (Particle.update q)) ;;
    q <- get_particle particle ;;
    when (Particle.is_dead q) (remove_particle particle)).

(** [keys] is what [pygame.key.get_pressed()] returns in this frame. *)
Definition update (keys : Keys) : M unit :=
  g <- get_self ;;
  when (Game_state g =? PLAYING)
    (Player.update keys ;;
     update_obstacles ;;
     update_coins ;;
     update_power_ups ;;
     spawn_power_up ;;
     update_particles ;;
     check_collisions).

(** [events] is what [pygame.event.get()] returns in this frame; the
    result is [false] where the method returns [False]. *)
Fixpoint handle_events (events : list event) : M bool :=
  match events with
  | [] => ret true
  | QUIT :: _ => ret false
  | KEYDOWN k :: rest =>
      g <- get_self ;;
      if Game_state g =? MENU then
        match k with
        | K_1 => modify_self (set_Game_state PLAYING) ;; reset_game ;;
                 handle_events rest
        | K_2 => modify_self (set_Game_state SETTINGS) ;; handle_events rest
        | K_3 => ret false
        | _ => handle_events rest
        end
      else if Game_state g =? GAME_OVER then
        match k with
        | K_RETURN => modify_self (set_Game_state MENU) ;; handle_events rest
        | _ => handle_events rest
        end
      else if Game_state g =? SETTINGS then
        match k with
        | K_1 => modify_self (fun g => set_Game_dark_mode (negb (Game_dark_mode g)) g) ;;
                 handle_events rest
        | K_ESCAPE => modify_self (set_Game_state MENU) ;; handle_events rest
        | _ => handle_events rest
        end
      else handle_events rest
  | other_event :: rest => handle_events rest
  end.

(** [run], over the frames the environment supplies: each frame handles
    the events, updates, (draws,) and goes on while [running]. *)
Fixpoint run (frames : list (list event * Keys)) : M unit :=
  match frames with
  | [] => ret tt
  | (events, keys) :: rest =>
      running <- handle_events events ;;
      update keys ;;
      if running then run rest else ret tt
  end.

End Game.

(** ** A world to start from

    Before the program runs there is no object: the [Game] object is yet to
    be initialised and every cell of the store holds a default that no
    method reads before an object has been constructed there. *)

Definition blank_Player : Player :=
  {| Player_width := 0; Player_height := 0; Player_x := 0; Player_y := 0;
     Player_speed := 0; Player_color := BLACK;
     Player_shield := false; Player_shield_time := 0;
     Player_speed_boost := false; Player_speed_boost_time := 0 |}.

Definition blank_Game : Game :=
  {| Game_state := MENU; Game_player := blank_Player;
     Game_obstacles := []; Game_coins := []; Game_power_ups := [];
     Game_particles := [];
     Game_score := 0; Game_high_score := 0; Game_level := 0; Game_lives := 0;
     Game_dark_mode := false |}.

Definition blank_Heap : Heap :=
  {| Heap_obstacles := fun _ =>
       {| Obstacle_width := 100; Obstacle_height := 20; Obstacle_x := 0;
          Obstacle_y := Py.Int 0; Obstacle_speed := Py.Int 5;
          Obstacle_color := RED |};
     Heap_coins := fun _ =>
       {| Coin_radius := 15; Coin_x := 15; Coin_y := Py.Int 0;
          Coin_speed := Py.Int 4; Coin_color := GOLD;
          Coin_collected := false; Coin_animation_frame := 0;
          Coin_value := 1 |};
     Heap_power_ups := fun _ =>
       {| PowerUp_width := 30; PowerUp_height := 30; PowerUp_x := 0;
          PowerUp_y := 0; PowerUp_speed := 3; PowerUp_type := "shield";
          PowerUp_collected := false; PowerUp_color := CYAN |};
     Heap_particles := fun _ =>
       {| Particle_x := Py.Int 0; Particle_y := Py.Int 0;
          Particle_color := BLACK; Particle_size := Py.Int 0;
          Particle_speed_x := Py.Int 0; Particle_speed_y := Py.Int 0;
          Particle_lifetime := 0 |};
     Heap_next := O |}.

Definition boot (e : Env) : World :=
  {| self := blank_Game; heap := blank_Heap; env := e |}.

(** An environment for examples: draws [(7 n + 3) * 2^49] (so that
    [random()] takes the values [k/16]), a clock that advances by 16 ms at
    each reading, no high-score file. *)
Definition env0 : Env :=
  {| Env_random := fun n => (7 * Z.of_nat n + 3) * 2 ^ 49; Env_random_pos := O;
     Env_ticks := fun n => 16 * Z.of_nat n; Env_ticks_pos := O;
     Env_highscore_txt := None; Env_fault := NoFault |}.

Definition no_unicode : string -> option Z := fun _ => None.

(** The game after [Game()] and the key [1] in the menu. *)
Definition started (e : Env) : World :=
  snd ((Game.__init__ no_unicode ;; Game.handle_events [KEYDOWN K_1]) (boot e)).

(** * Vocabulary of the properties

    The predicates the theorems are stated with, and the worlds their
    examples run in. *)

(** ** Entities for the examples *)

(** An obstacle as [Obstacle()] makes it (width 150, at x = 300), after
    162 updates: its top is at 790, its bottom edge at 810. *)
Definition obstacle_790 : Obstacle :=
  Nat.iter 162 Obstacle.update
    {| Obstacle_width := 150; Obstacle_height := 20; Obstacle_x := 300;
       Obstacle_y := Py.Int (-20); Obstacle_speed := Py.Int 5;
       Obstacle_color := RED |}.

(** A coin after a first respawn (speed 4.2) and 195 updates: its centre is
    just below 804, a float. *)
Definition coin_804 : Coin :=
  Nat.iter 195 Coin.update
    {| Coin_radius := 15; Coin_x := 400; Coin_y := Py.Int (-15);
       Coin_speed := Py.add (Py.Int 4) (Py.Flt (Py.literal 2 10));
       Coin_color := GOLD; Coin_collected := false;
       Coin_animation_frame := 0; Coin_value := 1 |}.

(** ** Text *)

(** The value of a decimal numeral read from the left, as [scan_digits]
    accumulates it. *)
Fixpoint uint_value (u : Decimal.uint) (acc : Z) : Z :=
  match u with
  | Decimal.Nil => acc
  | Decimal.D0 u' => uint_value u' (10 * acc + 0)
  | Decimal.D1 u' => uint_value u' (10 * acc + 1)
  | Decimal.D2 u' => uint_value u' (10 * acc + 2)
  | Decimal.D3 u' => uint_value u' (10 * acc + 3)
  | Decimal.D4 u' => uint_value u' (10 * acc + 4)
  | Decimal.D5 u' => uint_value u' (10 * acc + 5)
  | Decimal.D6 u' => uint_value u' (10 * acc + 6)
  | Decimal.D7 u' => uint_value u' (10 * acc + 7)
  | Decimal.D8 u' => uint_value u' (10 * acc + 8)
  | Decimal.D9 u' => uint_value u' (10 * acc + 9)
  end.

(** ** The player *)

(** What [Player.update] does to the player, for the speed 10 that
    [Player()] sets: the new abscissa and the new flags. *)
Definition stride (p : Player) : Z := if Player_speed_boost p then 15 else 10.

Definition moved (keys : Keys) (p : Player) : Z :=
  let x1 := if K_LEFT keys && (0 <? Player_x p)
            then Player_x p - stride p else Player_x p in
  if K_RIGHT keys && (x1 <? SCREEN_WIDTH - Player_width p)
  then x1 + stride p else x1.

Definition polled (keys : Keys) (now : Z) (p : Player) : Player :=
  {| Player_width := Player_width p; Player_height := Player_height p;
     Player_x := moved keys p; Player_y := Player_y p;
     Player_speed := Player_speed p; Player_color := Player_color p;
     Player_shield :=
       Player_shield p && negb (5000 <? now - Player_shield_time p);
     Player_shield_time := Player_shield_time p;
     Player_speed_boost :=
       Player_speed_boost p && negb (5000 <? now - Player_speed_boost_time p);
     Player_speed_boost_time := Player_speed_boost_time p |}.

(** The next reading of the clock. *)
Definition next_tick (w : World) : Z := Env_ticks (env w) (Env_ticks_pos (env w)).

(** ** Worlds for the examples *)

(** An environment whose clock reads 1000, 6000, 11000, ... ms. *)
Definition env_5000 : Env :=
  {| Env_random := fun n => 7 * Z.of_nat n + 3; Env_random_pos := O;
     Env_ticks := fun n => 1000 + 5000 * Z.of_nat n; Env_ticks_pos := O;
     Env_highscore_txt := None; Env_fault := NoFault |}.

(** An environment where [random()] is always 0.5: respawned coins are
    worth 1. *)
Definition env_half : Env :=
  {| Env_random := fun _ => 2 ^ 52; Env_random_pos := O;
     Env_ticks := fun n => 16 * Z.of_nat n; Env_ticks_pos := O;
     Env_highscore_txt := None; Env_fault := NoFault |}.

(** The world [w] with one more power-up, of the given type, on screen
    and over the player. *)
Definition offer (type : string) (w : World) : World :=
  snd ((r <- fresh ;;
        put_power_up r
          {| PowerUp_width := 30; PowerUp_height := 30;
             PowerUp_x := 380; PowerUp_y := 730; PowerUp_speed := 3;
             PowerUp_type := type; PowerUp_collected := false;
             PowerUp_color := BLACK |} ;;
        modify_self (fun g => set_Game_power_ups (Game_power_ups g ++ [r]) g)) w).

(** [save(N)]: [save_high_score] when the high score of the game is [N]. *)
Definition save (N : Z) : M unit :=
  modify_self (set_Game_high_score N) ;; Game.save_high_score.

(** A disk that refuses to open the file for writing, and a game in play
    there with score 50 and no record yet. *)
Definition env_readonly : Env :=
  {| Env_random := fun n => 7 * Z.of_nat n + 3; Env_random_pos := O;
     Env_ticks := fun n => 16 * Z.of_nat n; Env_ticks_pos := O;
     Env_highscore_txt := None; Env_fault := OpenFault |}.

Definition world_readonly : World :=
  set_self (set_Game_score 50 (self (started env_readonly))) (started env_readonly).

(** ** Random draws and objects *)

(** The next draw of the random source, and the world once it is drawn. *)
Definition draw (w : World) : Z := Env_random (env w) (Env_random_pos (env w)).

Definition advance (w : World) : World :=
  set_env (set_Env_random_pos (S (Env_random_pos (env w))) (env w)) w.

(** A particle made by [Particle(x, y, color)]. *)
Definition made_at (x y : Py.num) (color : Color) (q : Particle) : Prop :=
  Particle_x q = x /\ Particle_y q = y /\ Particle_color q = color.

(** [w'] is [w] after [n] calls of [self.particles.append(Particle(x, y,
    color))]: [n] new objects, listed after the particles there were;
    nothing else differs but the position in the random source. *)
Record appended (n : nat) (x y : Py.num) (color : Color) (w w' : World) : Prop := {
  appended_self :
    self w' = set_Game_particles
                (Game_particles (self w) ++ seq (Heap_next (heap w)) n) (self w);
  appended_next : Heap_next (heap w') = (Heap_next (heap w) + n)%nat;
  appended_obstacles : Heap_obstacles (heap w') = Heap_obstacles (heap w);
  appended_coins : Heap_coins (heap w') = Heap_coins (heap w);
  appended_power_ups : Heap_power_ups (heap w') = Heap_power_ups (heap w);
  appended_old : forall r, (r < Heap_next (heap w))%nat ->
    Heap_particles (heap w') r = Heap_particles (heap w) r;
  appended_new : forall r,
    (Heap_next (heap w) <= r < Heap_next (heap w) + n)%nat ->
    made_at x y color (Heap_particles (heap w') r);
  appended_env :
    env w' = set_Env_random_pos (Env_random_pos (env w) + 4 * n)%nat (env w)
}.

(** [o'] is [o] after [respawn]: a new width, a new abscissa within the
    screen, back above the top edge, faster by 0.3. *)
Definition respawned (o o' : Obstacle) : Prop :=
  100 <= Obstacle_width o' <= 200 /\
  0 <= Obstacle_x o' <= SCREEN_WIDTH - Obstacle_width o' /\
  Obstacle_y o' = Py.Int (- Obstacle_height o) /\
  Obstacle_height o' = Obstacle_height o /\
  Obstacle_speed o' = Py.add (Obstacle_speed o) (Py.Flt (Py.literal 3 10)) /\
  Obstacle_color o' = Obstacle_color o.

(** The centre of the player, where the particles of a hit appear. *)
Definition centre_x (p : Player) : Py.num := Py.Int (Player_x p + Player_width p / 2).

Definition centre_y (p : Player) : Py.num := Py.Int (Player_y p + Player_height p / 2).

(** ** Invariants *)

(** [keeps I m]: from a world where [I] holds, [m] leaves a world where [I]
    holds, whether it returns or raises. *)
Definition keeps (I : World -> Prop) {A : Type} (m : M A) : Prop :=
  forall w : World, I w -> I (snd (m w)).

(** The player as [Player()] makes it, its abscissa a multiple of 5 at most
    10 pixels off the screen. *)
Definition in_reach (p : Player) : Prop :=
  Player_speed p = 10 /\ Player_width p = 50 /\
  Player_x p mod 5 = 0 /\ -10 <= Player_x p <= 760.

Definition player_in_reach (w : World) : Prop := in_reach (Game_player (self w)).

(** A coin as the program makes them: radius 15, worth 1 or 5. *)
Definition coin_ok (c : Coin) : Prop :=
  Coin_radius c = 15 /\ (Coin_value c = 1 \/ Coin_value c = 5).

Definition coins_ok (P : ref -> Prop) (w : World) : Prop :=
  forall r : ref, P r -> coin_ok (Heap_coins (heap w) r).

Definition scoring (P : ref -> Prop) (s l : Z) (w : World) : Prop :=
  coins_ok P w /\ Game_score (self w) = s /\ Game_level (self w) = l.

(** [total m]: [m] never raises. *)
Definition total {A : Type} (m : M A) : Prop :=
  forall w : World, exists a : A, fst (m w) = Ok a.

(** Where the level is what the score makes it. *)
Definition level_matches_score (w : World) : Prop :=
  Game_level (self w) = 1 + Game_score (self w) / 10.

(** The lists only grow at their end. *)
Definition power_ups_extend (L : list ref) (w : World) : Prop :=
  exists s : list ref, Game_power_ups (self w) = L ++ s.

Definition particles_extend (L : list ref) (w : World) : Prop :=
  exists s : list ref, Game_particles (self w) = L ++ s.

Definition level_is (l : Z) (w : World) : Prop := Game_level (self w) = l.

(** [leads I Q m]: from [I], [m] ends in [Q], whether it returns or raises. *)
Definition leads (I Q : World -> Prop) {A : Type} (m : M A) : Prop :=
  forall w : World, I w -> Q (snd (m w)).

(** The operations of a frame of play: the passes of [update] and the
    three outcomes of [check_collisions]. *)
Inductive operation : Type :=
| MovePlayer (keys : Keys)
| MoveObstacles
| MoveCoins
| MovePowerUps
| SpawnPowerUp
| MoveParticles
| CollectCoin (coin : ref)
| CollectPowerUp (power_up : ref)
| HitObstacle (obstacle : ref).

Definition perform (o : operation) : M unit :=
  match o with
  | MovePlayer keys => Player.update keys
  | MoveObstacles => Game.update_obstacles
  | MoveCoins => Game.update_coins
  | MovePowerUps => Game.update_power_ups
  | SpawnPowerUp => Game.spawn_power_up
  | MoveParticles => Game.update_particles
  | CollectCoin coin => Game.handle_coin_collection coin
  | CollectPowerUp power_up => Game.handle_powerup_collection power_up
  | HitObstacle obstacle => Game.handle_obstacle_collision obstacle
  end.

(** A world in play at score 9 with a power-up on screen, after a first
    coin has been collected (its 20 particles are in the air). *)
Definition world_before_level_up : World :=
  let w := snd (Game.handle_coin_collection 8%nat (offer "shield" (started env0))) in
  set_self (set_Game_score 9 (self w)) w.

(** ** Further vocabulary: construction, difficulty, collisions *)

(** An obstacle as [Obstacle()] makes it. *)
Definition new_obstacle (o : Obstacle) : Prop :=
  100 <= Obstacle_width o <= 200 /\
  0 <= Obstacle_x o /\ Obstacle_x o + Obstacle_width o <= SCREEN_WIDTH /\
  Obstacle_y o = Py.Int (-20) /\ Obstacle_height o = 20 /\
  Obstacle_speed o = Py.Int 5 /\ Obstacle_color o = RED.

(** A coin as [Coin()] makes it. *)
Definition new_coin (c : Coin) : Prop :=
  Coin_radius c = 15 /\
  0 <= Coin_x c - Coin_radius c /\ Coin_x c + Coin_radius c <= SCREEN_WIDTH /\
  Coin_y c = Py.Int (-15) /\ Coin_speed c = Py.Int 4 /\
  Coin_color c = GOLD /\ Coin_value c = 1 /\
  Coin_collected c = false /\ Coin_animation_frame c = 0.

(** A power-up as [PowerUp()] makes it. *)
Definition new_power_up (u : PowerUp) : Prop :=
  PowerUp_width u = 30 /\ PowerUp_height u = 30 /\
  0 <= PowerUp_x u /\ PowerUp_x u + PowerUp_width u <= SCREEN_WIDTH /\
  PowerUp_y u = -30 /\ PowerUp_speed u = 3 /\
  In (PowerUp_type u) PowerUp.types /\
  PowerUp.color_of (PowerUp_type u) = Some (PowerUp_color u) /\
  PowerUp_collected u = false.

(** [c'] is the coin [c] after [respawn]: back above the top edge at a new
    abscissa within the screen, faster by 0.2, not collected, and purple
    and worth 5 or gold and worth 1. *)
Definition respawned_coin (c c' : Coin) : Prop :=
  Coin_radius c' = Coin_radius c /\
  Coin_radius c <= Coin_x c' <= SCREEN_WIDTH - Coin_radius c /\
  Coin_y c' = Py.Int (- Coin_radius c) /\
  Coin_speed c' = Py.add (Coin_speed c) (Py.Flt (Py.literal 2 10)) /\
  Coin_collected c' = false /\
  Coin_animation_frame c' = Coin_animation_frame c /\
  ((Coin_value c' = 5 /\ Coin_color c' = PURPLE) \/
   (Coin_value c' = 1 /\ Coin_color c' = GOLD)).

(** The numbers of obstacles and of coins of a level. *)
Definition obstacle_count (level : Z) : nat := Z.to_nat (Z.min (3 + level / 2) 5).
Definition coin_count (level : Z) : nat := Z.to_nat (Z.min (2 + level / 3) 5).

(** ** What holds in every state of a game *)

(** [sound ok I m]: from a world where [I] holds, [m] leaves a world where
    [I] holds, and it raises no exception but those of [ok]. *)
Definition sound (ok : exn -> Prop) (I : World -> Prop) {A : Type} (m : M A) : Prop :=
  forall w : World, I w ->
    I (snd (m w)) /\
    match fst (m w) with
    | Ok _ => True
    | Raise x => ok x
    end.

(** Where any exception may be raised. *)
Definition anything (x : exn) : Prop := True.

(** Every coin of the store is as the program makes them; the environment
    fails as [f] tells; the player is within reach. *)
Definition base (f : fault) (w : World) : Prop :=
  coins_ok (fun _ => True) w /\ Env_fault (env w) = f /\ player_in_reach w.

(** The exceptions of a game: none, unless writing the file fails. *)
Definition saving_fails (f : fault) (x : exn) : Prop := x = OSError /\ f <> NoFault.

(** The score is not negative and the level is what the score makes it. *)
Definition score_ok (w : World) : Prop :=
  coins_ok (fun _ => True) w /\ 0 <= Game_score (self w) /\ level_matches_score w.

(** The lists hold the numbers of objects of the level, and at most two
    power-ups. *)
Definition counts_ok (w : World) : Prop :=
  List.length (Game_obstacles (self w)) = obstacle_count (Game_level (self w)) /\
  List.length (Game_coins (self w)) = coin_count (Game_level (self w)) /\
  (List.length (Game_power_ups (self w)) <= 2)%nat.

(** Who plays has a life left. *)
Definition alive_while_playing (w : World) : Prop :=
  Game_state (self w) = PLAYING -> 1 <= Game_lives (self w).

(** The game as [Game()] has it when it comes to [reset_game_objects],
    with the high score [h] read from the file. *)
Definition before_objects (h : Z) (e : Env) : World :=
  {| self :=
       {| Game_state := MENU; Game_player := Player.__init__;
          Game_obstacles := []; Game_coins := []; Game_power_ups := [];
          Game_particles := [];
          Game_score := 0; Game_high_score := h; Game_level := 1;
          Game_lives := 1; Game_dark_mode := true |};
     heap := blank_Heap; env := e |}.

(** The state that [frames] lead to, from the start of the program. *)
Definition reached (int_of_unicode : string -> option Z) (e : Env)
    (frames : list (list event * Keys)) : World :=
  snd ((Game.__init__ int_of_unicode ;; Game.run frames) (boot e)).

Definition in_play (w : World) : Prop := Game_state (self w) = PLAYING.

(** When the game is over no life is left and the high score is at least
    the score. *)
Definition over_means_recorded (w : World) : Prop :=
  Game_state (self w) = GAME_OVER ->
  Game_lives (self w) <= 0 /\ Game_score (self w) <= Game_high_score (self w).

(** ** Frames for the examples *)

Definition idle : Keys := {| K_LEFT := false; K_RIGHT := false |}.

(** The key [1] in the menu, then [n] frames without any input. *)
Definition play (n : nat) : list (list event * Keys) :=
  ([KEYDOWN K_1], idle) :: repeat ([], idle) n.

Definition is_QUIT (ev : event) : bool :=
  match ev with
  | QUIT => true
  | _ => false
  end.

(** No object is listed twice, and what is listed has been made. *)
Definition listed_once (w : World) : Prop :=
  let g := self w in
  NoDup (Game_obstacles g) /\ NoDup (Game_coins g) /\
  NoDup (Game_power_ups g) /\ NoDup (Game_particles g) /\
  forall r : ref,
    In r (Game_obstacles g) \/ In r (Game_coins g) \/
    In r (Game_power_ups g) \/ In r (Game_particles g) ->
    (r < Heap_next (heap w))%nat.

(** ** The passes of [update] over the obstacles and the coins *)

(** [o'] is [o] after its turn in the pass: fallen by its speed, and
    respawned if that took it off the screen. *)
Definition moved_obstacle (o o' : Obstacle) : Prop :=
  if Obstacle.is_off_screen (Obstacle.update o)
  then respawned (Obstacle.update o) o'
  else o' = Obstacle.update o.

Definition moved_coin (c c' : Coin) : Prop :=
  if Coin.is_off_screen (Coin.update c)
  then respawned_coin (Coin.update c) c'
  else c' = Coin.update c.

(** A coin for which [respawn] finds a place. *)
Definition fits (c : Coin) : Prop := Coin_radius c <= SCREEN_WIDTH - Coin_radius c.

(** Every coin of the store is as the program makes them, and none is
    marked collected. *)
Definition uncollected (w : World) : Prop :=
  forall r : ref,
    coin_ok (Heap_coins (heap w) r) /\ Coin_collected (Heap_coins (heap w) r) = false.

(** * Properties *)

(** ** The model computes what the interpreter computes *)

Example literal_0_3 :
  Py.literal 3 10 = S754_finite false 5404319552844595 (-54).
Proof. vm_compute. reflexivity. Qed.

Example add_5_0_3 :
  Py.add (Py.Int 5) (Py.Flt (Py.literal 3 10)) = Py.Flt (S754_finite false 5967269506265907 (-50)).
Proof. vm_compute. reflexivity. Qed.

Example mul_10_1_5 :
  Py.trunc (Py.mul (Py.Int 10) (Py.Flt (Py.literal 3 2))) = Some 15.
Proof. vm_compute. reflexivity. Qed.

Example int_of_ascii_ok :
  map int_of_ascii [" 12"; "+1_0"; "007"; "-0"; "12"]%string
  = [Some 12; Some 10; Some 7; Some 0; Some 12].
Proof. vm_compute. reflexivity. Qed.

Example int_of_ascii_ko :
  map int_of_ascii ["1__0"; "_1"; "1_"; "- 5"; ""; "+"; " "; "1 2"; "0x10"; "12.5"]%string
  = [None; None; None; None; None; None; None; None; None; None].
Proof. vm_compute. reflexivity. Qed.

Example started_state :
  let g := self (started env0) in
  (Game_state g, Game_score g, Game_level g, Game_lives g, Game_high_score g,
   Game_obstacles g, Game_coins g, Player_x (Game_player g), Player_y (Game_player g))
  = (PLAYING, 0, 1, 1, 0, [5; 6; 7]%nat, [8; 9]%nat, 375, 740).
Proof. vm_compute. reflexivity. Qed.

(** Ten coins worth 1 collected one after the other from score 0: score
    10, level 2, and 4 obstacles and 2 coins as for level 2; after nine of
    them the level is still 1. *)
Example ten_coins :
  let w9 := snd (for_each (repeat 8%nat 9) Game.handle_coin_collection (started env_half)) in
  let w10 := snd (Game.handle_coin_collection 8%nat w9) in
  (Game_score (self w9), Game_level (self w9)) = (9, 1) /\
  (Game_score (self w10), Game_level (self w10),
   List.length (Game_obstacles (self w10)), List.length (Game_coins (self w10)))
  = (10, 2, 4%nat, 2%nat).
Proof. vm_compute. split; reflexivity. Qed.

(** One life, no shield, score 50 and no record: the hit ends the game and
    the file holds [50], which the next load reads. *)
Example last_hit_saves_record :
  let w0 := started env_half in
  let w := snd (Game.handle_obstacle_collision 5%nat
                  (set_self (set_Game_score 50 (self w0)) w0)) in
  (Game_lives (self w), Game_state (self w), Game_high_score (self w),
   Env_highscore_txt (env w), fst (Game.load_high_score no_unicode w))
  = (0, GAME_OVER, 50, Some "50"%string, Ok 50).
Proof. vm_compute. reflexivity. Qed.

(** ** Numbers *)

Lemma gt_Int_exact (a : Py.num) (z n k : Z) :
  Py.exact a = Some (n, k) ->
  Py.gt a (Py.Int z) = true <-> z * 2 ^ k < n.
Proof.
  unfold Py.gt, Py.lt.
  destruct a as [y | f]; simpl.
  - intros [= <- <-]. rewrite Z.mul_1_r.
    destruct (z ?= y) eqn:E.
    + apply Z.compare_eq in E. split; [discriminate | lia].
    + apply Z.compare_lt_iff in E. tauto.
    + apply Z.compare_gt_iff in E. split; [discriminate | lia].
  - destruct f as [s | s | | s m e]; simpl; try discriminate.
    + intros [= <- <-]. rewrite Z.mul_1_r.
      destruct (z ?= 0) eqn:E.
      * apply Z.compare_eq in E. split; [discriminate | lia].
      * apply Z.compare_lt_iff in E. tauto.
      * apply Z.compare_gt_iff in E. split; [discriminate | lia].
    + destruct (0 <=? e).
      * intros [= <- <-]. rewrite Z.mul_1_r.
        destruct (z ?= cond_Zopp s (Z.pos m) * 2 ^ e) eqn:E.
        -- apply Z.compare_eq in E. split; [discriminate | lia].
        -- apply Z.compare_lt_iff in E. tauto.
        -- apply Z.compare_gt_iff in E. split; [discriminate | lia].
      * intros [= <- <-].
        destruct (z * 2 ^ (- e) ?= cond_Zopp s (Z.pos m)) eqn:E.
        -- apply Z.compare_eq in E. split; [discriminate | lia].
        -- apply Z.compare_lt_iff in E. tauto.
        -- apply Z.compare_gt_iff in E. split; [discriminate | lia].
Qed.

(** ** Leaving the screen (C6) *)

(** C6, as stated, fails: the bottom edge of this obstacle has passed the
    bottom of the screen ([y + height > SCREEN_HEIGHT]) and
    [is_off_screen] is false. *)
Lemma is_off_screen_bottom_edge_counterexample :
  Obstacle_y obstacle_790 = Py.Int 790 /\
  SCREEN_HEIGHT < 790 + Obstacle_height obstacle_790 /\
  Obstacle.is_off_screen obstacle_790 = false.
Proof. vm_compute. repeat split; reflexivity. Qed.

(** C6, amended: [is_off_screen] is true exactly when the [y] coordinate
    itself (the top edge of an obstacle or power-up, the centre of a coin)
    is greater than [SCREEN_HEIGHT]; [y] is taken at its exact value
    [n / 2^k]. *)
Theorem is_off_screen_iff_y_beyond_bottom :
  (forall (o : Obstacle) (n k : Z),
      Py.exact (Obstacle_y o) = Some (n, k) ->
      Obstacle.is_off_screen o = true <-> SCREEN_HEIGHT * 2 ^ k < n) /\
  (forall (c : Coin) (n k : Z),
      Py.exact (Coin_y c) = Some (n, k) ->
      Coin.is_off_screen c = true <-> SCREEN_HEIGHT * 2 ^ k < n) /\
  (forall u : PowerUp,
      PowerUp.is_off_screen u = true <-> SCREEN_HEIGHT < PowerUp_y u).
Proof.
  split; [| split].
  - intros o n k H. unfold Obstacle.is_off_screen. now apply gt_Int_exact.
  - intros c n k H. unfold Coin.is_off_screen. now apply gt_Int_exact.
  - intros u. unfold PowerUp.is_off_screen. apply Z.ltb_lt.
Qed.

Lemma is_off_screen_iff_y_beyond_bottom_witness :
  (Obstacle.is_off_screen obstacle_790 = true <-> SCREEN_HEIGHT * 2 ^ 0 < 790) /\
  (Coin.is_off_screen coin_804 = true <-> SCREEN_HEIGHT * 2 ^ 43 < 7072058789855251).
Proof.
  split.
  - apply (proj1 is_off_screen_iff_y_beyond_bottom obstacle_790 790 0).
    vm_compute. reflexivity.
  - apply (proj1 (proj2 is_off_screen_iff_y_beyond_bottom) coin_804 7072058789855251 43).
    vm_compute. reflexivity.
Defined.

(** ** Text: [int(str(n))] is [n] *)

Lemma uint_value_acc (u : Decimal.uint) :
  forall p : positive, Z.pos (Pos.of_uint_acc u p) = uint_value u (Z.pos p).
Proof.
  induction u; intros p; cbn [Pos.of_uint_acc uint_value];
    try reflexivity; rewrite IHu; f_equal; lia.
Qed.

Lemma uint_value_of_uint (u : Decimal.uint) :
  Z.of_N (Pos.of_uint u) = uint_value u 0.
Proof.
  induction u; cbn [Pos.of_uint uint_value]; try reflexivity;
    try (rewrite IHu; reflexivity);
    cbn [Z.of_N]; rewrite uint_value_acc; reflexivity.
Qed.

Lemma scan_digits_numeral (u : Decimal.uint) :
  forall (seen : bool) (acc : Z),
    u <> Decimal.Nil \/ seen = true ->
    scan_digits (NilEmpty.string_of_uint u) false seen acc
    = Some (uint_value u acc, EmptyString).
Proof.
  induction u; intros seen acc H;
    try (cbn [NilEmpty.string_of_uint scan_digits uint_value];
         change (digit_value _) with (Some 0) || change (digit_value _) with (Some 1)
         || change (digit_value _) with (Some 2) || change (digit_value _) with (Some 3)
         || change (digit_value _) with (Some 4) || change (digit_value _) with (Some 5)
         || change (digit_value _) with (Some 6) || change (digit_value _) with (Some 7)
         || change (digit_value _) with (Some 8) || change (digit_value _) with (Some 9);
         apply IHu; now right).
  destruct H as [H | ->]; [congruence | reflexivity].
Qed.

Lemma is_ascii_numeral (u : Decimal.uint) :
  is_ascii (NilEmpty.string_of_uint u) = true.
Proof.
  induction u; cbn [NilEmpty.string_of_uint is_ascii]; try reflexivity;
    rewrite IHu; reflexivity.
Qed.

Lemma int_of_ascii_numeral (u : Decimal.uint) :
  u <> Decimal.Nil ->
  int_of_ascii (NilEmpty.string_of_uint u) = Some (uint_value u 0) /\
  int_of_ascii (String "-" (NilEmpty.string_of_uint u)) = Some (- uint_value u 0).
Proof.
  intros H.
  pose proof (scan_digits_numeral u false 0 (or_introl H)) as S.
  destruct u; try congruence; clear H;
    unfold int_of_ascii;
    cbn [NilEmpty.string_of_uint skip_spaces] in *;
    (split; [
       match goal with
       | |- context [is_space ?c] => change (is_space c) with false
       end; cbv iota;
       match goal with
       | |- context [code ?c =? 43] => change (code c =? 43) with false
       end;
       match goal with
       | |- context [code ?c =? 45] => change (code c =? 45) with false
       end;
       cbv iota beta;
       match goal with
       | |- context [is_underscore ?c] => change (is_underscore c) with false
       end; cbv iota; rewrite S; reflexivity
     | change (is_space "-") with false; cbv iota;
       change (code "-" =? 43) with false;
       change (code "-" =? 45) with true; cbv iota beta;
       match goal with
       | |- context [is_underscore ?c] => change (is_underscore c) with false
       end; cbv iota; rewrite S; reflexivity ]).
Qed.

Lemma int_of_text_str (int_of_unicode : string -> option Z) (n : Z) :
  int_of_text int_of_unicode (str n) = Some n.
Proof.
  unfold int_of_text, str.
  destruct n as [| p | p]; cbn [Z.to_int NilZero.string_of_int].
  - reflexivity.
  - pose proof (DecimalPos.Unsigned.to_uint_nonnil p) as Hn.
    unfold NilZero.string_of_uint.
    destruct (Pos.to_uint p) eqn:E; try congruence;
      rewrite <- E in *; rewrite is_ascii_numeral;
      rewrite (proj1 (int_of_ascii_numeral _ Hn)), <- uint_value_of_uint,
        DecimalPos.Unsigned.of_to; reflexivity.
  - pose proof (DecimalPos.Unsigned.to_uint_nonnil p) as Hn.
    unfold NilZero.string_of_uint.
    destruct (Pos.to_uint p) eqn:E; try congruence;
      rewrite <- E in *; cbn [is_ascii]; rewrite is_ascii_numeral;
      change (code "-" <? 128) with true; cbn [andb];
      rewrite (proj2 (int_of_ascii_numeral _ Hn)), <- uint_value_of_uint,
        DecimalPos.Unsigned.of_to; reflexivity.
Qed.

(** ** Running programs

    The numeric operations stay folded while programs are simplified. *)

Arguments Py.add : simpl never.
Arguments Py.sub : simpl never.
Arguments Py.mul : simpl never.
Arguments Py.lt : simpl never.
Arguments Py.gt : simpl never.
Arguments Py.max : simpl never.
Arguments Py.literal : simpl never.
Arguments Py.trunc : simpl never.
Arguments Z.mul : simpl never.
Arguments Z.add : simpl never.
Arguments Z.sub : simpl never.
Arguments Z.div : simpl never.
Arguments Z.modulo : simpl never.
Arguments Z.pow : simpl never.
Arguments Z.ltb : simpl never.
Arguments Z.leb : simpl never.
Arguments Z.eqb : simpl never.
Arguments Z.min : simpl never.
Arguments binary_normalize : simpl never.

(** The operations of the monad unfold as soon as they are applied to a
    world. *)
Arguments bind {A B} m k _ /.
Arguments ret {A} a _ /.
Arguments gets {A} f _ /.
Arguments modify f _ /.
Arguments raise {A} e _ /.
Arguments when b m _ /.
Arguments get_self _ /.
Arguments modify_self f _ /.
Arguments modify_player f _ /.
Arguments Player.this _ /.
Arguments get_obstacle r _ /.
Arguments get_coin r _ /.
Arguments get_power_up r _ /.
Arguments get_particle r _ /.
Arguments put_obstacle r o _ /.
Arguments put_coin r c _ /.
Arguments put_power_up r u _ /.
Arguments put_particle r q _ /.
Arguments fresh _ /.
Arguments next_random _ /.
Arguments get_ticks _ /.
Arguments int_of_num : simpl never.

(** Symbolic execution of a straight-line program: simplify, and split on
    the conditions met on the way. *)
Ltac split_if :=
  match goal with
  | |- context [match ?b with true => _ | false => _ end] => destruct b eqn:?
  end.

(** The two steps the player can make: [int(10 * 1)] and [int(10 * 1.5)]. *)
Lemma step_plain : int_of_num (Py.mul (Py.Int 10) (Py.Int 1)) = ret 10.
Proof. reflexivity. Qed.

Lemma step_boosted : int_of_num (Py.mul (Py.Int 10) (Py.Flt (Py.literal 3 2))) = ret 15.
Proof. vm_compute. reflexivity. Qed.

(** ** The player: moves and effects *)

Lemma Player_update_run (keys : Keys) (w : World) :
  Player_speed (Game_player (self w)) = 10 ->
  Player.update keys w =
    (Ok tt,
     {| self := set_Game_player (polled keys (next_tick w) (Game_player (self w))) (self w);
        heap := heap w;
        env := set_Env_ticks_pos (S (Env_ticks_pos (env w))) (env w) |}).
Proof.
  intros Hs. unfold Player.update, polled, moved, stride, next_tick.
  destruct w as [g h e]. destruct g as [st p obs cs pus pas sc hs lv li dm].
  destruct p as [pw ph px py psp pc sh sht sb sbt]. simpl in Hs. subst psp.
  destruct keys as [kl kr].
  destruct sh, sb, kl, kr.
  all: repeat first
         [ progress cbn | rewrite step_plain | rewrite step_boosted | split_if ].
  all: reflexivity.
Qed.

Lemma window_cons (f : nat -> Z) (a n : nat) (t : Z) :
  (f (a + 0)%nat - t <= 5000 /\
   forall i, (i < n)%nat -> f (S (a + i)) - t <= 5000) <->
  (forall i, (i < S n)%nat -> f (a + i)%nat - t <= 5000).
Proof.
  split.
  - intros [H0 H] [| i] Hi; [exact H0 |].
    rewrite <- plus_n_Sm. apply H. lia.
  - intros H. split.
    + apply H. lia.
    + intros i Hi. rewrite plus_n_Sm. apply H. lia.
Qed.

(** A sequence of polls: [Player.update] once per frame. *)
Lemma polls_run (l : list Keys) :
  forall w : World,
    Player_speed (Game_player (self w)) = 10 ->
    let p := Game_player (self w) in
    let tick (i : nat) := Env_ticks (env w) (Env_ticks_pos (env w) + i)%nat in
    let w' := snd (for_each l Player.update w) in
    let p' := Game_player (self w') in
    fst (for_each l Player.update w) = Ok tt /\
    Player_speed p' = 10 /\
    Player_shield_time p' = Player_shield_time p /\
    Player_speed_boost_time p' = Player_speed_boost_time p /\
    (Player_shield p' = true <->
       Player_shield p = true /\
       forall i, (i < List.length l)%nat -> tick i - Player_shield_time p <= 5000) /\
    (Player_speed_boost p' = true <->
       Player_speed_boost p = true /\
       forall i, (i < List.length l)%nat -> tick i - Player_speed_boost_time p <= 5000).
Proof.
  induction l as [| keys l IH]; intros w Hs.
  - cbn. repeat split; try tauto; intros; try lia; tauto.
  - pose (w1 := {| self := set_Game_player
                             (polled keys (next_tick w) (Game_player (self w)))
                             (self w);
                   heap := heap w;
                   env := set_Env_ticks_pos (S (Env_ticks_pos (env w))) (env w) |}).
    assert (E : for_each (keys :: l) Player.update w = for_each l Player.update w1).
    { cbn [for_each]. unfold bind. now rewrite (Player_update_run keys w Hs). }
    cbv zeta. rewrite E.
    specialize (IH w1 Hs). cbn in IH. cbn [List.length].
    destruct IH as (R & S1 & T1 & T2 & Sh & Sb).
    unfold next_tick in *.
    split; [exact R |]. split; [exact S1 |].
    split; [exact T1 |]. split; [exact T2 |].
    split.
    + rewrite Sh, andb_true_iff, negb_true_iff, Z.ltb_ge.
      rewrite <- (window_cons (Env_ticks (env w))), Nat.add_0_r. tauto.
    + rewrite Sb, andb_true_iff, negb_true_iff, Z.ltb_ge.
      rewrite <- (window_cons (Env_ticks (env w))), Nat.add_0_r. tauto.
Qed.

(** ** Expiry of the effects (C3) *)

(** C3, as stated, fails: the shield collected at 1000 ms is still there
    after the update polled at 1000 + 5000 ms. *)
Lemma shield_not_cleared_at_5000_counterexample :
  let w0 := offer "shield" (started env_5000) in
  let w1 := snd (Game.check_collisions w0) in
  let w2 := snd (Player.update {| K_LEFT := false; K_RIGHT := false |} w1) in
  Player_shield (Game_player (self w0)) = false /\
  Player_shield (Game_player (self w1)) = true /\
  Player_shield_time (Game_player (self w1)) = 1000 /\
  next_tick w1 = 1000 + 5000 /\
  Player_shield (Game_player (self w2)) = true.
Proof. vm_compute. repeat split; reflexivity. Qed.

(** C3, amended: through any sequence of polled updates an effect stays
    exactly as long as every polled time [now] has
    [now - activatedAt <= 5000]; the first update polled at a time with
    [now - activatedAt > 5000] clears it. *)
Theorem effect_active_iff_polled_within_5000 (l : list Keys) (w : World) :
  Player_speed (Game_player (self w)) = 10 ->
  let p := Game_player (self w) in
  let now (i : nat) := Env_ticks (env w) (Env_ticks_pos (env w) + i)%nat in
  let p' := Game_player (self (snd (for_each l Player.update w))) in
  (Player_shield p' = true <->
     Player_shield p = true /\
     forall i, (i < List.length l)%nat -> now i - Player_shield_time p <= 5000) /\
  (Player_speed_boost p' = true <->
     Player_speed_boost p = true /\
     forall i, (i < List.length l)%nat -> now i - Player_speed_boost_time p <= 5000).
Proof.
  intros Hs. apply (polls_run l w Hs).
Qed.

Lemma effect_active_iff_polled_within_5000_witness :
  let w := snd (Game.check_collisions (offer "shield" (started env_5000))) in
  let l := [ {| K_LEFT := true; K_RIGHT := false |};
             {| K_LEFT := false; K_RIGHT := true |} ] in
  Player_shield (Game_player (self (snd (for_each l Player.update w)))) = true <->
  Player_shield (Game_player (self w)) = true /\
  forall i, (i < List.length l)%nat ->
    Env_ticks (env w) (Env_ticks_pos (env w) + i)%nat
    - Player_shield_time (Game_player (self w)) <= 5000.
Proof.
  intros w l.
  apply (proj1 (effect_active_iff_polled_within_5000 l w eq_refl)).
Defined.

(** ** The high-score file (C7, C8) *)

Arguments try_except {A} m caught h _ /.
Arguments read_highscore_txt _ /.
Arguments write_highscore_txt s _ /.

(** C7: for every [N >= 0], loading right after saving [N] (the write
    succeeding) returns [N]; loading when there is no file, or when the
    content of the file is not an integer for [int], returns 0 and does not
    raise. *)
Theorem load_after_save_and_load_default (int_of_unicode : string -> option Z) :
  (forall (N : Z) (w : World),
      0 <= N ->
      Env_fault (env w) = NoFault ->
      fst (save N w) = Ok tt /\
      fst (Game.load_high_score int_of_unicode (snd (save N w))) = Ok N) /\
  (forall w : World,
      Env_highscore_txt (env w) = None ->
      Game.load_high_score int_of_unicode w = (Ok 0, w)) /\
  (forall (w : World) (s : string),
      Env_highscore_txt (env w) = Some s ->
      int_of_text int_of_unicode s = None ->
      Game.load_high_score int_of_unicode w = (Ok 0, w)).
Proof.
  split; [| split].
  - intros N w _ Hf. unfold save, Game.save_high_score, Game.load_high_score.
    cbn. rewrite Hf. cbn. rewrite int_of_text_str. split; reflexivity.
  - intros w H. unfold Game.load_high_score. cbn. rewrite H. reflexivity.
  - intros w s H Hs. unfold Game.load_high_score. cbn. rewrite H. cbn.
    rewrite Hs. reflexivity.
Qed.

Lemma load_after_save_and_load_default_witness :
  fst (Game.load_high_score no_unicode (snd (save 50 (started env0)))) = Ok 50 /\
  Game.load_high_score no_unicode (started env0) = (Ok 0, started env0) /\
  (let w := snd (write_highscore_txt "12.5" (started env0)) in
   Game.load_high_score no_unicode w = (Ok 0, w)).
Proof.
  split; [| split].
  - apply (proj1 (load_after_save_and_load_default no_unicode) 50 (started env0));
      [lia | reflexivity].
  - apply (proj1 (proj2 (load_after_save_and_load_default no_unicode)) (started env0)).
    reflexivity.
  - apply (proj2 (proj2 (load_after_save_and_load_default no_unicode))
             (snd (write_highscore_txt "12.5" (started env0))) "12.5"%string);
      reflexivity.
Defined.

(** C8, as stated, fails: the write fails and the [OSError] leaves
    [game_over], then [handle_obstacle_collision] (obstacle 5 of the game,
    no shield, one life left). *)
Lemma game_over_write_failure_counterexample :
  Env_fault (env world_readonly) = OpenFault /\
  fst (Game.game_over world_readonly) = Raise OSError /\
  Game_state (self (snd (Game.game_over world_readonly))) = GAME_OVER /\
  fst (Game.handle_obstacle_collision 5%nat world_readonly) = Raise OSError.
Proof. vm_compute. repeat split; reflexivity. Qed.

(** C8, amended: [game_over] always leaves the mode [GAME_OVER] (it is set
    first); when the score is a new record it is the high score afterward;
    and the handler raises [OSError], uncaught, exactly when the score is a
    new record and the write fails. *)
Theorem game_over_sets_mode_and_propagates_write_error (w : World) :
  let r := Game.game_over w in
  let record := Game_high_score (self w) <? Game_score (self w) in
  Game_state (self (snd r)) = GAME_OVER /\
  (record = true -> Game_high_score (self (snd r)) = Game_score (self w)) /\
  (fst r = Raise OSError <-> record = true /\ Env_fault (env w) <> NoFault) /\
  (fst r = Ok tt <-> record = false \/ Env_fault (env w) = NoFault).
Proof.
  unfold Game.game_over, Game.save_high_score. cbn.
  destruct (Game_high_score (self w) <? Game_score (self w)); cbn.
  - destruct (Env_fault (env w)); cbn;
      repeat split; try congruence; try tauto;
      try (intros [? | ?]; congruence); intros [_ ?]; congruence.
  - repeat split; try congruence; try tauto. intros [? _]; congruence.
Qed.

Lemma game_over_sets_mode_and_propagates_write_error_witness :
  Game_high_score (self (snd (Game.game_over world_readonly))) = 50.
Proof.
  apply (proj1 (proj2 (game_over_sets_mode_and_propagates_write_error world_readonly))).
  reflexivity.
Defined.

(** ** Random draws and fresh objects *)

Lemma randint_run (a b : Z) (w : World) :
  a <= b ->
  randint a b w = (Ok (a + draw w mod (b - a + 1)), advance w).
Proof.
  intros H. unfold randint. apply Z.ltb_ge in H. rewrite H. reflexivity.
Qed.

Lemma randint_range (a b r : Z) : a <= b -> a <= a + r mod (b - a + 1) <= b.
Proof.
  intros H. pose proof (Z.mod_pos_bound r (b - a + 1)). lia.
Qed.

Lemma upd_same {A : Type} (r : ref) (v : A) (h : ref -> A) : upd r v h r = v.
Proof. unfold upd. now rewrite Nat.eqb_refl. Qed.

Lemma upd_other {A : Type} (r r' : ref) (v : A) (h : ref -> A) :
  r' <> r -> upd r v h r' = h r'.
Proof. unfold upd. intros H. apply Nat.eqb_neq in H. now rewrite H. Qed.

Lemma set_Game_particles_same (g : Game) :
  set_Game_particles (Game_particles g) g = g.
Proof. now destruct g. Qed.

Lemma set_Env_random_pos_same (e : Env) :
  set_Env_random_pos (Env_random_pos e) e = e.
Proof. now destruct e. Qed.

Lemma appended_refl (x y : Py.num) (color : Color) (w : World) :
  appended 0 x y color w w.
Proof.
  constructor; try reflexivity.
  - cbn [seq]. rewrite app_nil_r. symmetry. apply set_Game_particles_same.
  - lia.
  - lia.
  - rewrite Nat.mul_0_r, Nat.add_0_r. symmetry. apply set_Env_random_pos_same.
Qed.

Lemma appended_trans (n m : nat) (x y : Py.num) (color : Color) (w w1 w2 : World) :
  appended n x y color w w1 -> appended m x y color w1 w2 ->
  appended (n + m) x y color w w2.
Proof.
  intros [S1 N1 O1 C1 U1 Old1 New1 E1] [S2 N2 O2 C2 U2 Old2 New2 E2].
  constructor.
  - rewrite S2, S1, N1. cbn. rewrite seq_app, app_assoc. reflexivity.
  - lia.
  - congruence.
  - congruence.
  - congruence.
  - intros r Hr. rewrite Old2 by lia. now apply Old1.
  - intros r Hr. destruct (Nat.lt_ge_cases r (Heap_next (heap w) + n)) as [L | G].
    + rewrite Old2 by lia. apply New1. lia.
    + apply New2. lia.
  - rewrite E2, E1. unfold set_Env_random_pos. cbn. f_equal. lia.
Qed.

Lemma append_particle_run (x y : Py.num) (color : Color) (w : World) :
  fst (Game.append_particle x y color w) = Ok tt /\
  appended 1 x y color w (snd (Game.append_particle x y color w)).
Proof.
  unfold Game.append_particle, Particle.__init__, uniform, random.
  cbn. rewrite !randint_run by lia. cbn.
  split; [reflexivity |].
  constructor; cbn; try reflexivity.
  - lia.
  - intros r Hr. apply upd_other. lia.
  - intros r Hr. assert (r = Heap_next (heap w)) as -> by lia.
    rewrite upd_same. repeat split.
  - unfold advance, set_Env_random_pos. cbn. f_equal. lia.
Qed.

(** The loop [for _ in range(n): self.particles.append(Particle(...))],
    where the arguments are read at each turn from an object [g] that the
    loop does not touch. *)
Lemma for_range_append_run {B : Type} (g : World -> B)
    (fx fy : B -> Py.num) (fc : B -> Color) (n : nat) :
  (forall x y c w w', appended 1 x y c w w' -> g w' = g w) ->
  forall w : World,
    fst (for_range n
           (a <- gets g ;; Game.append_particle (fx a) (fy a) (fc a)) w) = Ok tt /\
    appended n (fx (g w)) (fy (g w)) (fc (g w))
      w (snd (for_range n
                (a <- gets g ;; Game.append_particle (fx a) (fy a) (fc a)) w)).
Proof.
  intros Hg. induction n as [| n IH]; intros w.
  - cbn. split; [reflexivity | apply appended_refl].
  - cbn [for_range].
    set (body := a <- gets g ;; Game.append_particle (fx a) (fy a) (fc a)) in *.
    assert (B0 : body w = Game.append_particle (fx (g w)) (fy (g w)) (fc (g w)) w)
      by reflexivity.
    unfold bind at 1 2. rewrite B0.
    destruct (append_particle_run (fx (g w)) (fy (g w)) (fc (g w)) w) as [R A].
    destruct (Game.append_particle _ _ _ w) as [r w1].
    cbn [fst snd] in R, A. subst r.
    destruct (IH w1) as [R2 A2].
    split; [exact R2 |].
    change (S n) with (1 + n)%nat.
    apply (appended_trans 1 n _ _ _ w w1); [exact A |].
    rewrite <- (Hg _ _ _ _ _ A). exact A2.
Qed.

(** ** Hitting an obstacle (C2, C4) *)

(** Loops and methods are run by their lemmas, not by simplification. *)
Arguments seq : simpl never.
Arguments for_each : simpl never.
Arguments for_range : simpl never.
Arguments list_of_range : simpl never.
Arguments randint : simpl never.
Arguments random : simpl never.
Arguments uniform : simpl never.
Arguments choice : simpl never.
Arguments call_obstacle : simpl never.
Arguments call_coin : simpl never.
Arguments Obstacle.respawn : simpl never.
Arguments Obstacle.__init__ : simpl never.
Arguments Coin.respawn : simpl never.
Arguments Coin.__init__ : simpl never.
Arguments PowerUp.__init__ : simpl never.
Arguments Particle.__init__ : simpl never.
Arguments Player.update : simpl never.
Arguments Game.append_particle : simpl never.
Arguments Game.burst : simpl never.
Arguments Game.scatter : simpl never.
Arguments Game.save_high_score : simpl never.
Arguments Game.game_over : simpl never.
Arguments Game.reset_game_objects : simpl never.
Arguments Game.level_up : simpl never.
Arguments Game.remove_power_up : simpl never.
Arguments Game.remove_particle : simpl never.
Arguments Game.handle_coin_collection : simpl never.
Arguments Game.handle_powerup_collection : simpl never.
Arguments Game.handle_obstacle_collision : simpl never.

Lemma Obstacle_respawn_run (o : Obstacle) (w : World) :
  exists o' : Obstacle,
    Obstacle.respawn o w = (Ok o', advance (advance w)) /\ respawned o o'.
Proof.
  unfold Obstacle.respawn, Obstacle.reset_position.
  cbn. rewrite randint_run by lia. cbn.
  pose proof (randint_range 100 200 (draw w) ltac:(lia)) as Hw.
  rewrite randint_run by (unfold SCREEN_WIDTH; lia). cbn.
  eexists. split; [reflexivity |].
  unfold respawned. cbn.
  pose proof (randint_range 0 (SCREEN_WIDTH - (100 + draw w mod (200 - 100 + 1)))
                (draw (advance w)) ltac:(unfold SCREEN_WIDTH; lia)) as Hx.
  unfold draw, advance in *. cbn in *.
  repeat split; try lia; try reflexivity.
Qed.

Lemma call_obstacle_respawn_run (r : ref) (w : World) :
  exists o' : Obstacle,
    respawned (Heap_obstacles (heap w) r) o' /\
    call_obstacle r Obstacle.respawn w =
      (Ok tt,
       set_heap (set_Heap_obstacles (upd r o' (Heap_obstacles (heap w))) (heap w))
         (advance (advance w))).
Proof.
  destruct (Obstacle_respawn_run (Heap_obstacles (heap w) r) w) as (o' & E & R).
  exists o'. split; [exact R |].
  unfold call_obstacle. cbn. rewrite E. reflexivity.
Qed.

Lemma burst_run (color : Color) (w : World) :
  fst (Game.burst color w) = Ok tt /\
  appended 30 (centre_x (Game_player (self w))) (centre_y (Game_player (self w)))
    color w (snd (Game.burst color w)).
Proof.
  apply (for_range_append_run (fun w => Game_player (self w))
           centre_x centre_y (fun _ => color) 30).
  intros x y c w0 w' A. rewrite (appended_self _ _ _ _ _ _ A). reflexivity.
Qed.

(** C4: a collision under an active shield clears the shield, costs no
    life, respawns the obstacle and appends 30 cyan particles made at the
    centre of the player. *)
Theorem shield_absorbs_one_hit (obstacle : ref) (w : World) :
  Player_shield (Game_player (self w)) = true ->
  let p := Game_player (self w) in
  let w' := snd (Game.handle_obstacle_collision obstacle w) in
  fst (Game.handle_obstacle_collision obstacle w) = Ok tt /\
  Player_shield (Game_player (self w')) = false /\
  Game_lives (self w') = Game_lives (self w) /\
  Game_state (self w') = Game_state (self w) /\
  respawned (Heap_obstacles (heap w) obstacle) (Heap_obstacles (heap w') obstacle) /\
  Game_particles (self w') = Game_particles (self w) ++ seq (Heap_next (heap w)) 30 /\
  forall q : ref, In q (seq (Heap_next (heap w)) 30) ->
    made_at (Py.Int (Player_x p + Player_width p / 2))
            (Py.Int (Player_y p + Player_height p / 2))
            CYAN (Heap_particles (heap w') q).
Proof.
  intros Hs p. unfold Game.handle_obstacle_collision.
  cbn. rewrite Hs. cbn.
  match goal with |- context [call_obstacle obstacle Obstacle.respawn ?w1] =>
    destruct (call_obstacle_respawn_run obstacle w1) as (o' & R & E); rewrite E
  end.
  cbn in R |- *.
  match goal with |- context [Game.burst CYAN ?w2] =>
    destruct (burst_run CYAN w2) as [Rb A];
    destruct (Game.burst CYAN w2) as [rb w3]
  end.
  cbn [fst snd] in *. destruct A as [S N O C U Old New En]. cbn in *.
  split; [exact Rb |].
  rewrite S. cbn.
  split; [reflexivity |]. split; [reflexivity |]. split; [reflexivity |].
  split; [rewrite O, upd_same; exact R |].
  split; [reflexivity |].
  intros q Hq. apply in_seq in Hq. apply New. lia.
Qed.

Lemma shield_absorbs_one_hit_witness :
  let w := snd (Game.check_collisions (offer "shield" (started env_5000))) in
  let w' := snd (Game.handle_obstacle_collision 5%nat w) in
  Player_shield (Game_player (self w')) = false /\
  Game_lives (self w') = Game_lives (self w) /\
  Game_particles (self w') = Game_particles (self w) ++ seq (Heap_next (heap w)) 30.
Proof.
  intros w w'.
  destruct (shield_absorbs_one_hit 5%nat w eq_refl) as (_ & A & B & _ & _ & C & _).
  split; [exact A | split; [exact B | exact C]].
Defined.

(** What [game_over] leaves untouched. *)
Lemma game_over_frame (w : World) :
  let w' := snd (Game.game_over w) in
  Game_state (self w') = GAME_OVER /\
  Game_lives (self w') = Game_lives (self w) /\
  Game_player (self w') = Game_player (self w) /\
  Game_particles (self w') = Game_particles (self w) /\
  Game_power_ups (self w') = Game_power_ups (self w) /\
  heap w' = heap w.
Proof.
  unfold Game.game_over, Game.save_high_score. cbn.
  destruct (Game_high_score (self w) <? Game_score (self w)); cbn.
  - destruct (Env_fault (env w)); cbn; repeat split.
  - repeat split.
Qed.

(** C2, as stated, fails: with one life left and no shield, the hit ends
    the game and no particle is made. *)
Lemma last_life_hit_spawns_no_particles_counterexample :
  let w := started env0 in
  let w' := snd (Game.handle_obstacle_collision 5%nat w) in
  Player_shield (Game_player (self w)) = false /\
  Game_lives (self w) = 1 /\
  Game_lives (self w') = 0 /\
  Game_state (self w') = GAME_OVER /\
  Game_particles (self w') = Game_particles (self w) /\
  Heap_next (heap w') = Heap_next (heap w).
Proof. vm_compute. repeat split; reflexivity. Qed.

(** C2, amended: a collision without shield takes one life and respawns
    the obstacle; if no life is left the mode becomes [GAME_OVER] and no
    particle is made; otherwise 30 red particles made at the centre of the
    player are appended and the mode stays. *)
Theorem unshielded_hit_resolution (obstacle : ref) (w : World) :
  Player_shield (Game_player (self w)) = false ->
  let p := Game_player (self w) in
  let w' := snd (Game.handle_obstacle_collision obstacle w) in
  Game_lives (self w') = Game_lives (self w) - 1 /\
  respawned (Heap_obstacles (heap w) obstacle) (Heap_obstacles (heap w') obstacle) /\
  (Game_lives (self w) - 1 <= 0 ->
     Game_state (self w') = GAME_OVER /\
     Game_particles (self w') = Game_particles (self w)) /\
  (0 < Game_lives (self w) - 1 ->
     fst (Game.handle_obstacle_collision obstacle w) = Ok tt /\
     Game_state (self w') = Game_state (self w) /\
     Game_particles (self w') = Game_particles (self w) ++ seq (Heap_next (heap w)) 30 /\
     forall q : ref, In q (seq (Heap_next (heap w)) 30) ->
       made_at (Py.Int (Player_x p + Player_width p / 2))
               (Py.Int (Player_y p + Player_height p / 2))
               RED (Heap_particles (heap w') q)).
Proof.
  intros Hs p. unfold Game.handle_obstacle_collision.
  cbn. rewrite Hs. cbn.
  match goal with |- context [call_obstacle obstacle Obstacle.respawn ?w1] =>
    destruct (call_obstacle_respawn_run obstacle w1) as (o' & R & E); rewrite E
  end.
  cbn in R |- *.
  destruct (Game_lives (self w) - 1 <=? 0) eqn:L.
  - apply Z.leb_le in L.
    match goal with |- context [Game.game_over ?w2] =>
      destruct (game_over_frame w2) as (F1 & F2 & F3 & F4 & F5 & F6)
    end.
    cbn in F1, F2, F3, F4, F5, F6.
    split; [exact F2 |].
    split; [rewrite F6; cbn; rewrite upd_same; exact R |].
    split; [intros _; split; [exact F1 | exact F4] | lia].
  - apply Z.leb_gt in L.
    match goal with |- context [Game.burst RED ?w2] =>
      destruct (burst_run RED w2) as [Rb A];
      destruct (Game.burst RED w2) as [rb w3]
    end.
    cbn [fst snd] in *. destruct A as [S N O C U Old New En]. cbn in *.
    rewrite S. cbn.
    split; [reflexivity |].
    split; [rewrite O, upd_same; exact R |].
    split; [lia |].
    intros _. split; [exact Rb |]. split; [reflexivity |].
    split; [reflexivity |].
    intros q Hq. apply in_seq in Hq. apply New. lia.
Qed.

Lemma unshielded_hit_resolution_witness :
  let w := started env0 in
  let w' := snd (Game.handle_obstacle_collision 5%nat w) in
  Game_lives (self w') = Game_lives (self w) - 1 /\
  Game_state (self w') = GAME_OVER.
Proof.
  intros w w'.
  destruct (unshielded_hit_resolution 5%nat w eq_refl) as (A & _ & B & _).
  split; [exact A |]. apply B. vm_compute. discriminate.
Defined.

(** ** Collecting a power-up (C10) *)

Lemma list_remove_In (r : ref) (l : list ref) :
  In r l ->
  exists l1 l2 : list ref,
    l = l1 ++ r :: l2 /\ ~ In r l1 /\ list_remove r l = Some (l1 ++ l2).
Proof.
  induction l as [| a l IH]; intros H; [contradiction |].
  cbn [list_remove]. destruct (Nat.eqb a r) eqn:E.
  - apply Nat.eqb_eq in E. subst a. exists [], l. repeat split. intros [].
  - apply Nat.eqb_neq in E. destruct H as [H | H]; [congruence |].
    destruct (IH H) as (l1 & l2 & E1 & N & R).
    exists (a :: l1), l2. rewrite R. cbn. repeat split.
    + now rewrite E1.
    + intros [A | A]; [congruence | now apply N].
Qed.

(** C10: collecting an [extra_life] power-up of the active list adds one
    life, whatever the number of lives; score, level and both effect flags
    stay; the first (and, references being distinct, only) occurrence of
    the power-up leaves the list. *)
Theorem extra_life_adds_one_life (power_up : ref) (w : World) :
  PowerUp_type (Heap_power_ups (heap w) power_up) = "extra_life"%string ->
  In power_up (Game_power_ups (self w)) ->
  let w' := snd (Game.handle_powerup_collection power_up w) in
  fst (Game.handle_powerup_collection power_up w) = Ok tt /\
  Game_lives (self w') = Game_lives (self w) + 1 /\
  Game_score (self w') = Game_score (self w) /\
  Game_level (self w') = Game_level (self w) /\
  Player_shield (Game_player (self w')) = Player_shield (Game_player (self w)) /\
  Player_speed_boost (Game_player (self w'))
    = Player_speed_boost (Game_player (self w)) /\
  exists l1 l2 : list ref,
    Game_power_ups (self w) = l1 ++ power_up :: l2 /\
    ~ In power_up l1 /\
    Game_power_ups (self w') = l1 ++ l2.
Proof.
  intros Ht Hin.
  destruct (list_remove_In _ _ Hin) as (l1 & l2 & E & N & R).
  unfold Game.handle_powerup_collection, Game.remove_power_up.
  cbn. rewrite upd_same. cbn. rewrite Ht. cbn. rewrite R. cbn.
  repeat split. exists l1, l2. repeat split; assumption.
Qed.

Lemma extra_life_adds_one_life_witness :
  let w := offer "extra_life" (started env0) in
  let w' := snd (Game.handle_powerup_collection 10%nat w) in
  Game_lives (self w') = Game_lives (self w) + 1 /\
  Game_score (self w') = Game_score (self w).
Proof.
  intros w w'.
  assert (Ht : PowerUp_type (Heap_power_ups (heap w) 10%nat) = "extra_life"%string)
    by (vm_compute; reflexivity).
  assert (Hin : In 10%nat (Game_power_ups (self w)))
    by (vm_compute; left; reflexivity).
  destruct (extra_life_adds_one_life 10%nat w Ht Hin) as (_ & A & B & _).
  split; [exact A | exact B].
Defined.

(** ** Invariants of programs *)

Section Keeps.

Variable I : World -> Prop.

Lemma keeps_ret {A : Type} (a : A) : keeps I (ret a).
Proof. intros w H. exact H. Qed.

Lemma keeps_raise {A : Type} (e : exn) : keeps I (@raise A e).
Proof. intros w H. exact H. Qed.

Lemma keeps_gets {A : Type} (f : World -> A) : keeps I (gets f).
Proof. intros w H. exact H. Qed.

Lemma keeps_modify (f : World -> World) :
  (forall w, I w -> I (f w)) -> keeps I (modify f).
Proof. intros F w H. apply F, H. Qed.

Lemma keeps_bind {A B : Type} (m : M A) (k : A -> M B) :
  keeps I m -> (forall a, keeps I (k a)) -> keeps I (bind m k).
Proof.
  intros Hm Hk w H. specialize (Hm w H). unfold bind.
  destruct (m w) as [[a | e] w1]; cbn in *.
  - apply Hk, Hm.
  - exact Hm.
Qed.

Lemma keeps_when (b : bool) (m : M unit) : keeps I m -> keeps I (when b m).
Proof. intros Hm. destruct b; [exact Hm | apply keeps_ret]. Qed.

Lemma keeps_try_except {A : Type} (m : M A) (caught : exn -> bool) (h : M A) :
  keeps I m -> keeps I h -> keeps I (try_except m caught h).
Proof.
  intros Hm Hh w H. specialize (Hm w H). unfold try_except.
  destruct (m w) as [[a | e] w1]; cbn in *.
  - exact Hm.
  - destruct (caught e); [apply Hh, Hm | exact Hm].
Qed.

Lemma keeps_for_each {A : Type} (l : list A) (body : A -> M unit) :
  (forall a, keeps I (body a)) -> keeps I (for_each l body).
Proof.
  intros Hb. induction l as [| a l IH]; [apply keeps_ret |].
  apply keeps_bind; [apply Hb | intros _; exact IH].
Qed.

Lemma keeps_for_range (n : nat) (body : M unit) :
  keeps I body -> keeps I (for_range n body).
Proof.
  intros Hb. induction n as [| n IH]; [apply keeps_ret |].
  apply keeps_bind; [exact Hb | intros _; exact IH].
Qed.

Lemma keeps_list_of_range {A : Type} (n : nat) (f : M A) :
  keeps I f -> keeps I (list_of_range n f).
Proof.
  intros Hf. induction n as [| n IH]; [apply keeps_ret |].
  apply keeps_bind; [exact Hf | intros a].
  apply keeps_bind; [exact IH | intros l; apply keeps_ret].
Qed.

End Keeps.

(** One step of the proof that a program keeps an invariant: by the
    structure of the program, unfolding the methods on the way; what is
    left is what each assignment does to the invariant. *)
Ltac head_of t :=
  lazymatch t with
  | ?f _ => head_of f
  | _ => t
  end.

Ltac keeps_step :=
  lazymatch goal with
  | |- keeps _ (bind _ _) => apply keeps_bind; [ | intro ]
  | |- keeps _ (ret _) => apply keeps_ret
  | |- keeps _ (raise _) => apply keeps_raise
  | |- keeps _ (gets _) => apply keeps_gets
  | |- keeps _ (modify _) => apply keeps_modify
  | |- keeps _ (when _ _) => apply keeps_when
  | |- keeps _ (try_except _ _ _) => apply keeps_try_except
  | |- keeps _ (for_each _ _) => apply keeps_for_each; intro
  | |- keeps _ (for_range _ _) => apply keeps_for_range
  | |- keeps _ (list_of_range _ _) => apply keeps_list_of_range
  | |- keeps _ (if ?b then _ else _) => destruct b
  | |- keeps _ (match ?x with _ => _ end) => destruct x
  | |- keeps _ (let _ := _ in _) => cbv zeta
  | |- keeps _ ?m => let h := head_of m in unfold h
  end.

(** ** The abscissa of the player (C9) *)

Lemma moved_in_reach (keys : Keys) (p : Player) :
  in_reach p ->
  (moved keys p mod 5 = 0 /\ -10 <= moved keys p <= 760) /\
  (Player_x p <= 0 -> Player_x p <= moved keys p) /\
  (SCREEN_WIDTH - Player_width p <= Player_x p -> moved keys p <= Player_x p).
Proof.
  intros (Hs & Hw & Hm & Hx). unfold moved, stride, SCREEN_WIDTH. rewrite Hw.
  destruct (Player_speed_boost p), (K_LEFT keys), (K_RIGHT keys); cbn [andb];
    repeat match goal with
           | |- context [?a <? ?b] => destruct (Z.ltb_spec a b)
           end;
    Z.div_mod_to_equations; lia.
Qed.

Lemma Player_update_keeps (keys : Keys) : keeps player_in_reach (Player.update keys).
Proof.
  intros w H. pose proof H as (Hs & Hw & Hm & Hx).
  rewrite (Player_update_run keys w Hs). cbn.
  unfold player_in_reach, in_reach. cbn.
  pose proof (moved_in_reach keys _ H). tauto.
Qed.

Ltac keeps_player_step :=
  lazymatch goal with
  | |- keeps _ (Player.update _) => apply Player_update_keeps
  | |- _ => keeps_step
  end.

Lemma Player_init_in_reach : in_reach Player.__init__.
Proof. vm_compute. repeat split; discriminate. Qed.

Ltac keeps_player_leaf :=
  let w := fresh "w" in
  let H := fresh "H" in
  intros w H;
  first [ assumption
        | exact Player_init_in_reach
        | unfold player_in_reach, in_reach in *; cbn; assumption ].

Ltac keeps_player_auto := repeat keeps_player_step; try keeps_player_leaf.

Lemma reset_game_keeps_player : keeps player_in_reach Game.reset_game.
Proof. keeps_player_auto. Qed.

Lemma check_collisions_keeps_player : keeps player_in_reach Game.check_collisions.
Proof. keeps_player_auto. Qed.

Lemma update_keeps_player (keys : Keys) : keeps player_in_reach (Game.update keys).
Proof. keeps_player_auto. Qed.

Lemma handle_events_keeps_player (events : list event) :
  keeps player_in_reach (Game.handle_events events).
Proof.
  induction events as [| ev events IH]; [apply keeps_ret |].
  cbn [Game.handle_events]. destruct ev as [| k |].
  - apply keeps_ret.
  - apply keeps_bind; [apply keeps_gets | intros g].
    repeat match goal with
           | |- keeps _ (if ?b then _ else _) => destruct b
           | |- keeps _ (match ?x with _ => _ end) => destruct x
           end;
      repeat first [ exact IH | apply reset_game_keeps_player
                   | apply keeps_bind; [ | intro ]
                   | apply keeps_ret | apply keeps_modify; keeps_player_leaf ].
  - exact IH.
Qed.

Lemma run_keeps_player (frames : list (list event * Keys)) :
  keeps player_in_reach (Game.run frames).
Proof.
  induction frames as [| [events keys] frames IH]; [apply keeps_ret |].
  cbn [Game.run].
  apply keeps_bind; [apply handle_events_keeps_player | intros running].
  apply keeps_bind; [apply update_keeps_player | intros _].
  destruct running; [exact IH | apply keeps_ret].
Qed.

Lemma init_player_in_reach (int_of_unicode : string -> option Z) (w : World) :
  player_in_reach (snd (Game.__init__ int_of_unicode w)).
Proof.
  unfold Game.__init__.
  match goal with |- context [bind (modify_self ?f) ?k] =>
    change (player_in_reach (snd (k tt (set_self (f (self w)) w))));
    assert (K : keeps player_in_reach (k tt)) by keeps_player_auto;
    apply K
  end.
  exact Player_init_in_reach.
Qed.

(** C9: in every state the game reaches (frames run from [Game()], then
    the events of a further frame handled), [Player.update] leaves the
    abscissa of the player within [-14, 764], and never moves a player
    that is at or past an edge further out.  (The abscissa being a
    multiple of 5, it even stays within [-10, 760].) *)
Theorem player_abscissa_within_reach
    (int_of_unicode : string -> option Z) (e : Env)
    (frames : list (list event * Keys)) (events : list event) (keys : Keys) :
  let w := snd ((Game.__init__ int_of_unicode ;; Game.run frames ;;
                 Game.handle_events events) (boot e)) in
  let p := Game_player (self w) in
  let p' := Game_player (self (snd (Player.update keys w))) in
  - (15 - 1) <= Player_x p' <= SCREEN_WIDTH - Player_width p + 15 - 1 /\
  -14 <= Player_x p' <= 764 /\
  (Player_x p <= 0 -> Player_x p <= Player_x p') /\
  (SCREEN_WIDTH - Player_width p <= Player_x p -> Player_x p' <= Player_x p) /\
  -10 <= Player_x p' <= 760.
Proof.
  intros w p p'.
  assert (H : player_in_reach w).
  { subst w. unfold bind at 1.
    pose proof (init_player_in_reach int_of_unicode (boot e)) as H0.
    destruct (Game.__init__ int_of_unicode (boot e)) as [[[] | ex] w0];
      cbn [snd] in *; [| exact H0].
    revert H0. apply (keeps_bind player_in_reach).
    - apply run_keeps_player.
    - intros _. apply handle_events_keeps_player. }
  pose proof H as (Hs & Hw & Hm & Hx).
  subst p'. rewrite (Player_update_run keys w Hs). cbn.
  pose proof (moved_in_reach keys _ H) as ((_ & A) & B & C).
  subst p. rewrite Hw. unfold SCREEN_WIDTH in *. rewrite Hw in C.
  repeat split; try lia; tauto.
Qed.

(** ** Score and level (C1) *)

Lemma total_ret {A : Type} (a : A) : total (ret a).
Proof. intros w. now exists a. Qed.

Lemma total_gets {A : Type} (f : World -> A) : total (gets f).
Proof. intros w. now exists (f w). Qed.

Lemma total_modify (f : World -> World) : total (modify f).
Proof. intros w. now exists tt. Qed.

Lemma total_bind {A B : Type} (m : M A) (k : A -> M B) :
  total m -> (forall a, total (k a)) -> total (bind m k).
Proof.
  intros Hm Hk w. destruct (Hm w) as [a Ha]. unfold bind.
  destruct (m w) as [r w1]. cbn in Ha. subst r. apply Hk.
Qed.

Lemma total_list_of_range {A : Type} (n : nat) (f : M A) :
  total f -> total (list_of_range n f).
Proof.
  intros Hf. induction n as [| n IH]; [apply total_ret |].
  apply total_bind; [exact Hf | intros a].
  apply total_bind; [exact IH | intros l; apply total_ret].
Qed.

Lemma Obstacle_init_total : total Obstacle.__init__.
Proof.
  intros w. unfold Obstacle.__init__, Obstacle.reset_position.
  cbn. rewrite randint_run by lia. cbn.
  pose proof (randint_range 100 200 (draw w) ltac:(lia)).
  rewrite randint_run by (unfold SCREEN_WIDTH; lia). cbn.
  eexists. reflexivity.
Qed.

Lemma Coin_init_total : total Coin.__init__.
Proof.
  intros w. unfold Coin.__init__, Coin.reset_position.
  cbn. rewrite randint_run by (unfold SCREEN_WIDTH; lia). cbn.
  eexists. reflexivity.
Qed.

Lemma reset_game_objects_total : total Game.reset_game_objects.
Proof.
  unfold Game.reset_game_objects, get_self, modify_self.
  repeat first
    [ apply Obstacle_init_total
    | apply Coin_init_total
    | apply total_list_of_range
    | apply total_gets
    | apply total_modify
    | apply total_bind; [ | intro ] ].
Qed.

Lemma Coin_init_keeps_scoring (P : ref -> Prop) (s l : Z) :
  keeps (scoring P s l) Coin.__init__.
Proof.
  intros w (Hc & Hs & Hl). unfold Coin.__init__, Coin.reset_position.
  cbn. rewrite randint_run by (unfold SCREEN_WIDTH; lia). cbn.
  split; [| split; assumption].
  intros r Hr. cbn. unfold upd.
  destruct (Nat.eqb r (Heap_next (heap w))).
  - split; [reflexivity | now left].
  - apply Hc, Hr.
Qed.

Ltac keeps_scoring_step :=
  lazymatch goal with
  | |- keeps _ Coin.__init__ => apply Coin_init_keeps_scoring
  | |- _ => keeps_step
  end.

Lemma reset_game_objects_keeps_scoring (P : ref -> Prop) (s l : Z) :
  keeps (scoring P s l) Game.reset_game_objects.
Proof.
  repeat keeps_scoring_step; intros w H; exact H.
Qed.

Lemma level_up_run (P : ref -> Prop) (w : World) :
  coins_ok P w ->
  fst (Game.level_up w) = Ok tt /\
  scoring P (Game_score (self w)) (Game_level (self w) + 1) (snd (Game.level_up w)).
Proof.
  intros Hc. unfold Game.level_up. cbn.
  match goal with |- context [Game.reset_game_objects ?w1] =>
    pose proof (reset_game_objects_keeps_scoring P (Game_score (self w))
                  (Game_level (self w) + 1) w1) as K;
    destruct (reset_game_objects_total w1) as [[] T];
    destruct (Game.reset_game_objects w1) as [r w2]
  end.
  cbn in *. subst r. split; [reflexivity |].
  apply K. split; [exact Hc | split; reflexivity].
Qed.

Lemma scatter_run (coin : ref) (w : World) :
  let c := Heap_coins (heap w) coin in
  fst (Game.scatter coin w) = Ok tt /\
  appended 20 (Py.Int (Coin_x c)) (Coin_y c) (Coin_color c) w
    (snd (Game.scatter coin w)).
Proof.
  apply (for_range_append_run (fun w => Heap_coins (heap w) coin)
           (fun c => Py.Int (Coin_x c)) Coin_y Coin_color 20).
  intros x y c w0 w' A. rewrite (appended_coins _ _ _ _ _ _ A). reflexivity.
Qed.

Lemma call_coin_respawn_run (coin : ref) (w : World) :
  Coin_radius (Heap_coins (heap w) coin) = 15 ->
  exists c' : Coin,
    coin_ok c' /\
    call_coin coin Coin.respawn w =
      (Ok tt,
       set_heap (set_Heap_coins (upd coin c' (Heap_coins (heap w))) (heap w))
         (advance (advance w))).
Proof.
  intros Hr. unfold call_coin, Coin.respawn, Coin.reset_position, random.
  cbn. rewrite Hr. rewrite randint_run by (unfold SCREEN_WIDTH; lia). cbn.
  match goal with |- context [if ?b then _ else _] => destruct b end; cbn;
    eexists; (split; [| reflexivity]); split; cbn; auto.
Qed.

Lemma handle_coin_collection_run (P : ref -> Prop) (coin : ref) (w : World) :
  P coin -> coins_ok P w ->
  let s' := Game_score (self w) + Coin_value (Heap_coins (heap w) coin) in
  let w' := snd (Game.handle_coin_collection coin w) in
  fst (Game.handle_coin_collection coin w) = Ok tt /\
  coins_ok P w' /\
  Game_score (self w') = s' /\
  Game_level (self w') =
    (if Game_level (self w) - 1 <? s' / 10
     then Game_level (self w) + 1 else Game_level (self w)).
Proof.
  intros Hp Hc. unfold Game.handle_coin_collection. cbn.
  match goal with |- context [Game.scatter coin ?w2] =>
    destruct (scatter_run coin w2) as [R A];
    destruct (Game.scatter coin w2) as [r w3]
  end.
  cbn [fst snd] in *. subst r. cbn.
  destruct A as [S N O C U Old New En]. cbn in S, C.
  assert (Hrad : Coin_radius (Heap_coins (heap w3) coin) = 15).
  { rewrite C, upd_same. cbn. apply (Hc coin Hp). }
  destruct (call_coin_respawn_run coin w3 Hrad) as (c' & Hc' & E).
  rewrite E. cbn. rewrite S. cbn. rewrite upd_same. cbn.
  assert (Hc4 : coins_ok P
            (set_heap (set_Heap_coins (upd coin c' (Heap_coins (heap w3))) (heap w3))
               (advance (advance w3)))).
  { intros r Hr. cbn. unfold upd at 1. destruct (Nat.eqb r coin) eqn:Er.
    - exact Hc'.
    - rewrite C. unfold upd. rewrite Er. apply Hc, Hr. }
  destruct (Game_level (self w) - 1 <?
            (Game_score (self w) + Coin_value (Heap_coins (heap w) coin)) / 10).
  - match goal with |- context [Game.level_up ?w4] =>
      destruct (level_up_run P w4 Hc4) as (R1 & K1 & K2 & K3);
      destruct (Game.level_up w4) as [r w5]
    end.
    cbn [fst snd] in *. subst r. cbn in K2, K3. rewrite S in K2, K3. cbn in K2, K3.
    rewrite upd_same in K2. cbn in K2.
    split; [reflexivity |]. split; [exact K1 |]. split; assumption.
  - cbn. rewrite S. cbn. rewrite ?upd_same. cbn.
    split; [reflexivity |]. split; [exact Hc4 |]. split; reflexivity.
Qed.

Lemma collections_run (P : ref -> Prop) (l : list ref) :
  forall w : World,
    (forall r, In r l -> P r) ->
    coins_ok P w -> level_matches_score w ->
    let res := for_each l Game.handle_coin_collection w in
    fst res = Ok tt /\ coins_ok P (snd res) /\ level_matches_score (snd res).
Proof.
  induction l as [| coin l IH]; intros w Hl Hc Hm.
  - cbn. auto.
  - destruct (handle_coin_collection_run P coin w (Hl coin (or_introl eq_refl)) Hc)
      as (R & Hc1 & Hs1 & Hl1).
    unfold for_each; fold (@for_each ref). unfold bind.
    destruct (Game.handle_coin_collection coin w) as [r w1].
    cbn [fst snd] in *. subst r.
    apply IH; [intros r Hr; apply Hl; now right | exact Hc1 |].
    unfold level_matches_score in *. rewrite Hl1, Hs1.
    destruct (Hc coin (Hl coin (or_introl eq_refl))) as [_ Hv].
    destruct (Z.ltb_spec (Game_level (self w) - 1)
                ((Game_score (self w) + Coin_value (Heap_coins (heap w) coin)) / 10));
      destruct Hv as [Hv | Hv]; rewrite Hv in *; rewrite Hm in *; clear Hm;
      Z.div_mod_to_equations; lia.
Qed.

(** C1: from score 0 and level 1, after each of a sequence of coin
    collections (coins worth 1 or 5, handled one at a time) the level is
    [1 + score // 10]; and each collection returns. *)
Theorem level_is_one_plus_score_div_10 (coins : list ref) (w : World) (k : nat) :
  Game_score (self w) = 0 ->
  Game_level (self w) = 1 ->
  (forall r, In r coins -> coin_ok (Heap_coins (heap w) r)) ->
  let res := for_each (firstn k coins) Game.handle_coin_collection w in
  fst res = Ok tt /\
  Game_level (self (snd res)) = 1 + Game_score (self (snd res)) / 10.
Proof.
  intros Hs Hl Hc.
  destruct (collections_run (fun r => In r coins) (firstn k coins) w) as (R & _ & M).
  - intros r Hr. rewrite <- (firstn_skipn k coins). apply in_or_app. now left.
  - exact Hc.
  - unfold level_matches_score. rewrite Hs, Hl. reflexivity.
  - split; [exact R | exact M].
Qed.

Lemma level_is_one_plus_score_div_10_witness :
  let w := started env0 in
  let res := for_each (firstn 3 [8; 9; 8; 9]%nat) Game.handle_coin_collection w in
  fst res = Ok tt /\
  Game_level (self (snd res)) = 1 + Game_score (self (snd res)) / 10.
Proof.
  intros w.
  apply (level_is_one_plus_score_div_10 [8; 9; 8; 9]%nat w 3).
  - vm_compute. reflexivity.
  - vm_compute. reflexivity.
  - intros r [<- | [<- | [<- | [<- | []]]]]; vm_compute;
      (split; [reflexivity | left; reflexivity]).
Defined.

(** ** What leaves the lists of power-ups and particles (C5) *)

Lemma list_remove_count (a : ref) (l l' : list ref) :
  list_remove a l = Some l' ->
  forall r, count_occ Nat.eq_dec l r
            = (count_occ Nat.eq_dec l' r + (if Nat.eq_dec a r then 1 else 0))%nat.
Proof.
  revert l'. induction l as [| b l IH]; intros l' H r; [discriminate |].
  cbn [list_remove] in H. destruct (Nat.eqb b a) eqn:E.
  - apply Nat.eqb_eq in E. subst b. injection H as <-.
    cbn [count_occ]. destruct (Nat.eq_dec a r); lia.
  - apply Nat.eqb_neq in E.
    destruct (list_remove a l) as [l1 |] eqn:R; [| discriminate].
    injection H as <-. specialize (IH l1 eq_refl r).
    cbn [count_occ]. destruct (Nat.eq_dec b r); lia.
Qed.

(** One pass over a list of the game, as [update] makes over the power-ups
    and over the particles: each turn of the loop either leaves the list
    as it is or removes the object it visits, then [gone]; and it changes
    no other object. *)
Section Sweep.

Variable items : World -> list ref.
Variable gone : World -> ref -> bool.
Variable body : ref -> M unit.

Hypothesis body_removes : forall (a : ref) (w : World),
  items (snd (body a w)) = items w \/
  (gone (snd (body a w)) a = true /\
   list_remove a (items w) = Some (items (snd (body a w)))).

Hypothesis body_frame : forall (a r : ref) (w : World),
  r <> a -> gone (snd (body a w)) r = gone w r.

Lemma sweep_frame (r : ref) (l : list ref) :
  forall w : World, ~ In r l -> gone (snd (for_each l body w)) r = gone w r.
Proof.
  induction l as [| a l IH]; intros w H; [reflexivity |].
  unfold for_each; fold (@for_each ref). unfold bind.
  assert (Ha : r <> a) by (intros ->; apply H; now left).
  pose proof (body_frame a r w Ha) as F.
  destruct (body a w) as [[[] | e] w1]; cbn [snd] in *.
  - rewrite IH; [exact F |]. intros A. apply H. now right.
  - exact F.
Qed.

Lemma sweep_removes_gone (l : list ref) :
  forall w : World,
    (forall r, (count_occ Nat.eq_dec l r <= count_occ Nat.eq_dec (items w) r)%nat) ->
    forall r : ref,
      In r (items w) ->
      ~ In r (items (snd (for_each l body w))) ->
      gone (snd (for_each l body w)) r = true.
Proof.
  induction l as [| a l IH]; intros w Hc r Hin Hout.
  - cbn in Hout. contradiction.
  - unfold for_each in *; fold (@for_each ref) in *. unfold bind in *.
    pose proof (body_removes a w) as Hb.
    destruct (body a w) as [[[] | e] w1] eqn:Eb; cbn [snd] in *.
    + assert (Hc1 : forall r0, (count_occ Nat.eq_dec l r0
                               <= count_occ Nat.eq_dec (items w1) r0)%nat).
      { intros r0. specialize (Hc r0). cbn [count_occ] in Hc.
        destruct Hb as [Hb | [_ Hb]].
        - rewrite Hb. destruct (Nat.eq_dec a r0); lia.
        - rewrite (list_remove_count _ _ _ Hb r0) in Hc.
          destruct (Nat.eq_dec a r0); lia. }
      destruct (in_dec Nat.eq_dec r (items w1)) as [Hin1 | Hout1].
      * apply (IH w1 Hc1 r Hin1 Hout).
      * destruct Hb as [Hb | [Hg Hb]]; [rewrite Hb in Hout1; contradiction |].
        pose proof (list_remove_count _ _ _ Hb r) as Hr.
        apply (count_occ_In Nat.eq_dec) in Hin.
        apply (count_occ_not_In Nat.eq_dec) in Hout1.
        destruct (Nat.eq_dec a r) as [-> | Hne]; [| lia].
        rewrite sweep_frame; [exact Hg |].
        intros A. apply (count_occ_In Nat.eq_dec) in A.
        specialize (Hc1 r). lia.
    + destruct Hb as [Hb | [Hg Hb]]; [rewrite Hb in Hout; contradiction |].
      pose proof (list_remove_count _ _ _ Hb r) as Hr.
      apply (count_occ_In Nat.eq_dec) in Hin.
      apply (count_occ_not_In Nat.eq_dec) in Hout.
      destruct (Nat.eq_dec a r) as [-> | Hne]; [exact Hg | lia].
Qed.

End Sweep.

Lemma list_remove_only (a : ref) (l l' : list ref) (r : ref) :
  list_remove a l = Some l' -> In r l -> ~ In r l' -> r = a.
Proof.
  intros H Hin Hout. pose proof (list_remove_count _ _ _ H r) as C.
  apply (count_occ_In Nat.eq_dec) in Hin.
  apply (count_occ_not_In Nat.eq_dec) in Hout.
  destruct (Nat.eq_dec a r); [congruence | lia].
Qed.

Lemma update_power_ups_removes_off_screen (w : World) (r : ref) :
  let w' := snd (Game.update_power_ups w) in
  In r (Game_power_ups (self w)) ->
  ~ In r (Game_power_ups (self w')) ->
  PowerUp.is_off_screen (Heap_power_ups (heap w') r) = true.
Proof.
  unfold Game.update_power_ups. cbn.
  apply (sweep_removes_gone
           (fun w => Game_power_ups (self w))
           (fun w r => PowerUp.is_off_screen (Heap_power_ups (heap w) r))).
  - intros a w0. cbn. rewrite upd_same.
    destruct (PowerUp.is_off_screen (PowerUp.update (Heap_power_ups (heap w0) a))) eqn:E;
      cbn; [| now left].
    unfold Game.remove_power_up. cbn.
    destruct (list_remove a (Game_power_ups (self w0))) eqn:R; cbn; [| now left].
    right. rewrite upd_same. split; [exact E | reflexivity].
  - intros a r0 w0 Hne. cbn. rewrite upd_same.
    destruct (PowerUp.is_off_screen (PowerUp.update (Heap_power_ups (heap w0) a)));
      cbn; [| now rewrite upd_other].
    unfold Game.remove_power_up. cbn.
    destruct (list_remove a (Game_power_ups (self w0))); cbn; now rewrite upd_other.
  - intros r0. lia.
Qed.

Lemma update_particles_removes_dead (w : World) (r : ref) :
  let w' := snd (Game.update_particles w) in
  In r (Game_particles (self w)) ->
  ~ In r (Game_particles (self w')) ->
  Particle.is_dead (Heap_particles (heap w') r) = true.
Proof.
  unfold Game.update_particles. cbn.
  apply (sweep_removes_gone
           (fun w => Game_particles (self w))
           (fun w r => Particle.is_dead (Heap_particles (heap w) r))).
  - intros a w0. cbn. rewrite upd_same.
    destruct (Particle.is_dead (Particle.update (Heap_particles (heap w0) a))) eqn:E;
      cbn; [| now left].
    unfold Game.remove_particle. cbn.
    destruct (list_remove a (Game_particles (self w0))) eqn:R; cbn; [| now left].
    right. rewrite upd_same. split; [exact E | reflexivity].
  - intros a r0 w0 Hne. cbn. rewrite upd_same.
    destruct (Particle.is_dead (Particle.update (Heap_particles (heap w0) a)));
      cbn; [| now rewrite upd_other].
    unfold Game.remove_particle. cbn.
    destruct (list_remove a (Game_particles (self w0))); cbn; now rewrite upd_other.
  - intros r0. lia.
Qed.

Ltac keeps_extend_leaf :=
  let w := fresh "w" in
  let H := fresh "H" in
  let s := fresh "s" in
  intros w H;
  first [ exact H
        | destruct H as [s H];
          unfold power_ups_extend, particles_extend; cbn; rewrite H;
          eexists; rewrite <- app_assoc; reflexivity ].

Ltac keeps_extend := repeat keeps_step; try keeps_extend_leaf.

Lemma extend_In (L s : list ref) (r : ref) : In r L -> In r (L ++ s).
Proof. intros H. apply in_or_app. now left. Qed.

Lemma leads_bind (I Q : World -> Prop) {A B : Type} (m : M A) (k : A -> M B) :
  (forall w, I w -> Q w) ->
  keeps I m -> (forall a, leads I Q (k a)) -> leads I Q (bind m k).
Proof.
  intros HQ Hm Hk w H. specialize (Hm w H). unfold bind.
  destruct (m w) as [[a | e] w1]; cbn in *.
  - apply Hk, Hm.
  - apply HQ, Hm.
Qed.

Lemma reset_game_objects_keeps_level (l : Z) : keeps (level_is l) Game.reset_game_objects.
Proof. repeat keeps_step; intros w H; exact H. Qed.

(** A coin collection keeps both lists, at least, unless it levels up. *)
Lemma handle_coin_collection_frame (LU LP : list ref) (l : Z) (coin : ref) :
  leads (fun w => power_ups_extend LU w /\ particles_extend LP w /\ level_is l w)
        (fun w => (power_ups_extend LU w /\ particles_extend LP w) \/ level_is (l + 1) w)
        (Game.handle_coin_collection coin).
Proof.
  unfold Game.handle_coin_collection.
  repeat lazymatch goal with
         | |- leads _ _ (bind _ _) =>
             apply leads_bind;
             [ intros w (A & B & C); left; split; assumption
             | repeat keeps_step;
               (intros w (A & B & C); split; [| split];
                [ clear B C; revert w A; keeps_extend_leaf
                | clear A C; revert w B; keeps_extend_leaf
                | exact C ])
             | intros ? ]
         end.
  intros w (A & B & C). unfold when.
  match goal with |- context [if ?b then _ else _] => destruct b end.
  - right. unfold Game.level_up. unfold bind at 1. cbn [modify_self modify].
    apply reset_game_objects_keeps_level. unfold level_is in *. cbn. now rewrite C.
  - left. split; assumption.
Qed.

Lemma handle_powerup_collection_removes_it (L : list ref) (power_up r : ref) :
  leads (fun w => Game_power_ups (self w) = L)
        (fun w => In r L -> ~ In r (Game_power_ups (self w)) -> r = power_up)
        (Game.handle_powerup_collection power_up).
Proof.
  unfold Game.handle_powerup_collection.
  repeat lazymatch goal with
         | |- leads _ _ (bind _ _) =>
             apply leads_bind;
             [ intros w E Hin Hout; rewrite E in Hout; contradiction
             | repeat keeps_step; (intros w E; exact E)
             | intros ? ]
         end.
  intros w E Hin Hout. unfold Game.remove_power_up in Hout. cbn in Hout.
  rewrite E in Hout.
  destruct (list_remove power_up L) as [l' |] eqn:R; cbn in Hout.
  - apply (list_remove_only _ _ _ _ R Hin Hout).
  - rewrite E in Hout. contradiction.
Qed.

Lemma perform_keeps_power_ups (o : operation) (L : list ref) :
  match o with
  | MovePowerUps | CollectCoin _ | CollectPowerUp _ => True
  | _ => keeps (power_ups_extend L) (perform o)
  end.
Proof.
  destruct o; cbn [perform]; try exact Logic.I; keeps_extend.
Qed.

Lemma perform_keeps_particles (o : operation) (L : list ref) :
  match o with
  | MoveParticles | CollectCoin _ => True
  | _ => keeps (particles_extend L) (perform o)
  end.
Proof.
  destruct o; cbn [perform]; try exact Logic.I; keeps_extend.
Qed.

Lemma extend_refl_power_ups (w : World) : power_ups_extend (Game_power_ups (self w)) w.
Proof. exists []. now rewrite app_nil_r. Qed.

Lemma extend_refl_particles (w : World) : particles_extend (Game_particles (self w)) w.
Proof. exists []. now rewrite app_nil_r. Qed.

(** C5, as stated, fails: the coin collected at score 9 levels the game
    up, and the power-up (on screen, not collected) and the particles
    (alive) are off their lists. *)
Lemma level_up_clears_lists_counterexample :
  let w := world_before_level_up in
  let w' := snd (Game.handle_coin_collection 9%nat w) in
  Game_power_ups (self w) = [10%nat] /\
  nth 0 (Game_particles (self w)) O = 11%nat /\
  Game_level (self w) = 1 /\ Game_level (self w') = 2 /\
  PowerUp.is_off_screen (Heap_power_ups (heap w') 10%nat) = false /\
  PowerUp_collected (Heap_power_ups (heap w') 10%nat) = false /\
  Particle.is_dead (Heap_particles (heap w') 11%nat) = false /\
  Game_power_ups (self w') = [] /\
  Game_particles (self w') = [].
Proof. vm_compute. repeat split; reflexivity. Qed.

(** C5, amended: an operation of a frame takes a power-up off the active
    list only if it is the pass over the power-ups and the power-up is off
    screen, or the collection of that power-up, or a coin collection that
    levels up (which empties both lists); it takes a particle off its list
    only if it is the pass over the particles and the particle is dead, or
    a coin collection that levels up. *)
Theorem removed_only_off_screen_collected_dead_or_level_up
    (o : operation) (w : World) (r : ref) :
  let w' := snd (perform o w) in
  (In r (Game_power_ups (self w)) -> ~ In r (Game_power_ups (self w')) ->
     (o = MovePowerUps /\
      PowerUp.is_off_screen (Heap_power_ups (heap w') r) = true) \/
     o = CollectPowerUp r \/
     (exists coin, o = CollectCoin coin /\
                   Game_level (self w') = Game_level (self w) + 1)) /\
  (In r (Game_particles (self w)) -> ~ In r (Game_particles (self w')) ->
     (o = MoveParticles /\
      Particle.is_dead (Heap_particles (heap w') r) = true) \/
     (exists coin, o = CollectCoin coin /\
                   Game_level (self w') = Game_level (self w) + 1)).
Proof.
  intros w'.
  assert (KU : keeps (power_ups_extend (Game_power_ups (self w))) (perform o) ->
               In r (Game_power_ups (self w)) ->
               ~ In r (Game_power_ups (self w')) -> False).
  { intros K Hin Hout. destruct (K w (extend_refl_power_ups w)) as [s E].
    apply Hout. subst w'. rewrite E. now apply extend_In. }
  assert (KP : keeps (particles_extend (Game_particles (self w))) (perform o) ->
               In r (Game_particles (self w)) ->
               ~ In r (Game_particles (self w')) -> False).
  { intros K Hin Hout. destruct (K w (extend_refl_particles w)) as [s E].
    apply Hout. subst w'. rewrite E. now apply extend_In. }
  pose proof (perform_keeps_power_ups o (Game_power_ups (self w))) as FU.
  pose proof (perform_keeps_particles o (Game_particles (self w))) as FP.
  pose proof (handle_coin_collection_frame
                (Game_power_ups (self w)) (Game_particles (self w))
                (Game_level (self w))) as FC.
  destruct o; cbn [perform] in *;
    (split; intros Hin Hout;
     try (exfalso; apply (KU FU Hin Hout));
     try (exfalso; apply (KP FP Hin Hout))).
  - left. split; [reflexivity |].
    apply (update_power_ups_removes_off_screen w r Hin Hout).
  - left. split; [reflexivity |].
    apply (update_particles_removes_dead w r Hin Hout).
  - right. right. exists coin. split; [reflexivity |].
    destruct (FC coin w) as [[[s E] _] | E].
    + repeat split; [apply extend_refl_power_ups | apply extend_refl_particles].
    + exfalso. apply Hout. subst w'. rewrite E. now apply extend_In.
    + exact E.
  - right. exists coin. split; [reflexivity |].
    destruct (FC coin w) as [[_ [s E]] | E].
    + repeat split; [apply extend_refl_power_ups | apply extend_refl_particles].
    + exfalso. apply Hout. subst w'. rewrite E. now apply extend_In.
    + exact E.
  - right. left. f_equal. symmetry.
    apply (handle_powerup_collection_removes_it (Game_power_ups (self w))
             power_up r w eq_refl Hin Hout).
Qed.

Lemma removed_only_off_screen_collected_dead_or_level_up_witness :
  let o := CollectPowerUp 10%nat in
  let w := offer "extra_life" (started env0) in
  let w' := snd (perform o w) in
  (o = MovePowerUps /\
   PowerUp.is_off_screen (Heap_power_ups (heap w') 10%nat) = true) \/
  o = CollectPowerUp 10%nat \/
  (exists coin, o = CollectCoin coin /\
                Game_level (self w') = Game_level (self w) + 1).
Proof.
  intros o w w'.
  apply (proj1 (removed_only_off_screen_collected_dead_or_level_up o w 10%nat)).
  - vm_compute. left. reflexivity.
  - vm_compute. intros [].
Defined.

(** * Further properties of the program *)

(** ** Construction of the entities *)

Lemma choice_In {A : Type} (l : list A) (w : World) :
  l <> [] -> exists a : A, In a l /\ choice l w = (Ok a, advance w).
Proof.
  intros Hl. destruct l as [| d l]; [congruence |].
  exists (nth (Z.to_nat (draw w mod Z.of_nat (List.length (d :: l)))) (d :: l) d).
  split; [| reflexivity].
  apply nth_In.
  pose proof (Z.mod_pos_bound (draw w) (Z.of_nat (List.length (d :: l)))
                ltac:(cbn [List.length]; lia)) as B.
  lia.
Qed.

Lemma Obstacle_init_run (w : World) :
  let r := Heap_next (heap w) in
  let w' := snd (Obstacle.__init__ w) in
  fst (Obstacle.__init__ w) = Ok r /\
  Heap_next (heap w') = S r /\
  self w' = self w /\
  new_obstacle (Heap_obstacles (heap w') r) /\
  (forall r', r' <> r -> Heap_obstacles (heap w') r' = Heap_obstacles (heap w) r') /\
  Heap_coins (heap w') = Heap_coins (heap w) /\
  Heap_power_ups (heap w') = Heap_power_ups (heap w) /\
  Heap_particles (heap w') = Heap_particles (heap w).
Proof.
  unfold Obstacle.__init__, Obstacle.reset_position.
  cbn. rewrite randint_run by lia. cbn.
  pose proof (randint_range 100 200 (draw w) ltac:(lia)) as Hw.
  rewrite randint_run by (unfold SCREEN_WIDTH; lia). cbn.
  pose proof (randint_range 0 (SCREEN_WIDTH - (100 + draw w mod (200 - 100 + 1)))
                (draw (advance w)) ltac:(unfold SCREEN_WIDTH; lia)) as Hx.
  unfold draw, advance in *. cbn in *.
  rewrite upd_same.
  split; [reflexivity |]. split; [reflexivity |]. split; [reflexivity |]. split.
  - unfold new_obstacle. cbn. repeat split; try lia; reflexivity.
  - split; [| repeat split]. intros r' Hr. now apply upd_other.
Qed.

(** [Obstacle()] never raises: it returns a new reference, to an obstacle
    that lies within the width of the screen, just above its top edge, and
    touches no other object. *)
Theorem Obstacle_init_inside_screen (w : World) :
  let r := Heap_next (heap w) in
  let w' := snd (Obstacle.__init__ w) in
  fst (Obstacle.__init__ w) = Ok r /\
  new_obstacle (Heap_obstacles (heap w') r) /\
  Heap_next (heap w') = S r /\
  (forall r', r' <> r -> Heap_obstacles (heap w') r' = Heap_obstacles (heap w) r') /\
  self w' = self w.
Proof.
  destruct (Obstacle_init_run w) as (A & B & C & D & E & _).
  split; [exact A |]. split; [exact D |]. split; [exact B |].
  split; [exact E | exact C].
Qed.

Lemma Coin_init_run (w : World) :
  let r := Heap_next (heap w) in
  let w' := snd (Coin.__init__ w) in
  fst (Coin.__init__ w) = Ok r /\
  Heap_next (heap w') = S r /\
  self w' = self w /\
  new_coin (Heap_coins (heap w') r) /\
  (forall r', r' <> r -> Heap_coins (heap w') r' = Heap_coins (heap w) r') /\
  Heap_obstacles (heap w') = Heap_obstacles (heap w) /\
  Heap_power_ups (heap w') = Heap_power_ups (heap w) /\
  Heap_particles (heap w') = Heap_particles (heap w).
Proof.
  unfold Coin.__init__, Coin.reset_position.
  cbn. rewrite randint_run by (unfold SCREEN_WIDTH; lia). cbn.
  pose proof (randint_range 15 (SCREEN_WIDTH - 15) (draw w)
                ltac:(unfold SCREEN_WIDTH; lia)) as Hx.
  rewrite upd_same.
  split; [reflexivity |]. split; [reflexivity |]. split; [reflexivity |]. split.
  - unfold new_coin. cbn. repeat split; try lia; reflexivity.
  - split; [| repeat split]. intros r' Hr. now apply upd_other.
Qed.

(** [Coin()] never raises: it returns a new reference, to a gold coin worth
    1 that lies within the width of the screen, just above its top edge. *)
Theorem Coin_init_inside_screen (w : World) :
  let r := Heap_next (heap w) in
  let w' := snd (Coin.__init__ w) in
  fst (Coin.__init__ w) = Ok r /\
  new_coin (Heap_coins (heap w') r) /\
  Heap_next (heap w') = S r /\
  (forall r', r' <> r -> Heap_coins (heap w') r' = Heap_coins (heap w) r') /\
  self w' = self w.
Proof.
  destruct (Coin_init_run w) as (A & B & C & D & E & _).
  split; [exact A |]. split; [exact D |]. split; [exact B |].
  split; [exact E | exact C].
Qed.

Lemma Coin_respawn_run (c : Coin) (w : World) :
  Coin_radius c <= SCREEN_WIDTH - Coin_radius c ->
  exists c' : Coin,
    Coin.respawn c w = (Ok c', advance (advance w)) /\ respawned_coin c c'.
Proof.
  intros Hr. unfold Coin.respawn, Coin.reset_position, random.
  cbn. rewrite randint_run by exact Hr. cbn.
  pose proof (randint_range _ _ (draw w) Hr) as Hx.
  match goal with |- context [if ?b then _ else _] => destruct b end; cbn;
    (eexists; split; [reflexivity |]);
    unfold respawned_coin; cbn; repeat split; try lia; auto.
Qed.

(** [Coin.respawn], for a coin that fits in the screen: it returns, and the
    coin is back above the top edge, within the width of the screen, faster
    by 0.2, not collected; its colour tells its value (purple 5, gold 1). *)
Theorem Coin_respawn_colour_tells_value (c : Coin) (w : World) :
  Coin_radius c <= SCREEN_WIDTH - Coin_radius c ->
  exists c' : Coin,
    Coin.respawn c w = (Ok c', advance (advance w)) /\ respawned_coin c c'.
Proof. exact (Coin_respawn_run c w). Qed.

Lemma Coin_respawn_colour_tells_value_witness :
  exists c' : Coin,
    Coin.respawn coin_804 (started env0) = (Ok c', advance (advance (started env0))) /\
    respawned_coin coin_804 c'.
Proof.
  apply (Coin_respawn_colour_tells_value coin_804 (started env0)).
  vm_compute. discriminate.
Defined.

Lemma PowerUp_init_run (w : World) :
  let r := Heap_next (heap w) in
  let w' := snd (PowerUp.__init__ w) in
  fst (PowerUp.__init__ w) = Ok r /\
  Heap_next (heap w') = S r /\
  self w' = self w /\
  new_power_up (Heap_power_ups (heap w') r) /\
  (forall r', r' <> r -> Heap_power_ups (heap w') r' = Heap_power_ups (heap w) r').
Proof.
  unfold PowerUp.__init__, PowerUp.reset_position.
  cbn. rewrite randint_run by (unfold SCREEN_WIDTH; lia). cbn.
  pose proof (randint_range 0 (SCREEN_WIDTH - 30) (draw w)
                ltac:(unfold SCREEN_WIDTH; lia)) as Hx.
  destruct (choice_In PowerUp.types (advance w) ltac:(discriminate))
    as (type & Hin & E).
  rewrite E. cbn. unfold PowerUp.set_color. cbn.
  assert (Hc : exists col, PowerUp.color_of type = Some col).
  { destruct Hin as [<- | [<- | [<- | []]]]; eexists; reflexivity. }
  destruct Hc as [col Hc]. rewrite Hc. cbn. rewrite upd_same.
  split; [reflexivity |]. split; [reflexivity |]. split; [reflexivity |]. split.
  - unfold new_power_up. cbn. unfold SCREEN_WIDTH in *.
    repeat split; try lia; auto.
  - intros r' Hr. now apply upd_other.
Qed.

(** [PowerUp()] never raises: it returns a new reference, to a power-up of
    one of the three types, with the colour of its type, that lies within
    the width of the screen, just above its top edge. *)
Theorem PowerUp_init_typed_and_inside_screen (w : World) :
  let r := Heap_next (heap w) in
  let w' := snd (PowerUp.__init__ w) in
  fst (PowerUp.__init__ w) = Ok r /\
  new_power_up (Heap_power_ups (heap w') r) /\
  Heap_next (heap w') = S r /\
  (forall r', r' <> r -> Heap_power_ups (heap w') r' = Heap_power_ups (heap w) r') /\
  self w' = self w.
Proof.
  destruct (PowerUp_init_run w) as (A & B & C & D & E).
  split; [exact A |]. split; [exact D |]. split; [exact B |].
  split; [exact E | exact C].
Qed.

(** [PowerUp.respawn] never raises: the power-up keeps its size and its
    speed, is back above the top edge within the width of the screen, not
    collected, and has one of the three types, with the colour of its
    type.  (The game never calls it: a power-up that leaves the screen is
    taken off the list.) *)
Theorem PowerUp_respawn_retypes_and_replaces (u : PowerUp) (w : World) :
  0 <= PowerUp_width u <= SCREEN_WIDTH ->
  exists u' : PowerUp,
    PowerUp.respawn u w = (Ok u', advance (advance w)) /\
    PowerUp_width u' = PowerUp_width u /\
    PowerUp_height u' = PowerUp_height u /\
    PowerUp_speed u' = PowerUp_speed u /\
    0 <= PowerUp_x u' /\ PowerUp_x u' + PowerUp_width u' <= SCREEN_WIDTH /\
    PowerUp_y u' = - PowerUp_height u /\
    In (PowerUp_type u') PowerUp.types /\
    PowerUp.color_of (PowerUp_type u') = Some (PowerUp_color u') /\
    PowerUp_collected u' = false.
Proof.
  intros Hw. unfold PowerUp.respawn, PowerUp.reset_position.
  cbn. rewrite randint_run by lia. cbn.
  pose proof (randint_range 0 (SCREEN_WIDTH - PowerUp_width u) (draw w)
                ltac:(lia)) as Hx.
  destruct (choice_In PowerUp.types (advance w) ltac:(discriminate))
    as (type & Hin & E).
  rewrite E. cbn. unfold PowerUp.set_color. cbn.
  assert (Hc : exists col, PowerUp.color_of type = Some col).
  { destruct Hin as [<- | [<- | [<- | []]]]; eexists; reflexivity. }
  destruct Hc as [col Hc]. rewrite Hc. cbn.
  eexists. split; [reflexivity |]. cbn.
  repeat split; try lia; auto.
Qed.

Lemma PowerUp_respawn_retypes_and_replaces_witness :
  let u := Heap_power_ups (heap (offer "shield" (started env0))) 10%nat in
  exists u' : PowerUp,
    PowerUp.respawn u (started env0) = (Ok u', advance (advance (started env0))) /\
    PowerUp_y u' = -30 /\ PowerUp_collected u' = false.
Proof.
  intros u.
  assert (Hw : 0 <= PowerUp_width u <= SCREEN_WIDTH)
    by (vm_compute; split; discriminate).
  destruct (PowerUp_respawn_retypes_and_replaces u (started env0) Hw)
    as (u' & E & _ & _ & _ & _ & _ & Y & _ & _ & C).
  exists u'. split; [exact E |]. split; [| exact C].
  rewrite Y. vm_compute. reflexivity.
Defined.

(** ** The life of a particle *)

Lemma Particle_lifetime_iter (q : Particle) (k : nat) :
  Particle_lifetime (Nat.iter k Particle.update q)
  = Particle_lifetime q - Z.of_nat k.
Proof.
  induction k as [| k IH].
  - change (Nat.iter 0 Particle.update q) with q. change (Z.of_nat 0) with 0. lia.
  - rewrite Nat.iter_succ. unfold Particle.update at 1. cbn [Particle_lifetime].
    rewrite IH. lia.
Qed.

(** [Particle(x, y, color)] never raises; the particle is made where asked,
    with an integer size from 2 to 5 and a lifetime from 20 to 40; it is
    dead after [k] updates exactly when [k] reaches its lifetime, hence
    never before 20 updates and always after 40. *)
Theorem Particle_lives_20_to_40_updates (x y : Py.num) (color : Color) (w : World) :
  let r := Heap_next (heap w) in
  let q := Heap_particles (heap (snd (Particle.__init__ x y color w))) r in
  fst (Particle.__init__ x y color w) = Ok r /\
  made_at x y color q /\
  (exists s : Z, Particle_size q = Py.Int s /\ 2 <= s <= 5) /\
  20 <= Particle_lifetime q <= 40 /\
  (forall k : nat,
      Particle.is_dead (Nat.iter k Particle.update q) = true
      <-> Particle_lifetime q <= Z.of_nat k) /\
  (forall k : nat, (k < 20)%nat ->
      Particle.is_dead (Nat.iter k Particle.update q) = false) /\
  Particle.is_dead (Nat.iter 40 Particle.update q) = true.
Proof.
  intros r q.
  assert (D : forall (p : Particle) (k : nat),
             Particle.is_dead (Nat.iter k Particle.update p) = true
             <-> Particle_lifetime p <= Z.of_nat k).
  { intros p k. unfold Particle.is_dead. rewrite Particle_lifetime_iter.
    rewrite Z.leb_le. lia. }
  assert (F : fst (Particle.__init__ x y color w) = Ok r /\
              made_at x y color q /\
              (exists s : Z, Particle_size q = Py.Int s /\ 2 <= s <= 5) /\
              20 <= Particle_lifetime q <= 40).
  { subst q r. unfold Particle.__init__, uniform, random.
    cbn. rewrite !randint_run by lia. cbn. rewrite upd_same. cbn.
    split; [reflexivity |]. split; [repeat split |]. split.
    - eexists. split; [reflexivity |]. apply randint_range. lia.
    - apply randint_range. lia. }
  destruct F as (F1 & F2 & F3 & F4).
  split; [exact F1 |]. split; [exact F2 |]. split; [exact F3 |].
  split; [exact F4 |]. split; [apply D |]. split.
  - intros k Hk. destruct (Particle.is_dead (Nat.iter k Particle.update q)) eqn:E;
      [| reflexivity].
    apply D in E. lia.
  - apply D. change (Z.of_nat 40) with 40. lia.
Qed.

(** ** Collecting a shield or a speed boost *)

(** Collecting a [shield] power-up of the active list sets the shield and
    records the present time as its start, whatever the shield was before
    (a second shield restarts the 5000 ms); a [speed_boost] does the same
    for the boost.  The other effect, the lives and the score stay, and the
    power-up leaves the list, marked collected. *)
Theorem effect_starts_when_collected (power_up : ref) (w : World) :
  In power_up (Game_power_ups (self w)) ->
  let p := Game_player (self w) in
  let w' := snd (Game.handle_powerup_collection power_up w) in
  let p' := Game_player (self w') in
  (PowerUp_type (Heap_power_ups (heap w) power_up) = "shield"%string ->
     fst (Game.handle_powerup_collection power_up w) = Ok tt /\
     Player_shield p' = true /\ Player_shield_time p' = next_tick w /\
     Player_speed_boost p' = Player_speed_boost p /\
     Player_speed_boost_time p' = Player_speed_boost_time p /\
     Game_lives (self w') = Game_lives (self w) /\
     Game_score (self w') = Game_score (self w) /\
     PowerUp_collected (Heap_power_ups (heap w') power_up) = true /\
     list_remove power_up (Game_power_ups (self w)) = Some (Game_power_ups (self w'))) /\
  (PowerUp_type (Heap_power_ups (heap w) power_up) = "speed_boost"%string ->
     fst (Game.handle_powerup_collection power_up w) = Ok tt /\
     Player_speed_boost p' = true /\ Player_speed_boost_time p' = next_tick w /\
     Player_shield p' = Player_shield p /\
     Player_shield_time p' = Player_shield_time p /\
     Game_lives (self w') = Game_lives (self w) /\
     Game_score (self w') = Game_score (self w) /\
     PowerUp_collected (Heap_power_ups (heap w') power_up) = true /\
     list_remove power_up (Game_power_ups (self w)) = Some (Game_power_ups (self w'))).
Proof.
  intros Hin p w' p'.
  destruct (list_remove_In _ _ Hin) as (l1 & l2 & E & N & R).
  subst p p' w'.
  split; intros Ht;
    unfold Game.handle_powerup_collection, Game.remove_power_up, next_tick;
    cbn; rewrite upd_same; cbn; rewrite Ht; cbn; rewrite R; cbn;
    rewrite ?upd_same; repeat split.
Qed.

Lemma effect_starts_when_collected_witness :
  let w := offer "speed_boost" (started env_5000) in
  let w' := snd (Game.handle_powerup_collection 10%nat w) in
  Player_speed_boost (Game_player (self w')) = true /\
  Player_speed_boost_time (Game_player (self w')) = next_tick w.
Proof.
  intros w w'.
  assert (Hin : In 10%nat (Game_power_ups (self w)))
    by (vm_compute; left; reflexivity).
  assert (Ht : PowerUp_type (Heap_power_ups (heap w) 10%nat) = "speed_boost"%string)
    by (vm_compute; reflexivity).
  destruct (proj2 (effect_starts_when_collected 10%nat w Hin) Ht) as (_ & A & B & _).
  split; [exact A | exact B].
Defined.

(** ** The record at game over *)

(** When the disk takes the write, [game_over] returns with the high score
    at the larger of the old high score and the score; a new record is in
    the file, where the next load reads it; without a new record the file
    is not touched. *)
Theorem game_over_persists_new_record
    (int_of_unicode : string -> option Z) (w : World) :
  Env_fault (env w) = NoFault ->
  let w' := snd (Game.game_over w) in
  fst (Game.game_over w) = Ok tt /\
  Game_high_score (self w') = Z.max (Game_high_score (self w)) (Game_score (self w)) /\
  (Game_high_score (self w) < Game_score (self w) ->
     Env_highscore_txt (env w') = Some (str (Game_score (self w))) /\
     fst (Game.load_high_score int_of_unicode w') = Ok (Game_score (self w))) /\
  (Game_score (self w) <= Game_high_score (self w) -> env w' = env w).
Proof.
  intros Hf. unfold Game.game_over, Game.save_high_score. cbn.
  destruct (Z.ltb_spec (Game_high_score (self w)) (Game_score (self w))) as [L | L];
    cbn.
  - rewrite Hf. cbn.
    split; [reflexivity |]. split; [lia |]. split; [| lia].
    intros _. split; [reflexivity |].
    unfold Game.load_high_score. cbn. rewrite int_of_text_str. reflexivity.
  - split; [reflexivity |]. split; [lia |]. split; [lia | reflexivity].
Qed.

Lemma game_over_persists_new_record_witness :
  let w0 := started env_half in
  let w := set_self (set_Game_score 50 (self w0)) w0 in
  Env_highscore_txt (env (snd (Game.game_over w))) = Some (str 50).
Proof.
  intros w0 w.
  destruct (game_over_persists_new_record no_unicode w eq_refl) as (_ & _ & A & _).
  apply A. vm_compute. reflexivity.
Defined.

(** ** The objects of a level *)

(** [[f() for _ in range(n)]] for a constructor [f]: the [n] next
    references, in order; [Q] is a property of the objects that [f]
    gives to the one it makes and keeps for the others. *)
Section Constructed.

Variable f : M ref.
Variable Q : World -> ref -> Prop.

Hypothesis f_allocates : forall w : World,
  fst (f w) = Ok (Heap_next (heap w)) /\
  Heap_next (heap (snd (f w))) = S (Heap_next (heap w)) /\
  self (snd (f w)) = self w.

Hypothesis f_keeps : forall (w : World) (r : ref),
  r <> Heap_next (heap w) -> Q w r -> Q (snd (f w)) r.

Hypothesis f_makes : forall w : World, Q (snd (f w)) (Heap_next (heap w)).

Lemma list_of_range_allocates (n : nat) :
  forall w : World,
    fst (list_of_range n f w) = Ok (seq (Heap_next (heap w)) n) /\
    Heap_next (heap (snd (list_of_range n f w))) = (Heap_next (heap w) + n)%nat /\
    self (snd (list_of_range n f w)) = self w.
Proof.
  induction n as [| n IH]; intros w.
  - unfold list_of_range. cbn. repeat split. lia.
  - unfold list_of_range; fold (@list_of_range ref). unfold bind.
    destruct (f_allocates w) as (A1 & A2 & A3).
    destruct (f w) as [r w1]. cbn [fst snd] in *. subst r.
    destruct (IH w1) as (B1 & B2 & B3).
    destruct (list_of_range n f w1) as [r w2]. cbn [fst snd] in *. subst r.
    cbn. rewrite A2. repeat split; [lia | congruence].
Qed.

Lemma list_of_range_keeps (n : nat) :
  forall (w : World) (r : ref),
    (r < Heap_next (heap w))%nat -> Q w r -> Q (snd (list_of_range n f w)) r.
Proof.
  induction n as [| n IH]; intros w r Hr HQ.
  - exact HQ.
  - unfold list_of_range; fold (@list_of_range ref). unfold bind.
    destruct (f_allocates w) as (A1 & A2 & A3).
    pose proof (f_keeps w r ltac:(lia) HQ) as K.
    destruct (f w) as [r1 w1]. cbn [fst snd] in *. subst r1.
    pose proof (IH w1 r ltac:(lia) K) as K2.
    destruct (list_of_range_allocates n w1) as (B1 & _).
    destruct (list_of_range n f w1) as [r2 w2]. cbn [fst snd] in *. subst r2.
    exact K2.
Qed.

Lemma list_of_range_makes (n : nat) :
  forall (w : World) (r : ref),
    In r (seq (Heap_next (heap w)) n) -> Q (snd (list_of_range n f w)) r.
Proof.
  induction n as [| n IH]; intros w r Hr.
  - destruct Hr.
  - unfold list_of_range; fold (@list_of_range ref). unfold bind.
    destruct (f_allocates w) as (A1 & A2 & A3).
    pose proof (f_makes w) as K.
    destruct (f w) as [r1 w1] eqn:E. cbn [fst snd] in *. subst r1.
    pose proof (list_of_range_keeps n w1 (Heap_next (heap w)) ltac:(lia) K) as K1.
    pose proof (IH w1 r) as K2. rewrite A2 in K2.
    destruct (list_of_range_allocates n w1) as (B1 & _).
    destruct (list_of_range n f w1) as [r2 w2]. cbn [fst snd] in *. subst r2.
    cbn [seq] in Hr. destruct Hr as [<- | Hr]; [exact K1 | exact (K2 Hr)].
Qed.

End Constructed.

Lemma reset_game_objects_run (w : World) :
  let next := Heap_next (heap w) in
  let no := obstacle_count (Game_level (self w)) in
  let nc := coin_count (Game_level (self w)) in
  let w' := snd (Game.reset_game_objects w) in
  fst (Game.reset_game_objects w) = Ok tt /\
  self w' = set_Game_particles [] (set_Game_power_ups []
              (set_Game_coins (seq (next + no) nc)
                 (set_Game_obstacles (seq next no) (self w)))) /\
  Heap_next (heap w') = (next + no + nc)%nat /\
  (forall r, In r (seq next no) -> new_obstacle (Heap_obstacles (heap w') r)) /\
  (forall r, In r (seq (next + no) nc) -> new_coin (Heap_coins (heap w') r)).
Proof.
  intros next no nc. unfold obstacle_count, coin_count in no, nc.
  unfold Game.reset_game_objects. cbn. fold no.
  pose (QO := fun (w : World) (r : ref) => new_obstacle (Heap_obstacles (heap w) r)).
  pose (QC := fun (w : World) (r : ref) => new_coin (Heap_coins (heap w) r)).
  assert (FO : forall w0, fst (Obstacle.__init__ w0) = Ok (Heap_next (heap w0)) /\
                          Heap_next (heap (snd (Obstacle.__init__ w0))) = S (Heap_next (heap w0)) /\
                          self (snd (Obstacle.__init__ w0)) = self w0).
  { intros w0. destruct (Obstacle_init_run w0) as (A & B & C & _). auto. }
  assert (FC : forall w0, fst (Coin.__init__ w0) = Ok (Heap_next (heap w0)) /\
                          Heap_next (heap (snd (Coin.__init__ w0))) = S (Heap_next (heap w0)) /\
                          self (snd (Coin.__init__ w0)) = self w0).
  { intros w0. destruct (Coin_init_run w0) as (A & B & C & _). auto. }
  destruct (list_of_range_allocates Obstacle.__init__ FO no w) as (A1 & A2 & A3).
  assert (MO : forall r, In r (seq next no) ->
                 QO (snd (list_of_range no Obstacle.__init__ w)) r).
  { apply (list_of_range_makes Obstacle.__init__ QO FO).
    - intros w0 r Hr HQ. unfold QO in *.
      destruct (Obstacle_init_run w0) as (_ & _ & _ & _ & E & _).
      now rewrite E.
    - intros w0. destruct (Obstacle_init_run w0) as (_ & _ & _ & D & _). exact D. }
  destruct (list_of_range no Obstacle.__init__ w) as [r1 w1].
  cbn [fst snd] in *. subst r1. cbn. rewrite A3. fold nc.
  match goal with |- context [list_of_range nc Coin.__init__ ?w2] =>
    destruct (list_of_range_allocates Coin.__init__ FC nc w2) as (B1 & B2 & B3);
    assert (MC : forall r, In r (seq (Heap_next (heap w2)) nc) ->
                   QC (snd (list_of_range nc Coin.__init__ w2)) r);
    [ apply (list_of_range_makes Coin.__init__ QC FC);
      [ intros w0 r Hr HQ; unfold QC in *;
        destruct (Coin_init_run w0) as (_ & _ & _ & _ & E & _); now rewrite E
      | intros w0; destruct (Coin_init_run w0) as (_ & _ & _ & D & _); exact D ]
    | assert (KO : forall r, (r < Heap_next (heap w2))%nat -> QO w2 r ->
                     QO (snd (list_of_range nc Coin.__init__ w2)) r);
      [ apply (list_of_range_keeps Coin.__init__ QO FC);
        intros w0 r Hr HQ; unfold QO in *;
        destruct (Coin_init_run w0) as (_ & _ & _ & _ & _ & E & _); now rewrite E
      | destruct (list_of_range nc Coin.__init__ w2) as [r2 w3] ] ]
  end.
  cbn [fst snd heap self set_self] in *. subst r2. cbn.
  rewrite B3. rewrite A2 in *. subst next.
  split; [reflexivity |]. split; [reflexivity |]. split; [lia |]. split.
  - intros r Hr. apply KO; [apply in_seq in Hr; lia | apply MO, Hr].
  - exact MC.
Qed.

(** [reset_game_objects] never raises: it makes [min(3 + level // 2, 5)]
    new obstacles and [min(2 + level // 3, 5)] new coins, all as their
    constructors make them (the obstacles at speed 5 again), empties the
    lists of power-ups and particles, and leaves the rest of the game. *)
Theorem reset_game_objects_makes_the_objects_of_the_level (w : World) :
  let next := Heap_next (heap w) in
  let no := Z.to_nat (Z.min (3 + Game_level (self w) / 2) 5) in
  let nc := Z.to_nat (Z.min (2 + Game_level (self w) / 3) 5) in
  let w' := snd (Game.reset_game_objects w) in
  fst (Game.reset_game_objects w) = Ok tt /\
  self w' = set_Game_particles [] (set_Game_power_ups []
              (set_Game_coins (seq (next + no) nc)
                 (set_Game_obstacles (seq next no) (self w)))) /\
  (forall r, In r (Game_obstacles (self w')) ->
     new_obstacle (Heap_obstacles (heap w') r)) /\
  (forall r, In r (Game_coins (self w')) -> new_coin (Heap_coins (heap w') r)).
Proof.
  destruct (reset_game_objects_run w) as (A & B & _ & C & D).
  cbv zeta. rewrite B. cbn.
  split; [exact A |]. split; [reflexivity |]. split; [exact C | exact D].
Qed.

(** ** Programs that keep an invariant and raise only what they may *)

Section Sound.

Variable ok : exn -> Prop.
Variable I : World -> Prop.

Lemma sound_ret {A : Type} (a : A) : sound ok I (ret a).
Proof. intros w H. split; [exact H | exact Logic.I]. Qed.

Lemma sound_raise {A : Type} (e : exn) : ok e -> sound ok I (@raise A e).
Proof. intros He w H. split; [exact H | exact He]. Qed.

Lemma sound_gets {A : Type} (f : World -> A) : sound ok I (gets f).
Proof. intros w H. split; [exact H | exact Logic.I]. Qed.

Lemma sound_modify (f : World -> World) :
  (forall w, I w -> I (f w)) -> sound ok I (modify f).
Proof. intros F w H. split; [apply F, H | exact Logic.I]. Qed.

Lemma sound_bind {A B : Type} (m : M A) (k : A -> M B) :
  sound ok I m -> (forall a, sound ok I (k a)) -> sound ok I (bind m k).
Proof.
  intros Hm Hk w H. specialize (Hm w H). unfold bind.
  destruct (m w) as [[a | e] w1]; cbn [fst snd] in *.
  - apply Hk, Hm.
  - exact Hm.
Qed.

Lemma sound_when (b : bool) (m : M unit) : sound ok I m -> sound ok I (when b m).
Proof. intros Hm. destruct b; [exact Hm | apply sound_ret]. Qed.

Lemma sound_for_each {A : Type} (l : list A) (body : A -> M unit) :
  (forall a, sound ok I (body a)) -> sound ok I (for_each l body).
Proof.
  intros Hb. induction l as [| a l IH]; [apply sound_ret |].
  apply sound_bind; [apply Hb | intros _; exact IH].
Qed.

Lemma sound_for_range (n : nat) (body : M unit) :
  sound ok I body -> sound ok I (for_range n body).
Proof.
  intros Hb. induction n as [| n IH]; [apply sound_ret |].
  apply sound_bind; [exact Hb | intros _; exact IH].
Qed.

Lemma sound_list_of_range {A : Type} (n : nat) (f : M A) :
  sound ok I f -> sound ok I (list_of_range n f).
Proof.
  intros Hf. induction n as [| n IH]; [apply sound_ret |].
  apply sound_bind; [exact Hf | intros a].
  apply sound_bind; [exact IH | intros l; apply sound_ret].
Qed.

Lemma sound_of_keeps_total {A : Type} (m : M A) :
  keeps I m -> total m -> sound ok I m.
Proof.
  intros K T w H. split; [apply K, H |].
  destruct (T w) as [a Ha]. now rewrite Ha.
Qed.

(** A loop over a list of the game whose body may take the object it
    visits off the list: [R l] relates what is left to visit to the world. *)
Variable R : list ref -> World -> Prop.
Variable body : ref -> M unit.

Hypothesis body_sound : forall (a : ref) (l : list ref) (w : World),
  I w -> R (a :: l) w ->
  I (snd (body a w)) /\ R l (snd (body a w)) /\
  match fst (body a w) with
  | Ok _ => True
  | Raise x => ok x
  end.

Lemma sound_loop (l : list ref) :
  forall w : World, I w -> R l w ->
    I (snd (for_each l body w)) /\
    match fst (for_each l body w) with
    | Ok _ => True
    | Raise x => ok x
    end.
Proof.
  induction l as [| a l IH]; intros w H HR; [split; [exact H | exact Logic.I] |].
  unfold for_each; fold (@for_each ref). unfold bind.
  destruct (body_sound a l w H HR) as (H1 & R1 & O1).
  destruct (body a w) as [[[] | e] w1]; cbn [fst snd] in *.
  - apply IH; assumption.
  - split; assumption.
Qed.

End Sound.

Lemma sound_try_except (ok : exn -> Prop) (I : World -> Prop) {A : Type}
    (m : M A) (caught : exn -> bool) (h : M A) :
  sound (fun e => caught e = true \/ ok e) I m -> sound ok I h ->
  sound ok I (try_except m caught h).
Proof.
  intros Hm Hh w H. specialize (Hm w H). unfold try_except.
  destruct (m w) as [[a | e] w1]; cbn [fst snd] in *.
  - exact Hm.
  - destruct Hm as [H1 O1]. destruct (caught e) eqn:E.
    + apply Hh, H1.
    + split; [exact H1 |]. destruct O1 as [O1 | O1]; [discriminate | exact O1].
Qed.

Lemma keeps_of_sound (ok : exn -> Prop) (I : World -> Prop) {A : Type} (m : M A) :
  sound ok I m -> keeps I m.
Proof. intros S w H. apply S, H. Qed.

Ltac sound_step :=
  lazymatch goal with
  | |- sound _ _ (bind _ _) => apply sound_bind; [ | intro ]
  | |- sound _ _ (ret _) => apply sound_ret
  | |- sound _ _ (raise _) => apply sound_raise
  | |- sound _ _ (try_except _ _ _) => apply sound_try_except
  | |- sound _ _ (gets _) => apply sound_gets
  | |- sound _ _ (modify _) => apply sound_modify
  | |- sound _ _ (when _ _) => apply sound_when
  | |- sound _ _ (for_each _ _) => apply sound_for_each; intro
  | |- sound _ _ (for_range _ _) => apply sound_for_range
  | |- sound _ _ (list_of_range _ _) => apply sound_list_of_range
  | |- sound _ _ (if ?b then _ else _) => destruct b
  | |- sound _ _ (match ?x with _ => _ end) => destruct x
  | |- sound _ _ (let _ := _ in _) => cbv zeta
  | |- sound _ _ ?m => let h := head_of m in unfold h
  end.

(** ** The coins of the store stay as the program makes them *)

Section Coins.

Variable ok : exn -> Prop.

(** What else the invariant says does not look at the store, nor at the
    positions in the random source and the clock. *)
Variable J : World -> Prop.

Hypothesis J_blind : forall w w' : World,
  self w' = self w -> Env_fault (env w') = Env_fault (env w) -> J w -> J w'.

Let I (w : World) : Prop := coins_ok (fun _ => True) w /\ J w.

Lemma coin_put_sound (r : ref) (g : Coin -> Coin) :
  (forall c, coin_ok c -> coin_ok (g c)) ->
  sound ok I (c <- get_coin r ;; put_coin r (g c)).
Proof.
  intros Hg w [Hc HJ]. cbn. split; [| exact Logic.I]. split.
  - intros r' _. cbn. unfold upd. destruct (Nat.eqb r' r).
    + apply Hg, Hc, Logic.I.
    + apply Hc, Logic.I.
  - revert HJ. apply J_blind; reflexivity.
Qed.

Lemma call_coin_respawn_sound (r : ref) : sound ok I (call_coin r Coin.respawn).
Proof.
  intros w [Hc HJ].
  destruct (call_coin_respawn_run r w) as (c' & Hc' & E).
  { apply (Hc r Logic.I). }
  rewrite E. cbn [fst snd]. split; [| exact Logic.I]. split.
  - intros r' _. cbn. unfold upd. destruct (Nat.eqb r' r).
    + exact Hc'.
    + apply Hc, Logic.I.
  - revert HJ. apply J_blind; reflexivity.
Qed.

Lemma Coin_init_sound : sound ok I Coin.__init__.
Proof.
  intros w [Hc HJ]. unfold Coin.__init__, Coin.reset_position.
  cbn. rewrite randint_run by (unfold SCREEN_WIDTH; lia). cbn.
  split; [| exact Logic.I]. split.
  - intros r' _. cbn. unfold upd. destruct (Nat.eqb r' (Heap_next (heap w))).
    + split; [reflexivity | now left].
    + apply Hc, Logic.I.
  - revert HJ. apply J_blind; reflexivity.
Qed.

End Coins.

(** ** The game raises nothing but what saving the high score raises *)

Lemma PowerUp_init_total : total PowerUp.__init__.
Proof.
  intros w. exists (Heap_next (heap w)). apply PowerUp_init_run.
Qed.

Lemma append_particle_total (x y : Py.num) (color : Color) :
  total (Game.append_particle x y color).
Proof. intros w. exists tt. apply append_particle_run. Qed.

Lemma call_obstacle_respawn_total (r : ref) : total (call_obstacle r Obstacle.respawn).
Proof.
  intros w. destruct (call_obstacle_respawn_run r w) as (o' & _ & E).
  exists tt. now rewrite E.
Qed.

Lemma list_remove_keeps_others (a : ref) (l l' : list ref) (r : ref) :
  list_remove a l = Some l' -> In r l -> r <> a -> In r l'.
Proof.
  intros H Hin Hne. destruct (in_dec Nat.eq_dec r l') as [Hr | Hr]; [exact Hr |].
  exfalso. apply Hne. apply (list_remove_only _ _ _ _ H Hin Hr).
Qed.

Lemma count_head_In (a : ref) (l items : list ref) :
  (forall r, (count_occ Nat.eq_dec (a :: l) r <= count_occ Nat.eq_dec items r)%nat) ->
  exists l', list_remove a items = Some l'.
Proof.
  intros H. specialize (H a). cbn [count_occ] in H.
  destruct (Nat.eq_dec a a) as [_ | N]; [| congruence].
  assert (Hin : In a items) by (apply (count_occ_In Nat.eq_dec); lia).
  destruct (list_remove_In a items Hin) as (l1 & l2 & _ & _ & E).
  exists (l1 ++ l2). exact E.
Qed.

Ltac base_leaf :=
  let w := fresh "w" in
  let Hc := fresh "Hc" in
  let Hf := fresh "Hf" in
  let Hp := fresh "Hp" in
  intros w (Hc & Hf & Hp);
  split; [exact Hc | split; [exact Hf |]];
  first [ exact Hp
        | exact Player_init_in_reach
        | unfold player_in_reach, in_reach in *; cbn; exact Hp ].

Lemma base_blind (f : fault) (w w' : World) :
  self w' = self w -> Env_fault (env w') = Env_fault (env w) ->
  Env_fault (env w) = f /\ player_in_reach w ->
  Env_fault (env w') = f /\ player_in_reach w'.
Proof.
  intros Es Ef [Hf Hp]. unfold player_in_reach in *. rewrite Es, Ef. now split.
Qed.

Section Base.

Variable f : fault.

Let ok : exn -> Prop := saving_fails f.

Lemma Obstacle_init_base : sound ok (base f) Obstacle.__init__.
Proof.
  apply sound_of_keeps_total; [| apply Obstacle_init_total].
  repeat keeps_step; base_leaf.
Qed.

Lemma PowerUp_init_base : sound ok (base f) PowerUp.__init__.
Proof.
  apply sound_of_keeps_total; [| apply PowerUp_init_total].
  repeat keeps_step; base_leaf.
Qed.

Lemma append_particle_base (x y : Py.num) (color : Color) :
  sound ok (base f) (Game.append_particle x y color).
Proof.
  apply sound_of_keeps_total; [| apply append_particle_total].
  repeat keeps_step; base_leaf.
Qed.

Lemma call_obstacle_respawn_base (r : ref) :
  sound ok (base f) (call_obstacle r Obstacle.respawn).
Proof.
  apply sound_of_keeps_total; [| apply call_obstacle_respawn_total].
  repeat keeps_step; base_leaf.
Qed.

Lemma Player_update_base (keys : Keys) : sound ok (base f) (Player.update keys).
Proof.
  intros w (Hc & Hf & Hp). pose proof Hp as (Hs & Hw & Hm & Hx).
  rewrite (Player_update_run keys w Hs). cbn [fst snd].
  split; [| exact Logic.I]. split; [exact Hc | split; [exact Hf |]].
  unfold player_in_reach, in_reach. cbn.
  pose proof (moved_in_reach keys _ Hp). tauto.
Qed.

Lemma save_high_score_base : sound ok (base f) Game.save_high_score.
Proof.
  intros w (Hc & Hf & Hp). unfold Game.save_high_score. cbn. rewrite Hf.
  destruct f eqn:Ef; cbn.
  - split; [| exact Logic.I]. split; [exact Hc | split; [exact Hf | exact Hp]].
  - split; [split; [exact Hc | split; [exact Hf | exact Hp]] |].
    split; [reflexivity | congruence].
  - split; [split; [exact Hc | split; [exact Hf | exact Hp]] |].
    split; [reflexivity | congruence].
Qed.

Lemma update_power_ups_base : sound ok (base f) Game.update_power_ups.
Proof.
  intros w H. unfold Game.update_power_ups. cbn.
  apply (sound_loop ok (base f)
           (fun l w => forall r, (count_occ Nat.eq_dec l r
                                  <= count_occ Nat.eq_dec (Game_power_ups (self w)) r)%nat));
    [| exact H | intros r; lia].
  clear w H. intros a l w (Hc & Hf & Hp) HR. cbn. rewrite upd_same.
  destruct (PowerUp.is_off_screen (PowerUp.update (Heap_power_ups (heap w) a))); cbn.
  - unfold Game.remove_power_up. cbn.
    destruct (count_head_In a l _ HR) as (l' & Hrm). rewrite Hrm. cbn.
    split; [split; [exact Hc | split; [exact Hf | exact Hp]] |].
    split; [| exact Logic.I].
    intros r. specialize (HR r). rewrite (list_remove_count _ _ _ Hrm r) in HR.
    cbn [count_occ] in HR. destruct (Nat.eq_dec a r); lia.
  - split; [split; [exact Hc | split; [exact Hf | exact Hp]] |].
    split; [| exact Logic.I].
    intros r. specialize (HR r). cbn [count_occ] in HR.
    destruct (Nat.eq_dec a r); lia.
Qed.

Lemma update_particles_base : sound ok (base f) Game.update_particles.
Proof.
  intros w H. unfold Game.update_particles. cbn.
  apply (sound_loop ok (base f)
           (fun l w => forall r, (count_occ Nat.eq_dec l r
                                  <= count_occ Nat.eq_dec (Game_particles (self w)) r)%nat));
    [| exact H | intros r; lia].
  clear w H. intros a l w (Hc & Hf & Hp) HR. cbn. rewrite upd_same.
  destruct (Particle.is_dead (Particle.update (Heap_particles (heap w) a))); cbn.
  - unfold Game.remove_particle. cbn.
    destruct (count_head_In a l _ HR) as (l' & Hrm). rewrite Hrm. cbn.
    split; [split; [exact Hc | split; [exact Hf | exact Hp]] |].
    split; [| exact Logic.I].
    intros r. specialize (HR r). rewrite (list_remove_count _ _ _ Hrm r) in HR.
    cbn [count_occ] in HR. destruct (Nat.eq_dec a r); lia.
  - split; [split; [exact Hc | split; [exact Hf | exact Hp]] |].
    split; [| exact Logic.I].
    intros r. specialize (HR r). cbn [count_occ] in HR.
    destruct (Nat.eq_dec a r); lia.
Qed.

(** The pass of [check_collisions] over the power-ups: one that is not yet
    collected is still on the list when its turn comes. *)
Lemma collect_power_ups_base :
  sound ok (base f)
    (g <- get_self ;;
     for_each (Game_power_ups g) (fun power_up =>
       p <- Player.this ;;
       u <- get_power_up power_up ;;
       when ((Player_x p <? PowerUp_x u + PowerUp_width u)
             && (PowerUp_x u <? Player_x p + Player_width p)
             && (Player_y p <? PowerUp_y u + PowerUp_height u)
             && (PowerUp_y u <? Player_y p + Player_height p)
             && negb (PowerUp_collected u))
         (Game.handle_powerup_collection power_up))).
Proof.
  intros w H. cbn.
  apply (sound_loop ok (base f)
           (fun l w => forall r, In r l ->
              PowerUp_collected (Heap_power_ups (heap w) r) = false ->
              In r (Game_power_ups (self w))));
    [| exact H | intros r Hr _; exact Hr].
  clear w H. intros a l w (Hc & Hf & Hp) HR. cbn.
  assert (Hrest : forall r, In r l ->
            PowerUp_collected (Heap_power_ups (heap w) r) = false ->
            In r (Game_power_ups (self w))).
  { intros r Hr. apply HR. now right. }
  match goal with |- context [if ?b then _ else _] => destruct b eqn:Eb end; cbn;
    [| split; [split; [exact Hc | split; [exact Hf | exact Hp]] |];
       split; [exact Hrest | exact Logic.I] ].
  apply andb_prop in Eb. destruct Eb as [_ Eb]. apply negb_true_iff in Eb.
  destruct (list_remove_In a (Game_power_ups (self w)) (HR a (or_introl eq_refl) Eb))
    as (l1 & l2 & _ & _ & Hrm).
  unfold Game.handle_powerup_collection, Game.remove_power_up. cbn.
  rewrite upd_same. cbn.
  assert (Hkeep : forall r, In r l ->
            PowerUp_collected
              (upd a (set_PowerUp_collected true (Heap_power_ups (heap w) a))
                 (Heap_power_ups (heap w)) r) = false ->
            In r (l1 ++ l2)).
  { intros r Hr Hcol. unfold upd in Hcol. destruct (Nat.eqb r a) eqn:Era.
    - cbn in Hcol. discriminate.
    - apply Nat.eqb_neq in Era.
      apply (list_remove_keeps_others a _ _ r Hrm); [apply Hrest; assumption | exact Era]. }
  repeat match goal with
         | |- context [if String.eqb ?x ?y then _ else _] => destruct (String.eqb x y)
         end;
    cbn; rewrite Hrm; cbn;
    (split; [split; [exact Hc | split; [exact Hf | exact Hp]] |];
     split; [exact Hkeep | exact Logic.I]).
Qed.

End Base.

Ltac base_step :=
  lazymatch goal with
  | |- sound _ (base ?f) (Player.update ?keys) => apply (Player_update_base f keys)
  | |- sound _ (base ?f) Game.update_power_ups => apply (update_power_ups_base f)
  | |- sound _ (base ?f) Game.update_particles => apply (update_particles_base f)
  | |- sound _ (base ?f) Game.save_high_score => apply (save_high_score_base f)
  | |- sound _ (base ?f) Obstacle.__init__ => apply (Obstacle_init_base f)
  | |- sound _ (base ?f) PowerUp.__init__ => apply (PowerUp_init_base f)
  | |- sound _ (base ?f) (Game.append_particle _ _ _) => apply (append_particle_base f)
  | |- sound _ (base ?f) (call_obstacle _ Obstacle.respawn) =>
      apply (call_obstacle_respawn_base f)
  | |- sound ?ok (base ?f) (call_coin ?r Coin.respawn) =>
      apply (call_coin_respawn_sound ok
               (fun w => Env_fault (env w) = f /\ player_in_reach w) (base_blind f) r)
  | |- sound ?ok (base ?f) Coin.__init__ =>
      apply (Coin_init_sound ok
               (fun w => Env_fault (env w) = f /\ player_in_reach w) (base_blind f))
  | |- sound ?ok (base ?f) (bind (get_coin ?r) (fun c => put_coin ?r (@?g c))) =>
      apply (coin_put_sound ok
               (fun w => Env_fault (env w) = f /\ player_in_reach w) (base_blind f) r g);
      let c := fresh "c" in
      let H := fresh "H" in
      intros c H; exact H
  | |- _ => sound_step
  end.

Ltac base_auto := repeat base_step; try base_leaf.

Lemma reset_game_base (f : fault) : sound (saving_fails f) (base f) Game.reset_game.
Proof. base_auto. Qed.

Lemma check_collisions_base (f : fault) :
  sound (saving_fails f) (base f) Game.check_collisions.
Proof.
  unfold Game.check_collisions.
  apply sound_bind; [base_auto | intros _].
  apply sound_bind; [apply collect_power_ups_base | intros _].
  base_auto.
Qed.

Lemma update_base (f : fault) (keys : Keys) :
  sound (saving_fails f) (base f) (Game.update keys).
Proof.
  repeat lazymatch goal with
         | |- sound _ _ Game.check_collisions => apply check_collisions_base
         | |- _ => base_step
         end;
    base_leaf.
Qed.

Lemma sound_bind_assoc (ok : exn -> Prop) (I : World -> Prop) {A B C : Type}
    (m : M A) (k1 : A -> M B) (k2 : B -> M C) :
  sound ok I (bind (bind m k1) k2) ->
  sound ok I (bind m (fun a => bind (k1 a) k2)).
Proof.
  intros S w H. specialize (S w H). unfold bind in *.
  destruct (m w) as [[a | e] w1]; exact S.
Qed.

Lemma sound_of_keeps (I : World -> Prop) {A : Type} (m : M A) :
  keeps I m -> sound (fun _ => True) I m.
Proof.
  intros K w H. split; [apply K, H |]. destruct (fst (m w)); exact Logic.I.
Qed.

(** What the menus and the frames keep, given what a new game and an
    update keep. *)
Section Frames.

Variable ok : exn -> Prop.
Variable I : World -> Prop.

Hypothesis start_sound :
  sound ok I (modify_self (set_Game_state PLAYING) ;; Game.reset_game).

Hypothesis state_kept : forall (s : Z) (w : World),
  s = MENU \/ s = SETTINGS -> I w -> I (set_self (set_Game_state s (self w)) w).

Hypothesis dark_mode_kept : forall (b : bool) (w : World),
  I w -> I (set_self (set_Game_dark_mode b (self w)) w).

Hypothesis update_sound : forall keys : Keys, sound ok I (Game.update keys).

Lemma handle_events_sound (events : list event) :
  sound ok I (Game.handle_events events).
Proof.
  induction events as [| ev events IH]; [apply sound_ret |].
  cbn [Game.handle_events]. destruct ev as [| k |].
  - apply sound_ret.
  - apply sound_bind; [apply sound_gets | intros g].
    destruct (Game_state g =? MENU).
    { destruct k; try exact IH.
      - apply sound_bind_assoc. apply sound_bind; [exact start_sound | intros _; exact IH].
      - apply sound_bind; [| intros _; exact IH].
        apply sound_modify. intros w. apply state_kept. now right.
      - apply sound_ret. }
    destruct (Game_state g =? GAME_OVER).
    { destruct k; try exact IH.
      apply sound_bind; [| intros _; exact IH].
      apply sound_modify. intros w. apply state_kept. now left. }
    destruct (Game_state g =? SETTINGS); [| exact IH].
    destruct k; try exact IH.
    + apply sound_bind; [| intros _; exact IH].
      apply sound_modify. intros w. apply dark_mode_kept.
    + apply sound_bind; [| intros _; exact IH].
      apply sound_modify. intros w. apply state_kept. now left.
  - exact IH.
Qed.

Lemma run_sound (frames : list (list event * Keys)) : sound ok I (Game.run frames).
Proof.
  induction frames as [| [events keys] frames IH]; [apply sound_ret |].
  cbn [Game.run].
  apply sound_bind; [apply handle_events_sound | intros running].
  apply sound_bind; [apply update_sound | intros _].
  destruct running; [exact IH | apply sound_ret].
Qed.

End Frames.

(** [Game()] comes to [reset_game_objects] with the game in the menu, at
    score 0, level 1, one life; it cannot have raised before. *)
Lemma init_run (int_of_unicode : string -> option Z) (e : Env) :
  exists h : Z,
    Game.__init__ int_of_unicode (boot e)
    = Game.reset_game_objects (before_objects h e).
Proof.
  unfold Game.__init__, Game.load_high_score. cbn.
  destruct (Env_highscore_txt e) as [s |]; cbn.
  - destruct (int_of_text int_of_unicode s) as [n |]; cbn;
      eexists; reflexivity.
  - eexists; reflexivity.
Qed.

Lemma reached_run (int_of_unicode : string -> option Z) (e : Env)
    (frames : list (list event * Keys)) :
  exists h : Z,
    (Game.__init__ int_of_unicode ;; Game.run frames) (boot e)
    = (Game.reset_game_objects ;; Game.run frames) (before_objects h e).
Proof.
  destruct (init_run int_of_unicode e) as [h E]. exists h.
  unfold bind. now rewrite E.
Qed.

(** [Game()] does not raise: it leaves the game in the menu, at score 0,
    level 1, with one life, dark colours, a new player, 3 new obstacles
    and 2 new coins, no power-up and no particle, and with the high score
    that [load_high_score] returns; the file is as it was. *)
Theorem Game_init_sets_up_the_menu (int_of_unicode : string -> option Z) (e : Env) :
  let w' := snd (Game.__init__ int_of_unicode (boot e)) in
  exists h : Z,
    fst (Game.load_high_score int_of_unicode (boot e)) = Ok h /\
    fst (Game.__init__ int_of_unicode (boot e)) = Ok tt /\
    self w' = {| Game_state := MENU; Game_player := Player.__init__;
                 Game_obstacles := seq 0 3; Game_coins := seq 3 2;
                 Game_power_ups := []; Game_particles := [];
                 Game_score := 0; Game_high_score := h;
                 Game_level := 1; Game_lives := 1; Game_dark_mode := true |} /\
    (forall r, In r (seq 0 3) -> new_obstacle (Heap_obstacles (heap w') r)) /\
    (forall r, In r (seq 3 2) -> new_coin (Heap_coins (heap w') r)) /\
    Env_highscore_txt (env w') = Env_highscore_txt e /\
    Env_fault (env w') = Env_fault e.
Proof.
  cbv zeta.
  assert (E : exists h : Z,
            fst (Game.load_high_score int_of_unicode (boot e)) = Ok h /\
            Game.__init__ int_of_unicode (boot e)
            = Game.reset_game_objects (before_objects h e)).
  { unfold Game.__init__, Game.load_high_score. cbn.
    destruct (Env_highscore_txt e) as [s |]; cbn.
    - destruct (int_of_text int_of_unicode s) as [n |]; cbn;
        eexists; split; reflexivity.
    - eexists; split; reflexivity. }
  destruct E as (h & L & E). exists h. split; [exact L |]. rewrite E.
  destruct (reset_game_objects_run (before_objects h e)) as (R & B & _ & O & C).
  assert (K : keeps (fun w => Env_highscore_txt (env w) = Env_highscore_txt e /\
                             Env_fault (env w) = Env_fault e)
                Game.reset_game_objects).
  { repeat keeps_step; intros w H; exact H. }
  split; [exact R |]. split; [rewrite B; reflexivity |].
  split; [exact O |]. split; [exact C |].
  apply (K (before_objects h e)). split; reflexivity.
Qed.

Lemma before_objects_base (h : Z) (e : Env) : base (Env_fault e) (before_objects h e).
Proof.
  split; [| split].
  - intros r _. split; [reflexivity | now left].
  - reflexivity.
  - exact Player_init_in_reach.
Qed.

Lemma game_base (f : fault) (frames : list (list event * Keys)) :
  sound (saving_fails f) (base f) (Game.reset_game_objects ;; Game.run frames).
Proof.
  apply sound_bind; [base_auto | intros _].
  apply run_sound.
  - base_auto.
  - intros s w _. revert w. base_leaf.
  - intros b. base_leaf.
  - apply update_base.
Qed.

(** [Game()] and then [handle_events] and [update], frame after frame as
    [run] calls them, raise no exception but the [OSError] of a failing
    write of the high score, whatever the events, the keys, the random
    source, the clock and the text of the file: no [ValueError] from
    [remove], [randint] or [int], no [IndexError] from [choice], no
    [KeyError] from [set_color].  (Drawing is not part of the model, and
    reading the file fails only when there is no file.) *)
Theorem game_raises_only_when_saving_fails
    (int_of_unicode : string -> option Z) (e : Env)
    (frames : list (list event * Keys)) :
  let res := (Game.__init__ int_of_unicode ;; Game.run frames) (boot e) in
  fst res = Ok tt \/ (fst res = Raise OSError /\ Env_fault e <> NoFault).
Proof.
  destruct (reached_run int_of_unicode e frames) as [h E]. cbv zeta. rewrite E.
  destruct (game_base (Env_fault e) frames (before_objects h e)
              (before_objects_base h e)) as [_ O].
  destruct (fst ((Game.reset_game_objects ;; Game.run frames) (before_objects h e)))
    as [[] | x].
  - now left.
  - right. destruct O as [-> O]. split; [reflexivity | exact O].
Qed.

(** ** The level follows the score *)

Lemma score_blind (w w' : World) :
  self w' = self w -> Env_fault (env w') = Env_fault (env w) ->
  0 <= Game_score (self w) /\ level_matches_score w ->
  0 <= Game_score (self w') /\ level_matches_score w'.
Proof.
  intros Es _ H. unfold level_matches_score in *. now rewrite Es.
Qed.

Lemma handle_coin_collection_score (coin : ref) :
  sound anything score_ok (Game.handle_coin_collection coin).
Proof.
  intros w (Hc & Hs & Hl).
  destruct (handle_coin_collection_run (fun _ => True) coin w Logic.I Hc)
    as (R & Hc' & Hs' & Hl').
  rewrite R. split; [| exact Logic.I].
  destruct (Hc coin Logic.I) as [_ Hv].
  unfold score_ok, level_matches_score in *.
  split; [exact Hc' |]. rewrite Hl', Hs'.
  destruct (Z.ltb_spec (Game_level (self w) - 1)
              ((Game_score (self w) + Coin_value (Heap_coins (heap w) coin)) / 10));
    destruct Hv as [Hv | Hv]; rewrite Hv in *; rewrite Hl in *; clear Hl;
    split; try lia; Z.div_mod_to_equations; lia.
Qed.

Lemma reset_game_score : sound anything score_ok Game.reset_game.
Proof.
  intros w (Hc & Hs & Hl). unfold Game.reset_game. cbn.
  match goal with |- context [Game.reset_game_objects ?w1] =>
    pose proof (reset_game_objects_keeps_scoring (fun _ => True) 0 1 w1) as K;
    destruct (reset_game_objects_total w1) as [[] T];
    destruct (Game.reset_game_objects w1) as [r w2]
  end.
  cbn [fst snd] in *. subst r. split; [| exact Logic.I].
  destruct K as (Kc & Ks & Kl).
  - split; [exact Hc | split; reflexivity].
  - unfold score_ok, level_matches_score. rewrite Ks, Kl.
    split; [exact Kc | split; [lia | reflexivity]].
Qed.

Ltac score_leaf :=
  lazymatch goal with
  | |- anything _ => exact Logic.I
  | |- _ =>
      let w := fresh "w" in
      let Hc := fresh "Hc" in
      let Hs := fresh "Hs" in
      let Hl := fresh "Hl" in
      intros w (Hc & Hs & Hl);
      split; [exact Hc | split; [exact Hs | exact Hl]]
  end.

Ltac score_step :=
  lazymatch goal with
  | |- sound _ score_ok (Game.handle_coin_collection ?coin) =>
      apply (handle_coin_collection_score coin)
  | |- sound _ score_ok Game.reset_game => apply reset_game_score
  | |- sound ?ok score_ok (call_coin ?r Coin.respawn) =>
      apply (call_coin_respawn_sound ok
               (fun w => 0 <= Game_score (self w) /\ level_matches_score w) score_blind r)
  | |- sound ?ok score_ok (bind (get_coin ?r) (fun c => put_coin ?r (@?g c))) =>
      apply (coin_put_sound ok
               (fun w => 0 <= Game_score (self w) /\ level_matches_score w) score_blind r g);
      let c := fresh "c" in
      let H := fresh "H" in
      intros c H; exact H
  | |- _ => sound_step
  end.

Lemma update_score (keys : Keys) : sound anything score_ok (Game.update keys).
Proof. repeat score_step; score_leaf. Qed.

Lemma run_score (frames : list (list event * Keys)) :
  sound anything score_ok (Game.run frames).
Proof.
  apply run_sound.
  - repeat score_step; score_leaf.
  - intros s w _. revert w. score_leaf.
  - intros b. score_leaf.
  - apply update_score.
Qed.

Lemma level_reached (int_of_unicode : string -> option Z) (e : Env)
    (frames : list (list event * Keys)) :
  let w := reached int_of_unicode e frames in
  0 <= Game_score (self w) /\
  Game_level (self w) = 1 + Game_score (self w) / 10.
Proof.
  unfold reached.
  destruct (reached_run int_of_unicode e frames) as [h E]. cbv zeta. rewrite E.
  unfold bind.
  pose proof (reset_game_objects_keeps_scoring (fun _ => True) 0 1
                (before_objects h e)) as K.
  destruct (reset_game_objects_total (before_objects h e)) as [[] T].
  destruct (Game.reset_game_objects (before_objects h e)) as [r w1].
  cbn [fst snd] in *. subst r.
  destruct K as (Kc & Ks & Kl).
  { split; [| split; reflexivity]. intros r _. split; [reflexivity | now left]. }
  destruct (run_score frames w1) as [(_ & A & B) _].
  - unfold score_ok, level_matches_score. rewrite Ks, Kl.
    split; [exact Kc | split; [lia | reflexivity]].
  - split; [exact A | exact B].
Qed.

(** In every state that a game reaches the score is not negative and the
    level is [1 + score // 10]: a coin is worth 1 or 5, so that no
    collection takes the score over two multiples of 10, and a new game
    starts at score 0 and level 1. *)
Theorem level_follows_score_in_every_state
    (int_of_unicode : string -> option Z) (e : Env)
    (frames : list (list event * Keys)) :
  let w := reached int_of_unicode e frames in
  0 <= Game_score (self w) /\
  Game_level (self w) = 1 + Game_score (self w) / 10.
Proof. exact (level_reached int_of_unicode e frames). Qed.

(** ** The numbers of objects *)

Lemma list_remove_length (a : ref) (l l' : list ref) :
  list_remove a l = Some l' -> List.length l = S (List.length l').
Proof.
  intros H. destruct (in_dec Nat.eq_dec a l) as [Hin | Hout].
  - destruct (list_remove_In a l Hin) as (l1 & l2 & E & _ & R).
    rewrite H in R. injection R as ->. rewrite E.
    rewrite !length_app. cbn. lia.
  - exfalso. revert l' H. induction l as [| b l IH]; intros l' H; [discriminate |].
    cbn [list_remove] in H. destruct (Nat.eqb b a) eqn:E.
    + apply Nat.eqb_eq in E. apply Hout. now left.
    + destruct (list_remove a l) as [l1 |] eqn:R; [| discriminate].
      apply (IH (fun A => Hout (or_intror A)) l1 eq_refl).
Qed.

Lemma reset_game_objects_counts (w : World) :
  counts_ok (snd (Game.reset_game_objects w)) /\
  fst (Game.reset_game_objects w) = Ok tt.
Proof.
  destruct (reset_game_objects_run w) as (A & B & _).
  split; [| exact A]. unfold counts_ok. rewrite B. cbn.
  rewrite !length_seq. repeat split. lia.
Qed.

Lemma level_up_counts : sound anything counts_ok Game.level_up.
Proof.
  intros w _. unfold Game.level_up. cbn.
  match goal with |- context [Game.reset_game_objects ?w1] =>
    destruct (reset_game_objects_counts w1) as [C R]
  end.
  rewrite R. split; [exact C | exact Logic.I].
Qed.

Lemma reset_game_counts : sound anything counts_ok Game.reset_game.
Proof.
  intros w _. unfold Game.reset_game. cbn.
  match goal with |- context [Game.reset_game_objects ?w1] =>
    destruct (reset_game_objects_counts w1) as [C R]
  end.
  rewrite R. split; [exact C | exact Logic.I].
Qed.

Lemma spawn_power_up_counts : sound anything counts_ok Game.spawn_power_up.
Proof.
  intros w (A & B & C). unfold Game.spawn_power_up, random. cbn.
  match goal with |- context [if ?b then _ else _] => destruct b eqn:E end; cbn.
  - apply andb_prop in E. destruct E as [_ E]. apply Z.ltb_lt in E.
    match goal with |- context [PowerUp.__init__ ?w1] =>
      destruct (PowerUp_init_run w1) as (P1 & _ & P3 & _);
      destruct (PowerUp.__init__ w1) as [r w2]
    end.
    cbn [fst snd] in *. subst r. cbn. rewrite P3. cbn.
    split; [| exact Logic.I].
    split; [exact A | split; [exact B |]].
    cbn. rewrite length_app. cbn. lia.
  - split; [| exact Logic.I]. split; [exact A | split; [exact B | exact C]].
Qed.

Lemma remove_power_up_counts (r : ref) :
  sound anything counts_ok (Game.remove_power_up r).
Proof.
  intros w (A & B & C). unfold Game.remove_power_up. cbn.
  destruct (list_remove r (Game_power_ups (self w))) as [l' |] eqn:E; cbn.
  - split; [| exact Logic.I]. split; [exact A | split; [exact B |]].
    apply list_remove_length in E. cbn. lia.
  - split; [| exact Logic.I]. split; [exact A | split; [exact B | exact C]].
Qed.

Ltac counts_leaf :=
  lazymatch goal with
  | |- anything _ => exact Logic.I
  | |- _ =>
      let w := fresh "w" in
      let H := fresh "H" in
      intros w H; exact H
  end.

Ltac counts_step :=
  lazymatch goal with
  | |- sound _ counts_ok Game.level_up => apply level_up_counts
  | |- sound _ counts_ok Game.reset_game => apply reset_game_counts
  | |- sound _ counts_ok Game.spawn_power_up => apply spawn_power_up_counts
  | |- sound _ counts_ok (Game.remove_power_up ?r) => apply (remove_power_up_counts r)
  | |- _ => sound_step
  end.

Lemma update_counts (keys : Keys) : sound anything counts_ok (Game.update keys).
Proof. repeat counts_step; counts_leaf. Qed.

Lemma run_counts (frames : list (list event * Keys)) :
  sound anything counts_ok (Game.run frames).
Proof.
  apply run_sound.
  - repeat counts_step; counts_leaf.
  - intros s w _ H. exact H.
  - intros b w H. exact H.
  - apply update_counts.
Qed.

(** In every state that a game reaches there are [min(3 + level // 2, 5)]
    obstacles and [min(2 + level // 3, 5)] coins, hence never more than 5
    of each, and at most 2 power-ups. *)
Theorem numbers_of_objects_follow_level
    (int_of_unicode : string -> option Z) (e : Env)
    (frames : list (list event * Keys)) :
  let w := reached int_of_unicode e frames in
  Z.of_nat (List.length (Game_obstacles (self w)))
    = Z.min (3 + Game_level (self w) / 2) 5 /\
  Z.of_nat (List.length (Game_coins (self w)))
    = Z.min (2 + Game_level (self w) / 3) 5 /\
  (List.length (Game_power_ups (self w)) <= 2)%nat.
Proof.
  destruct (level_reached int_of_unicode e frames) as [Hs Hl].
  unfold reached in *.
  destruct (reached_run int_of_unicode e frames) as [h E]. cbv zeta in *.
  rewrite E in *. unfold bind in *.
  destruct (reset_game_objects_counts (before_objects h e)) as [C R].
  destruct (Game.reset_game_objects (before_objects h e)) as [r w1].
  cbn [fst snd] in *. subst r.
  destruct (run_counts frames w1 C) as [(A & B & D) _].
  set (w := snd (Game.run frames w1)) in *.
  unfold obstacle_count, coin_count in *.
  assert (0 <= Game_level (self w) / 2) by (Z.div_mod_to_equations; lia).
  assert (0 <= Game_level (self w) / 3) by (Z.div_mod_to_equations; lia).
  split; [rewrite A; lia | split; [rewrite B; lia | exact D]].
Qed.

(** ** Lives *)

Lemma handle_obstacle_collision_alive (obstacle : ref) :
  sound anything alive_while_playing (Game.handle_obstacle_collision obstacle).
Proof.
  intros w H. unfold Game.handle_obstacle_collision. cbn.
  destruct (Player_shield (Game_player (self w))); cbn.
  - match goal with |- context [call_obstacle obstacle Obstacle.respawn ?w1] =>
      destruct (call_obstacle_respawn_run obstacle w1) as (o' & _ & E)
    end.
    rewrite E. cbn.
    match goal with |- context [Game.burst CYAN ?w2] =>
      destruct (burst_run CYAN w2) as [R A];
      destruct (Game.burst CYAN w2) as [r w3]
    end.
    cbn [fst snd] in *. subst r. split; [| exact Logic.I].
    unfold alive_while_playing. rewrite (appended_self _ _ _ _ _ _ A). cbn. exact H.
  - match goal with |- context [call_obstacle obstacle Obstacle.respawn ?w1] =>
      destruct (call_obstacle_respawn_run obstacle w1) as (o' & _ & E)
    end.
    rewrite E. cbn.
    destruct (Z.leb_spec (Game_lives (self w) - 1) 0) as [L | L].
    + match goal with |- context [Game.game_over ?w2] =>
        destruct (game_over_frame w2) as (S & _)
      end.
      split; [| destruct (fst _); exact Logic.I].
      intros P. rewrite S in P. discriminate P.
    + match goal with |- context [Game.burst RED ?w2] =>
        destruct (burst_run RED w2) as [R A];
        destruct (Game.burst RED w2) as [r w3]
      end.
      cbn [fst snd] in *. subst r. split; [| exact Logic.I].
      unfold alive_while_playing. rewrite (appended_self _ _ _ _ _ _ A). cbn.
      intros _. lia.
Qed.

Lemma start_alive :
  sound anything alive_while_playing
    (modify_self (set_Game_state PLAYING) ;; Game.reset_game).
Proof.
  intros w _. unfold Game.reset_game. cbn.
  match goal with |- context [Game.reset_game_objects ?w1] =>
    destruct (reset_game_objects_run w1) as (R & B & _)
  end.
  rewrite R. split; [| exact Logic.I].
  unfold alive_while_playing. rewrite B. cbn. intros _. lia.
Qed.

Ltac alive_leaf :=
  lazymatch goal with
  | |- anything _ => exact Logic.I
  | |- _ =>
      let w := fresh "w" in
      let H := fresh "H" in
      let P := fresh "P" in
      intros w H;
      first [ exact H
            | intros P; cbn in P;
              first [ discriminate P | specialize (H P); cbn; lia ] ]
  end.

Ltac alive_step :=
  lazymatch goal with
  | |- sound _ alive_while_playing (Game.handle_obstacle_collision ?r) =>
      apply (handle_obstacle_collision_alive r)
  | |- _ => sound_step
  end.

Lemma update_alive (keys : Keys) :
  sound anything alive_while_playing (Game.update keys).
Proof. repeat alive_step; alive_leaf. Qed.

Lemma run_alive (frames : list (list event * Keys)) :
  sound anything alive_while_playing (Game.run frames).
Proof.
  apply run_sound.
  - apply start_alive.
  - intros s w [-> | ->] _ P; discriminate P.
  - intros b w H. exact H.
  - apply update_alive.
Qed.

(** In every state that a game reaches, who is playing has at least one
    life: the hit that takes the last life ends the game at once. *)
Theorem playing_means_a_life_left
    (int_of_unicode : string -> option Z) (e : Env)
    (frames : list (list event * Keys)) :
  let w := reached int_of_unicode e frames in
  Game_state (self w) = PLAYING -> 1 <= Game_lives (self w).
Proof.
  unfold reached.
  destruct (reached_run int_of_unicode e frames) as [h E]. cbv zeta. rewrite E.
  assert (S : sound anything alive_while_playing
                (Game.reset_game_objects ;; Game.run frames)).
  { apply sound_bind; [repeat alive_step; alive_leaf | intros _; apply run_alive]. }
  apply S. intros P. discriminate P.
Qed.

Lemma playing_means_a_life_left_witness :
  1 <= Game_lives (self (reached no_unicode env0 (play 200))).
Proof.
  apply (playing_means_a_life_left no_unicode env0 (play 200)).
  vm_compute. reflexivity.
Defined.

(** ** The high score *)

Lemma save_high_score_self (w : World) :
  self (snd (Game.save_high_score w)) = self w.
Proof.
  unfold Game.save_high_score. cbn. destruct (Env_fault (env w)); reflexivity.
Qed.

Lemma game_over_high_score (h : Z) :
  sound anything (fun w => h <= Game_high_score (self w)) Game.game_over.
Proof.
  intros w H. unfold Game.game_over. cbn.
  split; [| destruct (fst _); exact Logic.I].
  destruct (Z.ltb_spec (Game_high_score (self w)) (Game_score (self w))) as [L | L]; cbn.
  - match goal with |- context [Game.save_high_score ?w1] =>
      pose proof (save_high_score_self w1) as S;
      destruct (Game.save_high_score w1) as [[[] | x] w2]
    end; cbn [snd] in *; rewrite S; cbn; lia.
  - exact H.
Qed.

Ltac high_score_leaf :=
  lazymatch goal with
  | |- anything _ => exact Logic.I
  | |- _ =>
      let w := fresh "w" in
      let H := fresh "H" in
      intros w H; exact H
  end.

Ltac high_score_step :=
  lazymatch goal with
  | |- sound _ _ Game.game_over => apply game_over_high_score
  | |- _ => sound_step
  end.

Lemma run_high_score (h : Z) (frames : list (list event * Keys)) :
  sound anything (fun w => h <= Game_high_score (self w)) (Game.run frames).
Proof.
  apply run_sound.
  - repeat high_score_step; high_score_leaf.
  - intros s w _ H. exact H.
  - intros b w H. exact H.
  - intros keys. repeat high_score_step; high_score_leaf.
Qed.

(** The high score never goes down: over any frames, from any state, it
    ends at least as high as it started, whether [run] returns or raises. *)
Theorem high_score_never_decreases
    (frames : list (list event * Keys)) (w : World) :
  Game_high_score (self w) <= Game_high_score (self (snd (Game.run frames w))).
Proof.
  apply (run_high_score (Game_high_score (self w)) frames w). lia.
Qed.

(** ** The end of a game *)

Lemma update_in_play (keys : Keys) (w : World) :
  in_play w ->
  Game.update keys w
  = (Player.update keys ;; Game.update_obstacles ;; Game.update_coins ;;
     Game.update_power_ups ;; Game.spawn_power_up ;; Game.update_particles ;;
     Game.check_collisions) w.
Proof.
  intros P. unfold Game.update. unfold bind at 1. cbn [get_self gets].
  rewrite P. reflexivity.
Qed.

Lemma update_not_in_play (keys : Keys) (w : World) :
  ~ in_play w -> Game.update keys w = (Ok tt, w).
Proof.
  intros P. unfold Game.update. unfold bind at 1. cbn [get_self gets].
  destruct (Z.eqb_spec (Game_state (self w)) PLAYING) as [E | E]; [| reflexivity].
  contradiction.
Qed.

Lemma game_over_record (w : World) :
  let w' := snd (Game.game_over w) in
  Game_score (self w') = Game_score (self w) /\
  Game_score (self w) <= Game_high_score (self w').
Proof.
  unfold Game.game_over. cbn.
  destruct (Z.ltb_spec (Game_high_score (self w)) (Game_score (self w))) as [L | L]; cbn.
  - match goal with |- context [Game.save_high_score ?w1] =>
      pose proof (save_high_score_self w1) as S;
      destruct (Game.save_high_score w1) as [[[] | x] w2]
    end; cbn [snd] in *; rewrite S; cbn; lia.
  - lia.
Qed.

Lemma handle_obstacle_collision_over (obstacle : ref) :
  keeps over_means_recorded (Game.handle_obstacle_collision obstacle).
Proof.
  intros w H. unfold Game.handle_obstacle_collision. cbn.
  destruct (Player_shield (Game_player (self w))); cbn.
  - match goal with |- context [call_obstacle obstacle Obstacle.respawn ?w1] =>
      destruct (call_obstacle_respawn_run obstacle w1) as (o' & _ & E)
    end.
    rewrite E. cbn.
    match goal with |- context [Game.burst CYAN ?w2] =>
      destruct (burst_run CYAN w2) as [R A];
      destruct (Game.burst CYAN w2) as [r w3]
    end.
    cbn [fst snd] in *.
    unfold over_means_recorded. rewrite (appended_self _ _ _ _ _ _ A). cbn. exact H.
  - match goal with |- context [call_obstacle obstacle Obstacle.respawn ?w1] =>
      destruct (call_obstacle_respawn_run obstacle w1) as (o' & _ & E)
    end.
    rewrite E. cbn.
    destruct (Z.leb_spec (Game_lives (self w) - 1) 0) as [L | L].
    + match goal with |- context [Game.game_over ?w2] =>
        destruct (game_over_frame w2) as (_ & S & _);
        destruct (game_over_record w2) as (S1 & S2)
      end.
      intros _. cbn in S, S1, S2. rewrite S, S1. lia.
    + match goal with |- context [Game.burst RED ?w2] =>
        destruct (burst_run RED w2) as [R A];
        destruct (Game.burst RED w2) as [r w3]
      end.
      cbn [fst snd] in *.
      unfold over_means_recorded. rewrite (appended_self _ _ _ _ _ _ A). cbn.
      intros P. destruct (H P) as [H1 H2]. lia.
Qed.

Ltac in_play_auto :=
  repeat keeps_step;
  let w := fresh "w" in
  let H := fresh "H" in
  intros w H; exact H.

Lemma in_play_not_over (w : World) : in_play w -> over_means_recorded w.
Proof. intros P E. unfold in_play in P. rewrite P in E. discriminate E. Qed.

Lemma check_collisions_over : leads in_play over_means_recorded Game.check_collisions.
Proof.
  unfold Game.check_collisions.
  apply leads_bind; [exact in_play_not_over | in_play_auto | intros _].
  apply leads_bind; [exact in_play_not_over | in_play_auto | intros _].
  intros w P. apply in_play_not_over in P. revert w P.
  apply keeps_bind; [apply keeps_gets | intros g].
  apply keeps_for_each. intros obstacle.
  apply keeps_bind; [apply keeps_gets | intros p].
  apply keeps_bind; [apply keeps_gets | intros o].
  apply keeps_when. apply handle_obstacle_collision_over.
Qed.

Lemma update_over (keys : Keys) :
  sound anything over_means_recorded (Game.update keys).
Proof.
  intros w H. split; [| destruct (fst _); exact Logic.I].
  destruct (Z.eq_dec (Game_state (self w)) PLAYING) as [P | P].
  - rewrite (update_in_play keys w P). revert w P H.
    assert (L : leads in_play over_means_recorded
                  (Player.update keys ;; Game.update_obstacles ;; Game.update_coins ;;
                   Game.update_power_ups ;; Game.spawn_power_up ;;
                   Game.update_particles ;; Game.check_collisions)).
    { repeat lazymatch goal with
             | |- leads _ _ Game.check_collisions => apply check_collisions_over
             | |- leads _ _ (bind _ _) =>
                 apply leads_bind; [exact in_play_not_over | in_play_auto | intros _]
             end. }
    intros w P _. apply L, P.
  - rewrite (update_not_in_play keys w P). exact H.
Qed.

Lemma start_over :
  sound anything over_means_recorded
    (modify_self (set_Game_state PLAYING) ;; Game.reset_game).
Proof.
  intros w _. unfold Game.reset_game. cbn.
  match goal with |- context [Game.reset_game_objects ?w1] =>
    destruct (reset_game_objects_run w1) as (R & B & _)
  end.
  rewrite R. split; [| exact Logic.I].
  unfold over_means_recorded. rewrite B. cbn. intros P. discriminate P.
Qed.

Lemma run_over (frames : list (list event * Keys)) :
  sound anything over_means_recorded (Game.run frames).
Proof.
  apply run_sound.
  - apply start_over.
  - intros s w [-> | ->] _ P; discriminate P.
  - intros b w H. exact H.
  - apply update_over.
Qed.

(** Whenever a game that was reached is over, no life is left and the
    high score is at least the score, also when saving it has failed. *)
Theorem game_over_means_no_life_and_score_recorded
    (int_of_unicode : string -> option Z) (e : Env)
    (frames : list (list event * Keys)) :
  let w := reached int_of_unicode e frames in
  Game_state (self w) = GAME_OVER ->
  Game_lives (self w) <= 0 /\ Game_score (self w) <= Game_high_score (self w).
Proof.
  unfold reached.
  destruct (reached_run int_of_unicode e frames) as [h E]. cbv zeta. rewrite E.
  assert (S : sound anything over_means_recorded
                (Game.reset_game_objects ;; Game.run frames)).
  { apply sound_bind; [| intros _; apply run_over].
    apply sound_of_keeps. repeat keeps_step; intros w H; exact H. }
  apply S. intros P. discriminate P.
Qed.

Lemma game_over_means_no_life_and_score_recorded_witness :
  let w := reached no_unicode env0 (play 500) in
  Game_lives (self w) <= 0 /\ Game_score (self w) <= Game_high_score (self w).
Proof.
  apply (game_over_means_no_life_and_score_recorded no_unicode env0 (play 500)).
  vm_compute. reflexivity.
Defined.

(** ** What changes the score and the lives *)

Lemma handle_powerup_collection_lives (power_up : ref) (w : World) :
  Game_lives (self (snd (Game.handle_powerup_collection power_up w)))
  = if String.eqb (PowerUp_type (Heap_power_ups (heap w) power_up)) "extra_life"
    then Game_lives (self w) + 1 else Game_lives (self w).
Proof.
  unfold Game.handle_powerup_collection, Game.remove_power_up. cbn.
  rewrite upd_same. cbn.
  destruct (String.eqb_spec (PowerUp_type (Heap_power_ups (heap w) power_up)) "shield")
    as [E | E].
  { rewrite E. cbn.
    destruct (list_remove power_up (Game_power_ups (self w))); reflexivity. }
  destruct (String.eqb_spec (PowerUp_type (Heap_power_ups (heap w) power_up)) "speed_boost")
    as [E1 | E1].
  { rewrite E1. cbn.
    destruct (list_remove power_up (Game_power_ups (self w))); reflexivity. }
  destruct (String.eqb (PowerUp_type (Heap_power_ups (heap w) power_up)) "extra_life");
    cbn; destruct (list_remove power_up (Game_power_ups (self w))); reflexivity.
Qed.

Lemma shielded_hit_lives (obstacle : ref) (w : World) :
  Player_shield (Game_player (self w)) = true ->
  Game_lives (self (snd (Game.handle_obstacle_collision obstacle w)))
  = Game_lives (self w).
Proof.
  intros Hs. unfold Game.handle_obstacle_collision. cbn. rewrite Hs. cbn.
  match goal with |- context [call_obstacle obstacle Obstacle.respawn ?w1] =>
    destruct (call_obstacle_respawn_run obstacle w1) as (o' & _ & E)
  end.
  rewrite E. cbn.
  match goal with |- context [Game.burst CYAN ?w2] =>
    destruct (burst_run CYAN w2) as [R A];
    destruct (Game.burst CYAN w2) as [r w3]
  end.
  cbn [fst snd] in *. rewrite (appended_self _ _ _ _ _ _ A). reflexivity.
Qed.

Lemma perform_keeps_score (o : operation) (s : Z) :
  match o with
  | CollectCoin _ => True
  | _ => keeps (fun w => Game_score (self w) = s) (perform o)
  end.
Proof.
  destruct o; cbn [perform]; try exact Logic.I;
    repeat keeps_step; intros w H; exact H.
Qed.

Lemma perform_keeps_lives (o : operation) (n : Z) :
  match o with
  | CollectPowerUp _ | HitObstacle _ => True
  | _ => keeps (fun w => Game_lives (self w) = n) (perform o)
  end.
Proof.
  destruct o; cbn [perform]; try exact Logic.I;
    repeat keeps_step; intros w H; exact H.
Qed.

(** Of the operations of a frame, only the collection of a coin changes
    the score, and only the collection of an extra life and a hit without
    shield change the number of lives. *)
Theorem only_collisions_change_score_and_lives (o : operation) (w : World) :
  let w' := snd (perform o w) in
  (Game_score (self w') <> Game_score (self w) ->
     exists coin, o = CollectCoin coin) /\
  (Game_lives (self w') <> Game_lives (self w) ->
     (exists power_up, o = CollectPowerUp power_up /\
        PowerUp_type (Heap_power_ups (heap w) power_up) = "extra_life"%string) \/
     (exists obstacle, o = HitObstacle obstacle /\
        Player_shield (Game_player (self w)) = false)).
Proof.
  intros w'.
  pose proof (perform_keeps_score o (Game_score (self w))) as KS.
  pose proof (perform_keeps_lives o (Game_lives (self w))) as KL.
  split.
  - intros Hs. destruct o; try (exfalso; apply Hs; apply (KS w eq_refl)).
    now exists coin.
  - intros Hl. destruct o; try (exfalso; apply Hl; apply (KL w eq_refl)).
    + left. exists power_up. split; [reflexivity |].
      subst w'. cbn [perform] in Hl.
      rewrite handle_powerup_collection_lives in Hl.
      destruct (String.eqb_spec (PowerUp_type (Heap_power_ups (heap w) power_up))
                  "extra_life") as [E | E]; [exact E | contradiction].
    + right. exists obstacle. split; [reflexivity |].
      destruct (Player_shield (Game_player (self w))) eqn:E; [| reflexivity].
      exfalso. apply Hl. subst w'. cbn [perform].
      apply shielded_hit_lives, E.
Qed.

Lemma only_collisions_change_score_and_lives_witness :
  (exists coin, CollectCoin 8%nat = CollectCoin coin) /\
  ((exists power_up, CollectPowerUp 10%nat = CollectPowerUp power_up /\
      PowerUp_type (Heap_power_ups (heap (offer "extra_life" (started env0))) power_up)
      = "extra_life"%string) \/
   (exists obstacle, CollectPowerUp 10%nat = HitObstacle obstacle /\
      Player_shield (Game_player (self (offer "extra_life" (started env0)))) = false)).
Proof.
  split.
  - apply (proj1 (only_collisions_change_score_and_lives (CollectCoin 8%nat)
                    (started env0))).
    vm_compute. discriminate.
  - apply (proj2 (only_collisions_change_score_and_lives (CollectPowerUp 10%nat)
                    (offer "extra_life" (started env0)))).
    vm_compute. discriminate.
Defined.

(** ** Events *)

Lemma handle_events_idle (events : list event) (w : World) :
  in_play w \/
  (Game_state (self w) = GAME_OVER /\ ~ In (KEYDOWN K_RETURN) events) ->
  Game.handle_events events w = (Ok (negb (existsb is_QUIT events)), w).
Proof.
  induction events as [| ev events IH]; intros H; [reflexivity |].
  assert (H' : in_play w \/
               (Game_state (self w) = GAME_OVER /\ ~ In (KEYDOWN K_RETURN) events)).
  { destruct H as [P | [P N]]; [now left | right].
    split; [exact P |]. intros A. apply N. now right. }
  specialize (IH H').
  cbn [Game.handle_events]. destruct ev as [| k |].
  - reflexivity.
  - unfold bind at 1. cbn [get_self gets existsb is_QUIT orb].
    destruct H as [P | [P N]]; unfold in_play in *; rewrite P.
    + change (PLAYING =? MENU) with false.
      change (PLAYING =? GAME_OVER) with false.
      change (PLAYING =? SETTINGS) with false.
      cbv iota. exact IH.
    + change (GAME_OVER =? MENU) with false.
      change (GAME_OVER =? GAME_OVER) with true.
      cbv iota. destruct k; try exact IH.
      exfalso. apply N. now left.
  - cbn [existsb is_QUIT orb]. exact IH.
Qed.

(** While the game is in play the events of the keyboard do nothing (the
    arrows are polled by [update]), and when it is over only the key
    RETURN does: [handle_events] leaves the game as it is, and returns
    [False] exactly when there is a QUIT event. *)
Theorem events_do_nothing_in_play_nor_when_over (events : list event) (w : World) :
  Game_state (self w) = PLAYING \/
  (Game_state (self w) = GAME_OVER /\ ~ In (KEYDOWN K_RETURN) events) ->
  Game.handle_events events w = (Ok (negb (existsb is_QUIT events)), w).
Proof. exact (handle_events_idle events w). Qed.

Lemma events_do_nothing_in_play_nor_when_over_witness :
  Game.handle_events [KEYDOWN K_1; KEYDOWN K_ESCAPE; other_event; QUIT; KEYDOWN K_2]
    (started env0)
  = (Ok false, started env0).
Proof.
  apply (events_do_nothing_in_play_nor_when_over
           [KEYDOWN K_1; KEYDOWN K_ESCAPE; other_event; QUIT; KEYDOWN K_2]
           (started env0)).
  left. vm_compute. reflexivity.
Defined.

(** A game that is over stays exactly as it is, frame after frame, until
    the key RETURN is pressed: [run] over frames without it changes
    nothing and does not raise. *)
Theorem game_over_is_left_only_by_RETURN
    (frames : list (list event * Keys)) (w : World) :
  Game_state (self w) = GAME_OVER ->
  (forall events keys, In (events, keys) frames -> ~ In (KEYDOWN K_RETURN) events) ->
  Game.run frames w = (Ok tt, w).
Proof.
  intros P. induction frames as [| [events keys] frames IH]; intros N; [reflexivity |].
  cbn [Game.run]. unfold bind.
  rewrite (handle_events_idle events w).
  - rewrite (update_not_in_play keys w).
    + destruct (negb (existsb is_QUIT events)); [| reflexivity].
      apply IH. intros ev k A. apply (N ev k). now right.
    + unfold in_play. rewrite P. discriminate.
  - right. split; [exact P |]. apply (N events keys). now left.
Qed.

Lemma game_over_is_left_only_by_RETURN_witness :
  let w := reached no_unicode env0 (play 500) in
  Game.run [([KEYDOWN K_1], idle); ([other_event], idle)] w = (Ok tt, w).
Proof.
  intros w.
  apply (game_over_is_left_only_by_RETURN
           [([KEYDOWN K_1], idle); ([other_event], idle)] w).
  - vm_compute. reflexivity.
  - intros events keys [A | [A | []]]; injection A as <- _;
      intros [B | B]; try discriminate B; destruct B.
Defined.

(** The key [1] in the menu starts a new game, from any earlier one: in
    play, at score 0, level 1, with one life and a new player; 3 new
    obstacles and 2 new coins, no power-up, no particle; the high score
    and the colours of the display stay. *)
Theorem key_1_in_menu_starts_a_new_game (w : World) :
  Game_state (self w) = MENU ->
  let w' := snd (Game.handle_events [KEYDOWN K_1] w) in
  let g := self w' in
  let next := Heap_next (heap w) in
  fst (Game.handle_events [KEYDOWN K_1] w) = Ok true /\
  g = {| Game_state := PLAYING; Game_player := Player.__init__;
         Game_obstacles := seq next 3; Game_coins := seq (next + 3) 2;
         Game_power_ups := []; Game_particles := [];
         Game_score := 0; Game_high_score := Game_high_score (self w);
         Game_level := 1; Game_lives := 1;
         Game_dark_mode := Game_dark_mode (self w) |} /\
  (forall r, In r (Game_obstacles g) -> new_obstacle (Heap_obstacles (heap w') r)) /\
  (forall r, In r (Game_coins g) -> new_coin (Heap_coins (heap w') r)).
Proof.
  intros P. cbv zeta.
  assert (E : Game.handle_events [KEYDOWN K_1] w
              = (Game.reset_game_objects ;; ret true)
                  (set_self
                     (set_Game_lives 1 (set_Game_level 1 (set_Game_score 0
                        (set_Game_player Player.__init__
                           (set_Game_state PLAYING (self w))))))
                     w)).
  { cbn [Game.handle_events]. unfold bind at 1. cbn [get_self gets].
    rewrite P. reflexivity. }
  rewrite E. unfold bind.
  match goal with |- context [Game.reset_game_objects ?w1] =>
    destruct (reset_game_objects_run w1) as (R & B & _ & O & C);
    destruct (Game.reset_game_objects w1) as [r w2]
  end.
  cbn [fst snd] in *. subst r. cbn [fst snd ret].
  split; [reflexivity |]. split; [rewrite B; reflexivity |].
  rewrite B. cbn. split; [exact O | exact C].
Qed.

Lemma key_1_in_menu_starts_a_new_game_witness :
  let w := reached no_unicode env0 (play 500 ++ [([KEYDOWN K_RETURN], idle)]) in
  let w' := snd (Game.handle_events [KEYDOWN K_1] w) in
  Game_state (self w') = PLAYING /\ Game_lives (self w') = 1 /\
  List.length (Game_obstacles (self w')) = 3%nat.
Proof.
  intros w w'.
  assert (P : Game_state (self w) = MENU) by (vm_compute; reflexivity).
  destruct (key_1_in_menu_starts_a_new_game w P) as (_ & E & _).
  subst w'. rewrite E. repeat split.
Defined.

(** ** The passes of [update] over the power-ups and the particles *)

Lemma list_remove_middle (a : ref) (pre l : list ref) :
  ~ In a pre -> list_remove a (pre ++ a :: l) = Some (pre ++ l).
Proof.
  intros H. induction pre as [| b pre IH]; cbn [list_remove app].
  - now rewrite Nat.eqb_refl.
  - destruct (Nat.eqb_spec b a) as [E | E].
    + exfalso. apply H. now left.
    + rewrite IH; [reflexivity |]. intros A. apply H. now right.
Qed.

(** A pass over a list without repetition: every object is moved on by
    [step], once, and the list keeps those that are not [gone] then. *)
Section Pass.

Variable T : Type.
Variable store : World -> ref -> T.
Variable items : World -> list ref.
Variable step : T -> T.
Variable gone : T -> bool.
Variable body : ref -> M unit.

Hypothesis body_store : forall (a : ref) (w : World) (r : ref),
  store (snd (body a w)) r = if Nat.eqb r a then step (store w a) else store w r.

Hypothesis body_removes : forall (a : ref) (w : World) (l' : list ref),
  gone (step (store w a)) = true -> list_remove a (items w) = Some l' ->
  fst (body a w) = Ok tt /\ items (snd (body a w)) = l'.

Hypothesis body_keeps : forall (a : ref) (w : World),
  gone (step (store w a)) = false ->
  fst (body a w) = Ok tt /\ items (snd (body a w)) = items w.

Lemma pass_run (l : list ref) :
  forall (pre : list ref) (w : World),
    items w = pre ++ l -> NoDup (pre ++ l) ->
    let w' := snd (for_each l body w) in
    fst (for_each l body w) = Ok tt /\
    items w' = pre ++ filter (fun r => negb (gone (step (store w r)))) l /\
    (forall r, In r l -> store w' r = step (store w r)) /\
    (forall r, ~ In r l -> store w' r = store w r).
Proof.
  induction l as [| a l IH]; intros pre w Hi Hn.
  - cbn. rewrite app_nil_r in *. repeat split; [exact Hi | intros r []].
  - assert (Ha : ~ In a (pre ++ l)) by apply (NoDup_remove_2 _ _ _ Hn).
    assert (Hal : ~ In a l) by (intros A; apply Ha, in_or_app; now right).
    assert (Hap : ~ In a pre) by (intros A; apply Ha, in_or_app; now left).
    pose proof (body_store a w) as Hst.
    assert (Hsame : forall r, In r l -> store (snd (body a w)) r = store w r).
    { intros r Hr. rewrite Hst. destruct (Nat.eqb_spec r a) as [-> | _];
        [contradiction | reflexivity]. }
    assert (Hfil : filter (fun r => negb (gone (step (store (snd (body a w)) r)))) l
                   = filter (fun r => negb (gone (step (store w r)))) l).
    { apply filter_ext_in. intros r Hr. now rewrite Hsame. }
    unfold for_each; fold (@for_each ref). unfold bind. cbn [filter].
    destruct (gone (step (store w a))) eqn:G; cbn [negb].
    + destruct (body_removes a w (pre ++ l) G) as [R E].
      { rewrite Hi. apply list_remove_middle, Hap. }
      destruct (body a w) as [r w1]. cbn [fst snd] in *. subst r.
      destruct (IH pre w1 E (NoDup_remove_1 _ _ _ Hn)) as (R1 & E1 & S1 & F1).
      split; [exact R1 |]. split; [rewrite E1, Hfil; reflexivity |]. split.
      * intros r [<- | Hr].
        -- rewrite (F1 a Hal), Hst, Nat.eqb_refl. reflexivity.
        -- rewrite (S1 r Hr), (Hsame r Hr). reflexivity.
      * intros r Hr. rewrite F1 by (intros A; apply Hr; now right).
        rewrite Hst. destruct (Nat.eqb_spec r a) as [-> | _]; [| reflexivity].
        exfalso. apply Hr. now left.
    + destruct (body_keeps a w G) as [R E].
      destruct (body a w) as [r w1]. cbn [fst snd] in *. subst r.
      assert (Hi1 : items w1 = (pre ++ [a]) ++ l)
        by (rewrite E, Hi, <- app_assoc; reflexivity).
      assert (Hn1 : NoDup ((pre ++ [a]) ++ l))
        by (rewrite <- app_assoc; exact Hn).
      destruct (IH (pre ++ [a]) w1 Hi1 Hn1) as (R1 & E1 & S1 & F1).
      split; [exact R1 |].
      split; [rewrite E1, Hfil, <- app_assoc; reflexivity |]. split.
      * intros r [<- | Hr].
        -- rewrite (F1 a Hal), Hst, Nat.eqb_refl. reflexivity.
        -- rewrite (S1 r Hr), (Hsame r Hr). reflexivity.
      * intros r Hr. rewrite F1 by (intros A; apply Hr; now right).
        rewrite Hst. destruct (Nat.eqb_spec r a) as [-> | _]; [| reflexivity].
        exfalso. apply Hr. now left.
Qed.

End Pass.

(** The pass of [update] over the particles, when none is listed twice:
    it never raises; every listed particle is updated once, no other is
    touched, and the list keeps, in order, those that are not dead then. *)
Theorem update_particles_updates_each_and_drops_the_dead (w : World) :
  NoDup (Game_particles (self w)) ->
  let w' := snd (Game.update_particles w) in
  fst (Game.update_particles w) = Ok tt /\
  Game_particles (self w')
  = filter (fun r => negb (Particle.is_dead
                             (Particle.update (Heap_particles (heap w) r))))
      (Game_particles (self w)) /\
  (forall r, In r (Game_particles (self w)) ->
     Heap_particles (heap w') r = Particle.update (Heap_particles (heap w) r)) /\
  (forall r, ~ In r (Game_particles (self w)) ->
     Heap_particles (heap w') r = Heap_particles (heap w) r).
Proof.
  intros Hn. unfold Game.update_particles. cbn.
  apply (pass_run Particle (fun w => Heap_particles (heap w))
           (fun w => Game_particles (self w)) Particle.update Particle.is_dead
           _ ) with (pre := []); [| | | reflexivity | exact Hn].
  - intros a w0 r. cbn. rewrite upd_same.
    destruct (Particle.is_dead (Particle.update (Heap_particles (heap w0) a))); cbn;
      [unfold Game.remove_particle; cbn;
       destruct (list_remove a (Game_particles (self w0))); cbn |];
      unfold upd; reflexivity.
  - intros a w0 l' G R. cbn. rewrite upd_same. rewrite G. cbn.
    unfold Game.remove_particle. cbn. rewrite R. cbn. split; reflexivity.
  - intros a w0 G. cbn. rewrite upd_same. rewrite G. cbn. split; reflexivity.
Qed.

Lemma update_particles_updates_each_and_drops_the_dead_witness :
  let w := world_before_level_up in
  let w' := snd (Game.update_particles w) in
  fst (Game.update_particles w) = Ok tt /\
  Game_particles (self w')
  = filter (fun r => negb (Particle.is_dead
                             (Particle.update (Heap_particles (heap w) r))))
      (Game_particles (self w)).
Proof.
  intros w w'.
  assert (E : Game_particles (self w) = seq 11 20) by (vm_compute; reflexivity).
  assert (Hn : NoDup (Game_particles (self w))) by (rewrite E; apply seq_NoDup).
  destruct (update_particles_updates_each_and_drops_the_dead w Hn) as (A & B & _).
  split; [exact A | exact B].
Defined.

(** The pass of [update] over the power-ups, when none is listed twice:
    it never raises; every listed power-up falls by its speed, once, no
    other is touched, and the list keeps, in order, those that are not
    off the screen then. *)
Theorem update_power_ups_moves_each_and_drops_the_off_screen (w : World) :
  NoDup (Game_power_ups (self w)) ->
  let w' := snd (Game.update_power_ups w) in
  fst (Game.update_power_ups w) = Ok tt /\
  Game_power_ups (self w')
  = filter (fun r => negb (PowerUp.is_off_screen
                             (PowerUp.update (Heap_power_ups (heap w) r))))
      (Game_power_ups (self w)) /\
  (forall r, In r (Game_power_ups (self w)) ->
     Heap_power_ups (heap w') r = PowerUp.update (Heap_power_ups (heap w) r)) /\
  (forall r, ~ In r (Game_power_ups (self w)) ->
     Heap_power_ups (heap w') r = Heap_power_ups (heap w) r).
Proof.
  intros Hn. unfold Game.update_power_ups. cbn.
  apply (pass_run PowerUp (fun w => Heap_power_ups (heap w))
           (fun w => Game_power_ups (self w)) PowerUp.update PowerUp.is_off_screen
           _ ) with (pre := []); [| | | reflexivity | exact Hn].
  - intros a w0 r. cbn. rewrite upd_same.
    destruct (PowerUp.is_off_screen (PowerUp.update (Heap_power_ups (heap w0) a))); cbn;
      [unfold Game.remove_power_up; cbn;
       destruct (list_remove a (Game_power_ups (self w0))); cbn |];
      unfold upd; reflexivity.
  - intros a w0 l' G R. cbn. rewrite upd_same. rewrite G. cbn.
    unfold Game.remove_power_up. cbn. rewrite R. cbn. split; reflexivity.
  - intros a w0 G. cbn. rewrite upd_same. rewrite G. cbn. split; reflexivity.
Qed.

Lemma update_power_ups_moves_each_and_drops_the_off_screen_witness :
  let w := offer "shield" (started env0) in
  let w' := snd (Game.update_power_ups w) in
  fst (Game.update_power_ups w) = Ok tt /\
  Game_power_ups (self w')
  = filter (fun r => negb (PowerUp.is_off_screen
                             (PowerUp.update (Heap_power_ups (heap w) r))))
      (Game_power_ups (self w)).
Proof.
  intros w w'.
  assert (E : Game_power_ups (self w) = seq 10 1) by (vm_compute; reflexivity).
  assert (Hn : NoDup (Game_power_ups (self w))) by (rewrite E; apply seq_NoDup).
  destruct (update_power_ups_moves_each_and_drops_the_off_screen w Hn) as (A & B & _).
  split; [exact A | exact B].
Defined.

(** ** No object is listed twice *)

Lemma list_remove_split (a : ref) (l l' : list ref) :
  list_remove a l = Some l' ->
  exists l1 l2 : list ref, l = l1 ++ a :: l2 /\ l' = l1 ++ l2.
Proof.
  revert l'. induction l as [| b l IH]; intros l' H; [discriminate |].
  cbn [list_remove] in H. destruct (Nat.eqb_spec b a) as [-> | E].
  - injection H as <-. now exists [], l.
  - destruct (list_remove a l) as [l0 |]; [| discriminate].
    injection H as <-. destruct (IH l0 eq_refl) as (l1 & l2 & -> & ->).
    now exists (b :: l1), l2.
Qed.

Lemma reset_game_objects_listed_once :
  sound anything listed_once Game.reset_game_objects.
Proof.
  intros w _. destruct (reset_game_objects_run w) as (R & B & N & _).
  rewrite R. split; [| exact Logic.I].
  unfold listed_once. rewrite B, N. cbn.
  split; [apply seq_NoDup |]. split; [apply seq_NoDup |].
  split; [constructor |]. split; [constructor |].
  intros r [A | [A | [[] | []]]]; apply in_seq in A; lia.
Qed.

Lemma spawn_power_up_listed_once : sound anything listed_once Game.spawn_power_up.
Proof.
  intros w (A & B & C & D & E). unfold Game.spawn_power_up, random. cbn.
  match goal with |- context [if ?b then _ else _] => destruct b end; cbn.
  - match goal with |- context [PowerUp.__init__ ?w1] =>
      destruct (PowerUp_init_run w1) as (P1 & P2 & P3 & _);
      destruct (PowerUp.__init__ w1) as [r w2]
    end.
    cbn [fst snd] in *. subst r. cbn. split; [| exact Logic.I].
    unfold listed_once. cbn. rewrite P2, P3. cbn.
    split; [exact A |]. split; [exact B |]. split; [| split; [exact D |]].
    + apply NoDup_app; [exact C | repeat constructor; intros [] |].
      intros r Hr [Er | []].
      assert (r < Heap_next (heap w))%nat by (apply E; cbn; tauto). lia.
    + intros r Hr. rewrite in_app_iff in Hr. cbn in Hr.
      destruct Hr as [Hr | [Hr | [[Hr | [Er | []]] | Hr]]];
        try lia;
        (assert (r < Heap_next (heap w))%nat by (apply E; cbn; tauto)); lia.
  - split; [| exact Logic.I].
    split; [exact A |]. split; [exact B |]. split; [exact C |]. split; [exact D |].
    exact E.
Qed.

Lemma append_particle_listed_once (x y : Py.num) (color : Color) :
  sound anything listed_once (Game.append_particle x y color).
Proof.
  intros w (A & B & C & D & E).
  destruct (append_particle_run x y color w) as [R P]. rewrite R.
  split; [| exact Logic.I].
  unfold listed_once.
  rewrite (appended_self _ _ _ _ _ _ P), (appended_next _ _ _ _ _ _ P). cbn.
  split; [exact A |]. split; [exact B |]. split; [exact C |]. split.
  - apply NoDup_app; [exact D | apply seq_NoDup |].
    intros r Hr Hs. apply in_seq in Hs.
    assert (r < Heap_next (heap w))%nat by (apply E; cbn; tauto). lia.
  - intros r Hr. rewrite in_app_iff in Hr.
    destruct Hr as [Hr | [Hr | [Hr | [Hr | Hr]]]];
      try (apply in_seq in Hr; lia);
      (assert (r < Heap_next (heap w))%nat by (apply E; cbn; tauto)); lia.
Qed.

Lemma remove_power_up_listed_once (a : ref) :
  sound anything listed_once (Game.remove_power_up a).
Proof.
  intros w (A & B & C & D & E). unfold Game.remove_power_up. cbn.
  destruct (list_remove a (Game_power_ups (self w))) as [l' |] eqn:R; cbn.
  - split; [| exact Logic.I].
    destruct (list_remove_split _ _ _ R) as (l1 & l2 & E1 & ->).
    cbn in E. rewrite E1 in C, E.
    split; [exact A |]. split; [exact B |].
    split; [apply (NoDup_remove_1 _ _ _ C) |]. split; [exact D |].
    intros r Hr. cbn in Hr |- *. apply E. rewrite in_app_iff in *. cbn. tauto.
  - split; [| exact Logic.I].
    split; [exact A |]. split; [exact B |]. split; [exact C |]. split; [exact D |].
    exact E.
Qed.

Lemma remove_particle_listed_once (a : ref) :
  sound anything listed_once (Game.remove_particle a).
Proof.
  intros w (A & B & C & D & E). unfold Game.remove_particle. cbn.
  destruct (list_remove a (Game_particles (self w))) as [l' |] eqn:R; cbn.
  - split; [| exact Logic.I].
    destruct (list_remove_split _ _ _ R) as (l1 & l2 & E1 & ->).
    cbn in E. rewrite E1 in D, E.
    split; [exact A |]. split; [exact B |]. split; [exact C |].
    split; [apply (NoDup_remove_1 _ _ _ D) |].
    intros r Hr. cbn in Hr |- *. apply E. rewrite in_app_iff in *. cbn. tauto.
  - split; [| exact Logic.I].
    split; [exact A |]. split; [exact B |]. split; [exact C |]. split; [exact D |].
    exact E.
Qed.

Ltac listed_once_leaf :=
  lazymatch goal with
  | |- anything _ => exact Logic.I
  | |- _ =>
      let w := fresh "w" in
      let H := fresh "H" in
      intros w H; exact H
  end.

Ltac listed_once_step :=
  lazymatch goal with
  | |- sound _ listed_once Game.reset_game_objects => apply reset_game_objects_listed_once
  | |- sound _ listed_once Game.spawn_power_up => apply spawn_power_up_listed_once
  | |- sound _ listed_once (Game.append_particle ?x ?y ?c) =>
      apply (append_particle_listed_once x y c)
  | |- sound _ listed_once (Game.remove_power_up ?r) =>
      apply (remove_power_up_listed_once r)
  | |- sound _ listed_once (Game.remove_particle ?r) =>
      apply (remove_particle_listed_once r)
  | |- _ => sound_step
  end.

Lemma run_listed_once (frames : list (list event * Keys)) :
  sound anything listed_once (Game.run frames).
Proof.
  apply run_sound.
  - repeat listed_once_step; listed_once_leaf.
  - intros s w _ H. exact H.
  - intros b w H. exact H.
  - intros keys. repeat listed_once_step; listed_once_leaf.
Qed.

(** In every state that a game reaches no obstacle, coin, power-up or
    particle is listed twice, and every reference listed is to an object
    that has been made. *)
Theorem no_object_is_listed_twice
    (int_of_unicode : string -> option Z) (e : Env)
    (frames : list (list event * Keys)) :
  let g := self (reached int_of_unicode e frames) in
  NoDup (Game_obstacles g) /\ NoDup (Game_coins g) /\
  NoDup (Game_power_ups g) /\ NoDup (Game_particles g) /\
  forall r : ref,
    In r (Game_obstacles g) \/ In r (Game_coins g) \/
    In r (Game_power_ups g) \/ In r (Game_particles g) ->
    (r < Heap_next (heap (reached int_of_unicode e frames)))%nat.
Proof.
  unfold reached.
  destruct (reached_run int_of_unicode e frames) as [h E]. cbv zeta. rewrite E.
  assert (S : sound anything listed_once
                (Game.reset_game_objects ;; Game.run frames)).
  { apply sound_bind; [apply reset_game_objects_listed_once |].
    intros _. apply run_listed_once. }
  apply (S (before_objects h e)).
  repeat split; try constructor. cbn. tauto.
Qed.

(** ** The passes of [update] over the obstacles and the coins *)

(** A pass over a list without repetition whose body touches only the
    object it visits. *)
Section Visit.

Variable T : Type.
Variable store : World -> ref -> T.
Variable body : ref -> M unit.
Variable Pre : T -> Prop.
Variable Post : T -> T -> Prop.

Hypothesis body_frame : forall (a : ref) (w : World) (r : ref),
  r <> a -> store (snd (body a w)) r = store w r.

Hypothesis body_post : forall (a : ref) (w : World),
  Pre (store w a) ->
  fst (body a w) = Ok tt /\ Post (store w a) (store (snd (body a w)) a).

Hypothesis body_self : forall (a : ref) (w : World), self (snd (body a w)) = self w.

Lemma visit_run (l : list ref) :
  forall w : World,
    NoDup l -> (forall r, In r l -> Pre (store w r)) ->
    let w' := snd (for_each l body w) in
    fst (for_each l body w) = Ok tt /\
    self w' = self w /\
    (forall r, In r l -> Post (store w r) (store w' r)) /\
    (forall r, ~ In r l -> store w' r = store w r).
Proof.
  induction l as [| a l IH]; intros w Hn Hp.
  - cbn. repeat split. intros r [].
  - inversion Hn as [| a' l' Ha Hn' E]; subst a' l'.
    destruct (body_post a w (Hp a (or_introl eq_refl))) as [R P].
    pose proof (body_frame a w) as F. pose proof (body_self a w) as S.
    unfold for_each; fold (@for_each ref). unfold bind.
    destruct (body a w) as [r w1]. cbn [fst snd] in *. subst r.
    destruct (IH w1 Hn') as (R1 & S1 & P1 & F1).
    { intros r Hr. rewrite F; [apply Hp; now right |]. intros ->. contradiction. }
    split; [exact R1 |]. split; [rewrite S1, S; reflexivity |]. split.
    + intros r [<- | Hr].
      * rewrite (F1 a Ha). exact P.
      * rewrite <- (F r); [apply P1, Hr |]. intros ->. contradiction.
    + intros r Hr. rewrite F1 by (intros A; apply Hr; now right).
      apply F. intros ->. apply Hr. now left.
Qed.

End Visit.

(** The pass of [update] over the obstacles, when none is listed twice: it
    never raises; every listed obstacle falls by its speed, once, and is
    respawned if that takes it off the screen; nothing else of the game
    changes. *)
Theorem update_obstacles_moves_each_and_respawns_the_off_screen (w : World) :
  NoDup (Game_obstacles (self w)) ->
  let w' := snd (Game.update_obstacles w) in
  fst (Game.update_obstacles w) = Ok tt /\
  self w' = self w /\
  (forall r, In r (Game_obstacles (self w)) ->
     moved_obstacle (Heap_obstacles (heap w) r) (Heap_obstacles (heap w') r)) /\
  (forall r, ~ In r (Game_obstacles (self w)) ->
     Heap_obstacles (heap w') r = Heap_obstacles (heap w) r).
Proof.
  intros Hn. unfold Game.update_obstacles. cbn.
  apply (visit_run Obstacle (fun w => Heap_obstacles (heap w)) _
           (fun _ => True) moved_obstacle);
    [| | | exact Hn | intros r _; exact Logic.I].
  - intros a w0 r Hr. cbn. rewrite upd_same.
    destruct (Obstacle.is_off_screen (Obstacle.update (Heap_obstacles (heap w0) a))); cbn.
    + match goal with |- context [call_obstacle a Obstacle.respawn ?w1] =>
        destruct (call_obstacle_respawn_run a w1) as (o' & _ & E)
      end.
      rewrite E. cbn. now rewrite !upd_other.
    + now rewrite upd_other.
  - intros a w0 _. cbn. rewrite upd_same. unfold moved_obstacle.
    destruct (Obstacle.is_off_screen (Obstacle.update (Heap_obstacles (heap w0) a))); cbn.
    + match goal with |- context [call_obstacle a Obstacle.respawn ?w1] =>
        destruct (call_obstacle_respawn_run a w1) as (o' & P & E)
      end.
      rewrite E. cbn. rewrite upd_same. cbn in P. rewrite upd_same in P.
      split; [reflexivity | exact P].
    + rewrite upd_same. split; reflexivity.
  - intros a w0. cbn. rewrite upd_same.
    destruct (Obstacle.is_off_screen (Obstacle.update (Heap_obstacles (heap w0) a))); cbn.
    + match goal with |- context [call_obstacle a Obstacle.respawn ?w1] =>
        destruct (call_obstacle_respawn_run a w1) as (o' & _ & E)
      end.
      rewrite E. reflexivity.
    + reflexivity.
Qed.

Lemma update_obstacles_moves_each_and_respawns_the_off_screen_witness :
  let w := started env0 in
  let w' := snd (Game.update_obstacles w) in
  fst (Game.update_obstacles w) = Ok tt /\ self w' = self w.
Proof.
  intros w w'.
  assert (E : Game_obstacles (self w) = seq 5 3) by (vm_compute; reflexivity).
  assert (Hn : NoDup (Game_obstacles (self w))) by (rewrite E; apply seq_NoDup).
  destruct (update_obstacles_moves_each_and_respawns_the_off_screen w Hn)
    as (A & B & _).
  split; [exact A | exact B].
Defined.

Lemma Coin_respawn_self (c : Coin) (w : World) :
  self (snd (Coin.respawn c w)) = self w /\ heap (snd (Coin.respawn c w)) = heap w.
Proof.
  unfold Coin.respawn, Coin.reset_position, random, randint. cbn.
  destruct (SCREEN_WIDTH - Coin_radius c <? Coin_radius c); cbn; [now split |].
  match goal with |- context [if ?b then _ else _] => destruct b end; now split.
Qed.

Lemma call_coin_respawn_fits (a : ref) (w : World) :
  fits (Heap_coins (heap w) a) ->
  exists c' : Coin,
    respawned_coin (Heap_coins (heap w) a) c' /\
    call_coin a Coin.respawn w =
      (Ok tt,
       set_heap (set_Heap_coins (upd a c' (Heap_coins (heap w))) (heap w))
         (advance (advance w))).
Proof.
  intros Hf. destruct (Coin_respawn_run _ w Hf) as (c' & E & P).
  exists c'. split; [exact P |].
  unfold call_coin. cbn. rewrite E. reflexivity.
Qed.

(** The pass of [update] over the coins, when none is listed twice and
    each fits in the screen: it never raises; every listed coin falls by
    its speed, once, and is respawned if that takes it off the screen;
    nothing else of the game changes. *)
Theorem update_coins_moves_each_and_respawns_the_off_screen (w : World) :
  NoDup (Game_coins (self w)) ->
  (forall r, In r (Game_coins (self w)) -> fits (Heap_coins (heap w) r)) ->
  let w' := snd (Game.update_coins w) in
  fst (Game.update_coins w) = Ok tt /\
  self w' = self w /\
  (forall r, In r (Game_coins (self w)) ->
     moved_coin (Heap_coins (heap w) r) (Heap_coins (heap w') r)) /\
  (forall r, ~ In r (Game_coins (self w)) ->
     Heap_coins (heap w') r = Heap_coins (heap w) r).
Proof.
  intros Hn Hf. unfold Game.update_coins. cbn.
  apply (visit_run Coin (fun w => Heap_coins (heap w)) _ fits moved_coin);
    [| | | exact Hn | exact Hf].
  - intros a w0 r Hr. cbn. rewrite upd_same.
    destruct (Coin.is_off_screen (Coin.update (Heap_coins (heap w0) a))); cbn.
    + unfold call_coin. cbn. rewrite upd_same.
      match goal with |- context [Coin.respawn ?c ?w1] =>
        destruct (Coin_respawn_self c w1) as [_ S];
        destruct (Coin.respawn c w1) as [[c' | x] w2]
      end; cbn [snd] in S; cbn; rewrite S; cbn;
        repeat rewrite upd_other by exact Hr; reflexivity.
    + now rewrite upd_other.
  - intros a w0 Hfa. cbn. rewrite upd_same. unfold moved_coin.
    destruct (Coin.is_off_screen (Coin.update (Heap_coins (heap w0) a))); cbn.
    + match goal with |- context [call_coin a Coin.respawn ?w1] =>
        destruct (call_coin_respawn_fits a w1) as (c' & P & E)
      end.
      { cbn. rewrite upd_same. exact Hfa. }
      rewrite E. cbn. rewrite upd_same. cbn in P. rewrite upd_same in P.
      split; [reflexivity | exact P].
    + rewrite upd_same. split; reflexivity.
  - intros a w0. cbn. rewrite upd_same.
    destruct (Coin.is_off_screen (Coin.update (Heap_coins (heap w0) a))); cbn.
    + unfold call_coin. cbn. rewrite upd_same.
      match goal with |- context [Coin.respawn ?c ?w1] =>
        destruct (Coin_respawn_self c w1) as [S _];
        destruct (Coin.respawn c w1) as [[c' | x] w2]
      end; cbn [snd] in S; cbn; exact S.
    + reflexivity.
Qed.

Lemma update_coins_moves_each_and_respawns_the_off_screen_witness :
  let w := started env0 in
  let w' := snd (Game.update_coins w) in
  fst (Game.update_coins w) = Ok tt /\ self w' = self w.
Proof.
  intros w w'.
  assert (E : Game_coins (self w) = seq 8 2) by (vm_compute; reflexivity).
  assert (Hn : NoDup (Game_coins (self w))) by (rewrite E; apply seq_NoDup).
  assert (Hf : forall r, In r (Game_coins (self w)) -> fits (Heap_coins (heap w) r)).
  { intros r Hr. rewrite E in Hr.
    destruct Hr as [<- | [<- | []]]; vm_compute; discriminate. }
  destruct (update_coins_moves_each_and_respawns_the_off_screen w Hn Hf)
    as (A & B & _).
  split; [exact A | exact B].
Defined.

(** ** The mark of a collected coin *)

Lemma coin_put_uncollected (r : ref) (g : Coin -> Coin) :
  (forall c, coin_ok c /\ Coin_collected c = false ->
             coin_ok (g c) /\ Coin_collected (g c) = false) ->
  sound anything uncollected (c <- get_coin r ;; put_coin r (g c)).
Proof.
  intros Hg w H. cbn. split; [| exact Logic.I].
  intros r'. cbn. unfold upd. destruct (Nat.eqb r' r); [apply Hg |]; apply H.
Qed.

Lemma respawned_coin_uncollected (c c' : Coin) :
  coin_ok c -> respawned_coin c c' -> coin_ok c' /\ Coin_collected c' = false.
Proof.
  intros [Hr _] (R & _ & _ & _ & C & _ & V).
  split; [| exact C]. split; [congruence |].
  destruct V as [[V _] | [V _]]; [now right | now left].
Qed.

Lemma coin_ok_fits (c : Coin) : coin_ok c -> fits c.
Proof. intros [Hr _]. unfold fits, SCREEN_WIDTH. rewrite Hr. lia. Qed.

Lemma call_coin_respawn_uncollected (r : ref) :
  sound anything uncollected (call_coin r Coin.respawn).
Proof.
  intros w H.
  destruct (call_coin_respawn_fits r w) as (c' & P & E).
  { apply coin_ok_fits, H. }
  rewrite E. cbn [fst snd]. split; [| exact Logic.I].
  intros r'. cbn. unfold upd. destruct (Nat.eqb r' r); [| apply H].
  apply (respawned_coin_uncollected _ _ (proj1 (H r)) P).
Qed.

Lemma Coin_init_uncollected : sound anything uncollected Coin.__init__.
Proof.
  intros w H. destruct (Coin_init_run w) as (R & _ & _ & N & F & _).
  rewrite R. split; [| exact Logic.I].
  intros r. destruct (Nat.eq_dec r (Heap_next (heap w))) as [-> | Hne].
  - destruct N as (N1 & _ & _ & _ & _ & _ & N7 & N8 & _).
    split; [split; [exact N1 | now left] | exact N8].
  - rewrite (F r Hne). apply H.
Qed.

Ltac uncollected_leaf :=
  lazymatch goal with
  | |- anything _ => exact Logic.I
  | |- _ =>
      let w := fresh "w" in
      let H := fresh "H" in
      intros w H; exact H
  end.

Ltac uncollected_step :=
  lazymatch goal with
  | |- sound _ uncollected (call_coin ?r Coin.respawn) =>
      apply (call_coin_respawn_uncollected r)
  | |- sound _ uncollected Coin.__init__ => apply Coin_init_uncollected
  | |- sound _ uncollected (bind (get_coin ?r) (fun c => put_coin ?r (@?g c))) =>
      apply (coin_put_uncollected r g);
      let c := fresh "c" in
      let H := fresh "H" in
      intros c H; exact H
  | |- _ => sound_step
  end.

Lemma level_up_uncollected : sound anything uncollected Game.level_up.
Proof. repeat uncollected_step; uncollected_leaf. Qed.

(** The collection marks the coin, and [respawn] takes the mark off again
    before the call returns. *)
Lemma handle_coin_collection_uncollected (coin : ref) :
  sound anything uncollected (Game.handle_coin_collection coin).
Proof.
  intros w H. unfold Game.handle_coin_collection. cbn.
  match goal with |- context [Game.scatter coin ?w2] =>
    destruct (scatter_run coin w2) as [R A];
    destruct (Game.scatter coin w2) as [r w3]
  end.
  cbn [fst snd] in *. subst r. cbn.
  destruct A as [S N O C U Old New En]. cbn in S, C.
  destruct (call_coin_respawn_fits coin w3) as (c' & P & E).
  { rewrite C, upd_same. apply coin_ok_fits. apply H. }
  rewrite E. cbn. rewrite S. cbn.
  assert (H4 : uncollected
            (set_heap (set_Heap_coins (upd coin c' (Heap_coins (heap w3))) (heap w3))
               (advance (advance w3)))).
  { intros r. cbn. destruct (Nat.eq_dec r coin) as [-> | Hne].
    - rewrite upd_same. rewrite C, upd_same in P.
      apply (respawned_coin_uncollected _ _ (proj1 (H coin)) P).
    - rewrite upd_other by exact Hne. rewrite C, upd_other by exact Hne.
      apply H. }
  match goal with |- context [if ?b then _ else _] => destruct b end.
  - apply level_up_uncollected, H4.
  - split; [exact H4 | exact Logic.I].
Qed.

Lemma run_uncollected (frames : list (list event * Keys)) :
  sound anything uncollected (Game.run frames).
Proof.
  apply run_sound.
  - repeat uncollected_step; uncollected_leaf.
  - intros s w _ H. exact H.
  - intros b w H. exact H.
  - intros keys.
    repeat lazymatch goal with
           | |- sound _ uncollected (Game.handle_coin_collection ?coin) =>
               apply (handle_coin_collection_uncollected coin)
           | |- _ => uncollected_step
           end;
      uncollected_leaf.
Qed.

(** In every state that a game reaches no coin of the store is marked
    collected: the collection sets the mark and [respawn] clears it in the
    same call. *)
Theorem no_coin_stays_marked_collected
    (int_of_unicode : string -> option Z) (e : Env)
    (frames : list (list event * Keys)) (r : ref) :
  Coin_collected (Heap_coins (heap (reached int_of_unicode e frames)) r) = false.
Proof.
  unfold reached.
  destruct (reached_run int_of_unicode e frames) as [h E]. rewrite E.
  assert (S : sound anything uncollected
                (Game.reset_game_objects ;; Game.run frames)).
  { apply sound_bind; [repeat uncollected_step; uncollected_leaf |].
    intros _. apply run_uncollected. }
  apply (S (before_objects h e)).
  intros r0. split; [split; [reflexivity | now left] | reflexivity].
Qed.
